(** * Folder-name generator: normalizers, composer, dataset cache and fetchers

    A shallow embedding of the core of [src/app.js]:
    - the normalizers [clean], [normLang], [normCountry], [yyyymmdd]
      (lines 92-95) and the composer [composeName] (lines 98-113);
    - the cache helpers [getCache] and [setCache] (lines 28-44) over a local
      storage of texts, with [JSON.parse] and [JSON.stringify];
    - the fetchers [fetchCountries] and [fetchLanguages] (lines 46-89) with
      their fallback stubs (lines 1-26);
    - the state of the page's component and those of its methods that do
      not touch the document: the filtered options, the preview and the
      hint, saving and restoring the form, the key handlers of the two
      pickers and the default date (lines 115-341).

    JavaScript strings are sequences of UTF-16 code units; they are modelled
    as [list N].  The effects of the source (local storage, the clock, the
    network, exceptions) are threaded through a state-and-exception monad
    over [World].  Local storage is taken to accept every read and write.
    What the ECMAScript host decides and the repository does not (case
    conversion outside ASCII, the locale's collation, arithmetic on numbers
    that are not safe integers) is a field of the class [Host]. *)

From Stdlib Require DecimalN.
From Stdlib Require Import QArith Lqa.
From stdpp Require Import base numbers option list strings gmap sorting.

Set Warnings "-register-all".
Open Scope N_scope.

(** ** Strings *)

Abbreviation jsstring := (list N) (only parsing).

(** An ASCII literal as a sequence of code units. *)
Fixpoint js (s : string) : jsstring :=
  match s with
  | EmptyString => []
  | String a r => Ascii.N_of_ascii a :: js r
  end.

(** A literal in which an apostrophe stands for a double quote, for JSON
    texts. *)
Definition jsq (s : string) : jsstring :=
  List.map (λ c, if c =? 39 then 34 else c) (js s).

(** ECMAScript [WhiteSpace] and [LineTerminator] code points: what
    [String.prototype.trim] strips and what the regular expression class
    [\s] matches. *)
Definition isWhiteSpace (c : N) : bool :=
  ((9 <=? c) && (c <=? 13)) || (c =? 32) || (c =? 160) || (c =? 5760)
  || ((8192 <=? c) && (c <=? 8202)) || (c =? 8232) || (c =? 8233)
  || (c =? 8239) || (c =? 8287) || (c =? 12288) || (c =? 65279).

Fixpoint dropWhile {A} (p : A → bool) (l : list A) : list A :=
  match l with
  | [] => []
  | x :: r => if p x then dropWhile p r else l
  end.

Definition trimStart (s : jsstring) : jsstring := dropWhile isWhiteSpace s.
Definition trimEnd (s : jsstring) : jsstring :=
  rev (dropWhile isWhiteSpace (rev s)).
(** [s.trim()] *)
Definition trim (s : jsstring) : jsstring := trimEnd (trimStart s).

Definition isAscii (c : N) : bool := c <? 128.
Definition isLowerLatin (c : N) : bool := (97 <=? c) && (c <=? 122).
Definition isUpperLatin (c : N) : bool := (65 <=? c) && (c <=? 90).
Definition asciiLower (c : N) : N := if isUpperLatin c then c + 32 else c.
Definition asciiUpper (c : N) : N := if isLowerLatin c then c - 32 else c.

(** ** Values

    The values that [JSON.parse] yields, and [undefined].  A Number is
    modelled exactly where it is an integer written without fraction and
    exponent, of absolute value at most 2^53 ([VNum]); any other number
    literal is kept as its lexeme ([VReal]) and its arithmetic is left to the
    host.  An object is the list of its own properties in property order. *)
Inductive value :=
| VUndef
| VNull
| VBool (b : bool)
| VNum (z : Z)
| VReal (lexeme : jsstring)
| VStr (s : jsstring)
| VArr (elems : list value)
| VObj (props : list (jsstring * value)).

(** The part of the ECMAScript host that the repository relies on and does
    not define.
    - [unicodeLower], [unicodeUpper]: the Unicode default case conversions,
      consulted only for strings with a code unit outside ASCII;
    - [localeCompare]: [String.prototype.localeCompare] in the host's locale;
    - [realTruthy], [realStringify]: [ToBoolean] and [JSON.stringify] of the
      Number that a [VReal] lexeme denotes;
    - [coercedExpired now ts]: whether [now - ts > TTL], for a [ts] that is a
      string, an array or a [VReal] ([None] when [ToNumber] throws);
    - [sortMixed]: the outcome of [Array.prototype.sort] with the comparator
      [(a,b) => a.name.localeCompare(b.name)] on two or more elements some,
      but not all, of whose names are strings, which depends on the order in
      which the engine compares ([None] when a [TypeError] is thrown). *)
Class Host := {
  unicodeLower : jsstring → jsstring;
  unicodeUpper : jsstring → jsstring;
  localeCompare : jsstring → jsstring → Z;
  realTruthy : jsstring → bool;
  realStringify : jsstring → jsstring;
  coercedExpired : Z → value → option bool;
  sortMixed : list value → option (list value);
}.

Section Normalizers.
Context `{Host}.

(** [s.toLowerCase()] and [s.toUpperCase()]: on an all-ASCII string the
    conversion is the ASCII one, code unit by code unit. *)
Definition toLowerCase (s : jsstring) : jsstring :=
  if forallb isAscii s then List.map asciiLower s else unicodeLower s.
Definition toUpperCase (s : jsstring) : jsstring :=
  if forallb isAscii s then List.map asciiUpper s else unicodeUpper s.

(** [s || ''] for an argument that is a string or absent ([undefined] or
    [null]). *)
Definition orEmpty (s : option jsstring) : jsstring :=
  match s with
  | Some x => x
  | None => []
  end.

(** Truthiness of a string: non-empty. *)
Definition truthyStr (s : jsstring) : bool :=
  match s with
  | [] => false
  | _ :: _ => true
  end.

(** [s.replace(/\s+/g, ' ')]: every maximal run of white space becomes one
    space.  [inRun] tells that the previous code unit was white space, so
    that the run's replacement has been emitted already. *)
Fixpoint collapseSpaces (inRun : bool) (s : jsstring) : jsstring :=
  match s with
  | [] => []
  | c :: r =>
      if isWhiteSpace c
      then (if inRun then collapseSpaces true r else 32 :: collapseSpaces true r)
      else c :: collapseSpaces false r
  end.

(** [const clean = s => (s || '').trim().replace(/\s+/g, ' ');] *)
Definition clean (s : option jsstring) : jsstring :=
  collapseSpaces false (trim (orEmpty s)).

(** [/^[a-z]{3}$/.test(x)] and [/^[A-Z]{3}$/.test(x)] *)
Definition test_lower3 (x : jsstring) : bool :=
  match x with
  | [a; b; c] => isLowerLatin a && isLowerLatin b && isLowerLatin c
  | _ => false
  end.
Definition test_upper3 (x : jsstring) : bool :=
  match x with
  | [a; b; c] => isUpperLatin a && isUpperLatin b && isUpperLatin c
  | _ => false
  end.

(** [const normLang = s => { const x = (s||'').trim().toLowerCase();
      return /^[a-z]{3}$/.test(x) ? x : ''; };] *)
Definition normLang (s : option jsstring) : jsstring :=
  let x := toLowerCase (trim (orEmpty s)) in
  if test_lower3 x then x else [].

(** [const normCountry = s => { const x = (s||'').trim().toUpperCase();
      return /^[A-Z]{3}$/.test(x) ? x : ''; };] *)
Definition normCountry (s : option jsstring) : jsstring :=
  let x := toUpperCase (trim (orEmpty s)) in
  if test_upper3 x then x else [].

(** [const yyyymmdd = d => (d || '').replace(/-/g, '');] *)
Definition yyyymmdd (d : option jsstring) : jsstring :=
  List.filter (λ c, negb (c =? 45)) (orEmpty d).

(** [Array.prototype.join] on an array of strings. *)
Fixpoint join {A} (sep : list A) (parts : list (list A)) : list A :=
  match parts with
  | [] => []
  | p :: rest =>
      match rest with
      | [] => p
      | _ :: _ => p ++ sep ++ join sep rest
      end
  end.

(** [tokens.push(x)] *)
Definition push {A} (arr : list A) (x : A) : list A := arr ++ [x].

(** The argument of [composeName]: the form fields, each a string or absent,
    and the check box. *)
Record ComposeInput := {
  name : option jsstring;
  lang : option jsstring;
  country : option jsstring;
  event : option jsstring;
  includeDate : bool;
  date : option jsstring;
}.

(** [[normLang(lang), normCountry(country)].filter(Boolean).join('-')] *)
Definition localeToken (l c : option jsstring) : jsstring :=
  join (js "-") (List.filter truthyStr [normLang l; normCountry c]).

(** [function composeName({ name, lang, country, event, includeDate, date })] *)
Definition composeName (i : ComposeInput) : jsstring :=
  let tokens := [] in
  let n := clean (name i) in
  let tokens := if truthyStr n then push tokens n else tokens in
  let loc := localeToken (lang i) (country i) in
  let tokens := if truthyStr loc then push tokens loc else tokens in
  let ev := clean (event i) in
  let tokens := if truthyStr ev then push tokens ev else tokens in
  let dt := if includeDate i then yyyymmdd (date i) else [] in
  let tokens := if truthyStr dt then push tokens dt else tokens in
  join (js " - ") tokens.

(** The composer as the specification words it: the four candidate tokens in
    their fixed order, the empty ones left out, the rest joined. *)
Definition composeName_spec (i : ComposeInput) : jsstring :=
  join (js " - ")
    (List.filter truthyStr
       [clean (name i); localeToken (lang i) (country i); clean (event i);
        if includeDate i then yyyymmdd (date i) else []]).

(** "Exactly three Latin letters" of one case, the letters being the code
    units from [lo] to [hi]. *)
Definition ThreeLetters (lo hi : N) (x : jsstring) : Prop :=
  ∃ a b c, x = [a; b; c] ∧ (lo <= a <= hi) ∧ (lo <= b <= hi) ∧ (lo <= c <= hi).

End Normalizers.

(** ** JSON text

    [JSON.parse] as a lexer (an automaton over code units) followed by a
    push-down recognizer over tokens; both recurse on their input, so the
    parser is total.  [None] is a [SyntaxError]. *)

Definition isDigit (c : N) : bool := (48 <=? c) && (c <=? 57).

Fixpoint span {A} (p : A → bool) (l : list A) : list A * list A :=
  match l with
  | [] => ([], [])
  | x :: r => if p x then (let '(a, b) := span p r in (x :: a, b)) else ([], l)
  end.

(** Decimal digits as code units, through the Standard Library's decimal
    numbers. *)
Fixpoint uintUnits (u : Decimal.uint) : jsstring :=
  match u with
  | Decimal.Nil => []
  | Decimal.D0 r => 48 :: uintUnits r
  | Decimal.D1 r => 49 :: uintUnits r
  | Decimal.D2 r => 50 :: uintUnits r
  | Decimal.D3 r => 51 :: uintUnits r
  | Decimal.D4 r => 52 :: uintUnits r
  | Decimal.D5 r => 53 :: uintUnits r
  | Decimal.D6 r => 54 :: uintUnits r
  | Decimal.D7 r => 55 :: uintUnits r
  | Decimal.D8 r => 56 :: uintUnits r
  | Decimal.D9 r => 57 :: uintUnits r
  end.

Definition digitUint (c : N) (r : Decimal.uint) : Decimal.uint :=
  if c =? 48 then Decimal.D0 r else if c =? 49 then Decimal.D1 r
  else if c =? 50 then Decimal.D2 r else if c =? 51 then Decimal.D3 r
  else if c =? 52 then Decimal.D4 r else if c =? 53 then Decimal.D5 r
  else if c =? 54 then Decimal.D6 r else if c =? 55 then Decimal.D7 r
  else if c =? 56 then Decimal.D8 r else Decimal.D9 r.

Fixpoint unitsUint (s : jsstring) : Decimal.uint :=
  match s with
  | [] => Decimal.Nil
  | c :: r => digitUint c (unitsUint r)
  end.

(** The decimal numeral of a natural number, and the value of a run of
    digits. *)
Definition decimalN (n : N) : jsstring := uintUnits (N.to_uint n).
Definition digitsValue (ds : jsstring) : N := N.of_uint (unitsUint ds).

(** [Number::toString] on an integer of absolute value below 10^21. *)
Definition decimalZ (z : Z) : jsstring :=
  if (z <? 0)%Z then 45 :: decimalN (Z.abs_N z) else decimalN (Z.abs_N z).

(** The integer part of a JSON number: ["0"], or digits without a leading
    zero. *)
Definition validInt (ds : jsstring) : bool :=
  match ds with
  | [] => false
  | [_] => true
  | d :: _ => negb (d =? 48)
  end.

(** What may follow the integer part: an optional fraction [.digits] and an
    optional exponent [e|E][+|-]digits. *)
Definition validExp (s : jsstring) : bool :=
  match s with
  | [] => true
  | c :: r =>
      if (c =? 101) || (c =? 69) then
        let ds := match r with
                  | d :: r' => if (d =? 43) || (d =? 45) then r' else r
                  | [] => r
                  end in
        truthyStr ds && forallb isDigit ds
      else false
  end.
Definition validFracExp (s : jsstring) : bool :=
  match s with
  | c :: r =>
      if c =? 46 then
        let '(f, r') := span isDigit r in truthyStr f && validExp r'
      else validExp s
  | [] => true
  end.

Definition safeInteger (z : Z) : bool :=
  ((- 9007199254740992 <=? z) && (z <=? 9007199254740992))%Z.

(** The value of a number lexeme, [None] when it is not a JSON number. *)
Definition numberValue (lexeme : jsstring) : option value :=
  let '(neg, body) := match lexeme with
                      | c :: r => if c =? 45 then (true, r) else (false, lexeme)
                      | [] => (false, lexeme)
                      end in
  let '(ip, rest) := span isDigit body in
  if validInt ip then
    match rest with
    | [] =>
        let z := if neg then (- Z.of_N (digitsValue ip))%Z
                 else Z.of_N (digitsValue ip) in
        if safeInteger z then Some (VNum z) else Some (VReal lexeme)
    | _ :: _ => if validFracExp rest then Some (VReal lexeme) else None
    end
  else None.

(** The rational number that a number lexeme writes down: the digits of the
    integer part and of the fraction, scaled by the exponent.  The Number
    that [JSON.parse] yields for the lexeme is this rational rounded to the
    nearest double. *)
Definition lexemeValue (lexeme : jsstring) : option Q :=
  let '(neg, body) := match lexeme with
                      | c :: r => if c =? 45 then (true, r) else (false, lexeme)
                      | [] => (false, lexeme)
                      end in
  let '(ip, rest) := span isDigit body in
  if validInt ip && validFracExp rest then
    let '(f, rest') := match rest with
                       | c :: r => if c =? 46 then span isDigit r else ([], rest)
                       | [] => ([], rest)
                       end in
    let e := match rest' with
             | _ :: d :: r' =>
                 if d =? 45 then (- Z.of_N (digitsValue r'))%Z
                 else if d =? 43 then Z.of_N (digitsValue r')
                 else Z.of_N (digitsValue (d :: r'))
             | _ => 0%Z
             end in
    let v := Qmult (inject_Z (Z.of_N (digitsValue (ip ++ f))))
               (Qpower (inject_Z 10) (e - Z.of_nat (length f))) in
    Some (if neg then Qopp v else v)
  else None.

Inductive token :=
| TLBrack | TRBrack | TLBrace | TRBrace | TColon | TComma
| TAtom (v : value).

Inductive lexState :=
| LStart
| LStr (acc : jsstring)
| LEsc (acc : jsstring)
| LHex (acc : jsstring) (todo : nat) (v : N)
| LNum (acc : jsstring)
| LWord (expect : jsstring) (v : value).

Definition isJsonWs (c : N) : bool :=
  (c =? 32) || (c =? 9) || (c =? 10) || (c =? 13).
Definition isNumChar (c : N) : bool :=
  isDigit c || (c =? 45) || (c =? 43) || (c =? 46) || (c =? 101) || (c =? 69).

Definition hexValue (c : N) : option N :=
  if isDigit c then Some (c - 48)
  else if (97 <=? c) && (c <=? 102) then Some (c - 87)
  else if (65 <=? c) && (c <=? 70) then Some (c - 55)
  else None.

(** A code unit read between two tokens. *)
Definition startStep (c : N) : option (list token * lexState) :=
  if isJsonWs c then Some ([], LStart)
  else if c =? 91 then Some ([TLBrack], LStart)
  else if c =? 93 then Some ([TRBrack], LStart)
  else if c =? 123 then Some ([TLBrace], LStart)
  else if c =? 125 then Some ([TRBrace], LStart)
  else if c =? 58 then Some ([TColon], LStart)
  else if c =? 44 then Some ([TComma], LStart)
  else if c =? 34 then Some ([], LStr [])
  else if (c =? 45) || isDigit c then Some ([], LNum [c])
  else if c =? 116 then Some ([], LWord (js "rue") (VBool true))
  else if c =? 102 then Some ([], LWord (js "alse") (VBool false))
  else if c =? 110 then Some ([], LWord (js "ull") VNull)
  else None.

Definition escapeValue (c : N) : option N :=
  if c =? 34 then Some 34 else if c =? 92 then Some 92
  else if c =? 47 then Some 47 else if c =? 98 then Some 8
  else if c =? 102 then Some 12 else if c =? 110 then Some 10
  else if c =? 114 then Some 13 else if c =? 116 then Some 9
  else None.

Definition lexStep (st : lexState) (c : N) : option (list token * lexState) :=
  match st with
  | LStart => startStep c
  | LStr acc =>
      if c =? 34 then Some ([TAtom (VStr acc)], LStart)
      else if c =? 92 then Some ([], LEsc acc)
      else if c <? 32 then None
      else Some ([], LStr (acc ++ [c]))
  | LEsc acc =>
      if c =? 117 then Some ([], LHex acc 4 0)
      else match escapeValue c with
           | Some u => Some ([], LStr (acc ++ [u]))
           | None => None
           end
  | LHex acc todo v =>
      match hexValue c with
      | Some d =>
          match todo with
          | S O | O => Some ([], LStr (acc ++ [v * 16 + d]))
          | S todo' => Some ([], LHex acc todo' (v * 16 + d))
          end
      | None => None
      end
  | LNum acc =>
      if isNumChar c then Some ([], LNum (acc ++ [c]))
      else match numberValue acc, startStep c with
           | Some n, Some (ts, st') => Some (TAtom n :: ts, st')
           | _, _ => None
           end
  | LWord expect v =>
      match expect with
      | e :: rest =>
          if c =? e then
            match rest with
            | [] => Some ([TAtom v], LStart)
            | _ :: _ => Some ([], LWord rest v)
            end
          else None
      | [] => None
      end
  end.

Definition lexEnd (st : lexState) : option (list token) :=
  match st with
  | LStart => Some []
  | LNum acc =>
      match numberValue acc with
      | Some n => Some [TAtom n]
      | None => None
      end
  | _ => None
  end.

Fixpoint lexFrom (st : lexState) (s : jsstring) : option (list token) :=
  match s with
  | [] => lexEnd st
  | c :: r =>
      match lexStep st c with
      | Some (ts, st') =>
          match lexFrom st' r with
          | Some rest => Some (ts ++ rest)
          | None => None
          end
      | None => None
      end
  end.

(** Property keys that are array indices come first in an object's property
    order, ascending; the others follow in order of creation. *)
Definition isArrayIndex (k : jsstring) : bool :=
  forallb isDigit k && validInt k && (digitsValue k <=? 4294967294).

Definition hasKey (k : jsstring) (l : list (jsstring * value)) : bool :=
  existsb (λ p, bool_decide (p.1 = k)) l.

Fixpoint replaceKey (k : jsstring) (v : value) (l : list (jsstring * value))
  : list (jsstring * value) :=
  match l with
  | [] => []
  | (k', v') :: r =>
      if bool_decide (k' = k) then (k, v) :: r else (k', v') :: replaceKey k v r
  end.

Fixpoint insertIndex (k : jsstring) (v : value) (l : list (jsstring * value))
  : list (jsstring * value) :=
  match l with
  | [] => [(k, v)]
  | (k', v') :: r =>
      if isArrayIndex k' && (digitsValue k' <? digitsValue k)
      then (k', v') :: insertIndex k v r
      else (k, v) :: l
  end.

(** [CreateDataProperty] on an ordinary object, as [JSON.parse] performs it
    for each member: a repeated key keeps its place and takes the new value. *)
Definition objSet (k : jsstring) (v : value) (l : list (jsstring * value))
  : list (jsstring * value) :=
  if hasKey k l then replaceKey k v l
  else if isArrayIndex k then insertIndex k v l
  else l ++ [(k, v)].

Inductive frame :=
| FArr (done : list value)
| FObj (done : list (jsstring * value)) (key : jsstring).

Inductive pstate :=
| SValue (stk : list frame)
| SArrOpen (stk : list frame)
| SArrNext (done : list value) (stk : list frame)
| SObjOpen (stk : list frame)
| SObjKey (done : list (jsstring * value)) (stk : list frame)
| SColon (done : list (jsstring * value)) (key : jsstring) (stk : list frame)
| SObjNext (done : list (jsstring * value)) (stk : list frame)
| SDone (v : value).

(** A value is complete: it is the result, or it goes into the container on
    top of the stack. *)
Definition deliver (v : value) (stk : list frame) : pstate :=
  match stk with
  | [] => SDone v
  | FArr done :: stk' => SArrNext (done ++ [v]) stk'
  | FObj done key :: stk' => SObjNext (objSet key v done) stk'
  end.

Definition valueStep (stk : list frame) (t : token) : option pstate :=
  match t with
  | TAtom v => Some (deliver v stk)
  | TLBrack => Some (SArrOpen stk)
  | TLBrace => Some (SObjOpen stk)
  | _ => None
  end.

Definition parseStep (st : pstate) (t : token) : option pstate :=
  match st with
  | SValue stk => valueStep stk t
  | SArrOpen stk =>
      match t with
      | TRBrack => Some (deliver (VArr []) stk)
      | _ => valueStep (FArr [] :: stk) t
      end
  | SArrNext done stk =>
      match t with
      | TComma => Some (SValue (FArr done :: stk))
      | TRBrack => Some (deliver (VArr done) stk)
      | _ => None
      end
  | SObjOpen stk =>
      match t with
      | TRBrace => Some (deliver (VObj []) stk)
      | TAtom (VStr k) => Some (SColon [] k stk)
      | _ => None
      end
  | SObjKey done stk =>
      match t with
      | TAtom (VStr k) => Some (SColon done k stk)
      | _ => None
      end
  | SColon done k stk =>
      match t with
      | TColon => Some (SValue (FObj done k :: stk))
      | _ => None
      end
  | SObjNext done stk =>
      match t with
      | TComma => Some (SObjKey done stk)
      | TRBrace => Some (deliver (VObj done) stk)
      | _ => None
      end
  | SDone _ => None
  end.

Fixpoint parseFrom (st : pstate) (ts : list token) : option value :=
  match ts with
  | [] => match st with SDone v => Some v | _ => None end
  | t :: r =>
      match parseStep st t with
      | Some st' => parseFrom st' r
      | None => None
      end
  end.

(** [JSON.parse(text)] *)
Definition JSON_parse (text : jsstring) : option value :=
  match lexFrom LStart text with
  | Some ts => parseFrom (SValue []) ts
  | None => None
  end.

(** ** JSON.stringify *)

Definition isHighSurrogate (c : N) : bool := (55296 <=? c) && (c <=? 56319).
Definition isLowSurrogate (c : N) : bool := (56320 <=? c) && (c <=? 57343).

Definition hexDigit (d : N) : N := if d <? 10 then 48 + d else 87 + d.

(** The escape [\uXXXX] with lower-case digits. *)
Definition unicodeEscape (c : N) : jsstring :=
  [92; 117; hexDigit (c / 4096 mod 16); hexDigit (c / 256 mod 16);
   hexDigit (c / 16 mod 16); hexDigit (c mod 16)].

(** One code unit that is not the first half of a surrogate pair. *)
Definition quoteUnit (c : N) : jsstring :=
  if c =? 8 then [92; 98] else if c =? 9 then [92; 116]
  else if c =? 10 then [92; 110] else if c =? 12 then [92; 102]
  else if c =? 13 then [92; 114] else if c =? 34 then [92; 34]
  else if c =? 92 then [92; 92]
  else if (c <? 32) || isHighSurrogate c || isLowSurrogate c then unicodeEscape c
  else [c].

Fixpoint quoteUnits (s : jsstring) : jsstring :=
  match s with
  | [] => []
  | c :: r =>
      if isHighSurrogate c then
        match r with
        | d :: r' =>
            if isLowSurrogate d then c :: d :: quoteUnits r'
            else unicodeEscape c ++ quoteUnits r
        | [] => unicodeEscape c
        end
      else quoteUnit c ++ quoteUnits r
  end.

(** [QuoteJSONString] *)
Definition quoteJSON (s : jsstring) : jsstring := 34 :: quoteUnits s ++ [34].

Section Stringify.
Context `{Host}.

(** [SerializeJSONProperty] without indentation: [None] is [undefined]. *)
Fixpoint stringify (v : value) : option jsstring :=
  match v with
  | VUndef => None
  | VNull => Some (js "null")
  | VBool b => Some (if b then js "true" else js "false")
  | VNum z => Some (decimalZ z)
  | VReal lexeme => Some (realStringify lexeme)
  | VStr s => Some (quoteJSON s)
  | VArr l =>
      Some (js "[" ++
            join (js ",")
              (List.map (λ x, match stringify x with
                              | Some t => t
                              | None => js "null"
                              end) l)
            ++ js "]")
  | VObj l =>
      Some (js "{" ++
            join (js ",")
              (List.concat
                 (List.map (λ kx, match stringify (snd kx) with
                                  | Some t => [quoteJSON (fst kx) ++ js ":" ++ t]
                                  | None => []
                                  end) l))
            ++ js "}")
  end.

(** [JSON.stringify(v)] converted to a string, as [localStorage.setItem]
    converts its argument. *)
Definition JSON_stringify (v : value) : jsstring :=
  match stringify v with
  | Some t => t
  | None => js "undefined"
  end.

End Stringify.

(** ** Values as the source uses them *)

Section Values.
Context `{Host}.

(** [ToBoolean] *)
Definition truthy (v : value) : bool :=
  match v with
  | VUndef | VNull => false
  | VBool b => b
  | VNum z => negb (z =? 0)%Z
  | VReal lexeme => realTruthy lexeme
  | VStr s => truthyStr s
  | VArr _ | VObj _ => true
  end.

Fixpoint lookupKey (k : jsstring) (l : list (jsstring * value)) : value :=
  match l with
  | [] => VUndef
  | (k', v) :: r => if bool_decide (k' = k) then v else lookupKey k r
  end.

(** [x.k] and [x?.k] for the property names the source reads ([ts], [data],
    [cca3], [name], [common], [languages]): none of them is a property of an
    array, a string, a number or a boolean, nor inherited by an object; on
    [null] and [undefined] only [?.] is used. *)
Definition getProp (x : value) (k : jsstring) : value :=
  match x with
  | VObj l => lookupKey k l
  | _ => VUndef
  end.

End Values.

(** ** The world: local storage, clock and network *)

(** What a request comes back with: the parsed rows ([None] when [fetch] or
    [res.json()] rejects) and the time that has passed meanwhile. *)
Record Reply := {
  body : option value;
  elapsed : Z;
}.

Record World := {
  storage : gmap (list N) (list N);
  clock : Z;
  requests : list jsstring;
  remote : jsstring → Reply;
}.

(** The result of a computation: a value, or an exception. *)
Inductive Result (A : Type) :=
| Ok (a : A)
| Throw.
Arguments Ok {A} a.
Arguments Throw {A}.

Definition M (A : Type) : Type := World → Result A * World.

Definition ret {A} (a : A) : M A := λ w, (Ok a, w).
Definition throw {A} : M A := λ w, (Throw, w).
Definition bind {A B} (m : M A) (k : A → M B) : M B :=
  λ w, match m w with
       | (Ok a, w') => k a w'
       | (Throw, w') => (Throw, w')
       end.
(** [try { body } catch { handler }] *)
Definition tryCatch {A} (body handler : M A) : M A :=
  λ w, match body w with
       | (Ok a, w') => (Ok a, w')
       | (Throw, w') => handler w'
       end.
Definition orThrow {A} (o : option A) : M A :=
  match o with
  | Some a => ret a
  | None => throw
  end.

Notation "'let!' x ':=' m 'in' k" := (bind m (λ x, k))
  (at level 10, x name, m at level 100, k at level 200).
Notation "'run!' m 'in' k" := (bind m (λ _, k))
  (at level 10, m at level 100, k at level 200).

(** [localStorage.getItem(key)], [localStorage.setItem(key, text)],
    [Date.now()] *)
Definition getItem (key : jsstring) : M (option jsstring) :=
  λ w, (Ok (storage w !! key), w).
Definition setItem (key text : jsstring) : M unit :=
  λ w, (Ok tt, {| storage := <[key := text]> (storage w); clock := clock w;
                  requests := requests w; remote := remote w |}).
Definition Date_now : M Z := λ w, (Ok (clock w), w).

(** [await (await fetch(url)).json()] *)
Definition fetchJson (url : jsstring) : M value :=
  λ w, let r := remote w url in
       let w' := {| storage := storage w; clock := (clock w + elapsed r)%Z;
                    requests := requests w ++ [url]; remote := remote w |} in
       match body r with
       | Some rows => (Ok rows, w')
       | None => (Throw, w')
       end.

(** ** Cache helpers (app.js lines 28-44) *)

(** [const TTL = 7 * 24 * 60 * 60 * 1000;] *)
Definition TTL : Z := 7 * 24 * 60 * 60 * 1000.

Section Cache.
Context `{Host}.

(** [Date.now() - ts > TTL]: [ToNumber] gives NaN on [undefined] and on an
    object without a [toString] of its own (NaN compares false), 0 on
    [null], 0 or 1 on a boolean; it throws on an object whose own [toString]
    hides the inherited one, which in JSON data is never callable. *)
Definition expired (now : Z) (ts : value) : option bool :=
  match ts with
  | VUndef => Some false
  | VNull => Some (now - 0 >? TTL)%Z
  | VBool b => Some (now - (if b then 1 else 0) >? TTL)%Z
  | VNum z => Some (now - z >? TTL)%Z
  | VObj l => if hasKey (js "toString") l then None else Some false
  | VReal _ | VStr _ | VArr _ => coercedExpired now ts
  end.

(** [function getCache(key)] *)
Definition getCache (key : jsstring) : M value :=
  tryCatch
    (let! item := getItem key in
     let! x := orThrow (JSON_parse (match item with
                                    | Some text => text
                                    | None => js "null"
                                    end)) in
     if negb (truthy x) then ret VNull
     else
       let! now := Date_now in
       let! late := orThrow (expired now (getProp x (js "ts"))) in
       if late then ret VNull else ret (getProp x (js "data")))
    (ret VNull).

(** [function setCache(key, data)] *)
Definition setCache (key : jsstring) (data : value) : M unit :=
  let! now := Date_now in
  setItem key (JSON_stringify (VObj [(js "ts", VNum now); (js "data", data)])).

End Cache.

(** ** Reference entries and the fallback stubs (app.js lines 1-26) *)

(** The object [{ code, name }]. *)
Definition entry (code : jsstring) (name : value) : value :=
  VObj [(js "code", VStr code); (js "name", name)].

(** A [ReferenceEntry] of the specification: both fields are strings. *)
Module Entry.
Record t := { code : jsstring; name : jsstring }.
End Entry.

Definition entryValue (e : Entry.t) : value :=
  entry (Entry.code e) (VStr (Entry.name e)).
Definition entriesValue (l : list Entry.t) : value :=
  VArr (List.map entryValue l).

Definition languagesStub : value :=
  VArr [
    entry (js "eng") (VStr (js "English"));
    entry (js "fra") (VStr (js "French"));
    entry (js "spa") (VStr (js "Spanish"));
    entry (js "deu") (VStr (js "German"));
    entry (js "por") (VStr (js "Portuguese"));
    entry (js "ita") (VStr (js "Italian"));
    entry (js "zho") (VStr (js "Chinese"));
    entry (js "jpn") (VStr (js "Japanese"));
    entry (js "rus") (VStr (js "Russian"));
    entry (js "ara") (VStr (js "Arabic"))
  ].

Definition countriesStub : value :=
  VArr [
    entry (js "USA") (VStr (js "United States"));
    entry (js "FRA") (VStr (js "France"));
    entry (js "GBR") (VStr (js "United Kingdom"));
    entry (js "DEU") (VStr (js "Germany"));
    entry (js "ESP") (VStr (js "Spain"));
    entry (js "ITA") (VStr (js "Italy"));
    entry (js "BRA") (VStr (js "Brazil"));
    entry (js "CAN") (VStr (js "Canada"));
    entry (js "JPN") (VStr (js "Japan"));
    entry (js "AUS") (VStr (js "Australia"))
  ].

(** ** Fetchers (app.js lines 46-89) *)

Fixpoint mapThrow {A B} (f : A → option B) (l : list A) : option (list B) :=
  match l with
  | [] => Some []
  | x :: r =>
      match f x, mapThrow f r with
      | Some y, Some ys => Some (y :: ys)
      | _, _ => None
      end
  end.

(** A stable sort by insertion.  With a consistent comparator the result of
    [Array.prototype.sort], which is stable, is determined: it is this one. *)
Fixpoint insertSorted {A} (cmp : A → A → Z) (x : A) (l : list A) : list A :=
  match l with
  | [] => [x]
  | y :: r => if (cmp x y <=? 0)%Z then x :: l else y :: insertSorted cmp x r
  end.
Definition stableSort {A} (cmp : A → A → Z) (l : list A) : list A :=
  List.fold_right (insertSorted cmp) [] l.

(** The code points of a string, as a [for ... of] loop visits them. *)
Fixpoint codePoints (s : jsstring) : list jsstring :=
  match s with
  | [] => []
  | c :: r =>
      if isHighSurrogate c then
        match r with
        | d :: r' =>
            if isLowSurrogate d then [c; d] :: codePoints r'
            else [c] :: codePoints r
        | [] => [[c]]
        end
      else [c] :: codePoints r
  end.

Fixpoint indexed {A B} (f : N → A → B) (i : N) (l : list A) : list B :=
  match l with
  | [] => []
  | x :: r => f i x :: indexed f (N.succ i) r
  end.

Section Fetchers.
Context `{Host}.

Definition isStr (v : value) : bool :=
  match v with
  | VStr _ => true
  | _ => false
  end.
Definition strOf (v : value) : jsstring :=
  match v with
  | VStr s => s
  | _ => []
  end.
Definition nameOf (e : value) : value := getProp e (js "name").

(** [(a,b) => a.name.localeCompare(b.name)] on entries whose names are
    strings. *)
Definition compareNames (a b : value) : Z :=
  localeCompare (strOf (nameOf a)) (strOf (nameOf b)).

(** [.sort((a,b) => a.name.localeCompare(b.name))]: no comparison is made on
    fewer than two elements; [None] is a [TypeError] from the comparator,
    which the first comparison raises when no name is a string, since only
    strings have a [localeCompare] method. *)
Definition sortByName (l : list value) : option (list value) :=
  match l with
  | [] | [_] => Some l
  | _ :: _ :: _ =>
      if forallb (λ e, isStr (nameOf e)) l
      then Some (stableSort compareNames l)
      else if forallb (λ e, negb (isStr (nameOf e))) l then None
      else sortMixed l
  end.

(** [r => r?.cca3 && r?.name?.common], as [filter] reads it. *)
Definition keepCountry (r : value) : bool :=
  truthy (getProp r (js "cca3"))
  && truthy (getProp (getProp r (js "name")) (js "common")).

(** [r => ({ code: r.cca3.toUpperCase(), name: r.name.common })]: [None] is
    the [TypeError] raised when [cca3] is not a string. *)
Definition countryEntry (r : value) : option value :=
  match getProp r (js "cca3") with
  | VStr s =>
      Some (entry (toUpperCase s) (getProp (getProp r (js "name")) (js "common")))
  | _ => None
  end.

Definition countriesUrl : jsstring :=
  js "https://restcountries.com/v3.1/all?fields=name,cca3".
Definition languagesUrl : jsstring :=
  js "https://restcountries.com/v3.1/all?fields=languages".

(** The rows of the countries transform: [rows.filter] exists on arrays
    only. *)
Definition asArray (rows : value) : option (list value) :=
  match rows with
  | VArr l => Some l
  | _ => None
  end.

(** The countries transform, lines 54-57. *)
Definition countriesData (rows : value) : option (list value) :=
  match asArray rows with
  | Some rs =>
      match mapThrow countryEntry (List.filter keepCountry rs) with
      | Some mapped => sortByName mapped
      | None => None
      end
  | None => None
  end.

(** [async function fetchCountries()] *)
Definition fetchCountries : M value :=
  let! cached := getCache (js "countries.v1") in
  if truthy cached then ret cached
  else
    tryCatch
      (let! rows := fetchJson countriesUrl in
       let! data := orThrow (countriesData rows) in
       run! setCache (js "countries.v1") (VArr data) in
       ret (VArr data))
      (ret countriesStub).

(** [for (const r of rows)]: arrays and strings are iterable, the other JSON
    values are not. *)
Definition iterate (rows : value) : option (list value) :=
  match rows with
  | VArr l => Some l
  | VStr s => Some (List.map VStr (codePoints s))
  | _ => None
  end.

(** [Object.entries(langs)] *)
Definition entries (o : value) : list (jsstring * value) :=
  match o with
  | VObj l => l
  | VArr l => indexed (λ i x, (decimalN i, x)) 0 l
  | VStr s => indexed (λ i c, (decimalN i, VStr [c])) 0 s
  | _ => []
  end.

(** The body of the inner loop, lines 77-79, on the [Map] as the list of its
    entries in insertion order. *)
Definition addLanguage (map : list (jsstring * value)) (kv : jsstring * value)
  : list (jsstring * value) :=
  let c := toLowerCase (orEmpty (Some (fst kv))) in
  if negb (test_lower3 c) then map
  else if negb (hasKey c map) then map ++ [(c, snd kv)]
  else map.

(** The body of the outer loop, lines 75-80. *)
Definition addRow (map : list (jsstring * value)) (r : value)
  : list (jsstring * value) :=
  let l := getProp r (js "languages") in
  let langs := if truthy l then l else VObj [] in
  List.fold_left addLanguage (entries langs) map.

(** The languages transform, lines 73-83. *)
Definition languagesData (rows : value) : option (list value) :=
  match iterate rows with
  | Some rs =>
      let map := List.fold_left addRow rs [] in
      sortByName (List.map (λ cn, entry (fst cn) (snd cn)) map)
  | None => None
  end.

(** [async function fetchLanguages()] *)
Definition fetchLanguages : M value :=
  let! cached := getCache (js "languages.v1") in
  if truthy cached then ret cached
  else
    tryCatch
      (let! rows := fetchJson languagesUrl in
       let! data := orThrow (languagesData rows) in
       run! setCache (js "languages.v1") (VArr data) in
       ret (VArr data))
      (ret languagesStub).

End Fetchers.

(** ** A host for closed examples

    Code-unit order for [localeCompare], no case conversion outside ASCII;
    a timestamp written with a fraction or an exponent is compared as the
    rational it writes down; the other host-only corners are given fixed
    answers. *)
Fixpoint compareUnits (a b : jsstring) : Z :=
  match a, b with
  | [], [] => 0
  | [], _ :: _ => -1
  | _ :: _, [] => 1
  | x :: a', y :: b' =>
      match N.compare x y with
      | Lt => -1
      | Gt => 1
      | Eq => compareUnits a' b'
      end
  end.

Definition plainHost : Host := {|
  unicodeLower := λ s, s;
  unicodeUpper := λ s, s;
  localeCompare := compareUnits;
  realTruthy := λ _, true;
  realStringify := λ lexeme, lexeme;
  coercedExpired := λ now ts,
    match ts with
    | VReal lexeme =>
        match lexemeValue lexeme with
        | Some q => Some (negb (Qle_bool (Qminus (inject_Z now) q) (inject_Z TTL)))
        | None => Some false
        end
    | _ => Some false
    end;
  sortMixed := λ _, None;
|}.

(** [localeCompare] is a consistent comparison function in the sense of
    ECMA-262 (the standard requires it of every host): with [a =CF b] for
    [localeCompare a b = 0], [a <CF b] for [< 0] and [a >CF b] for [> 0],
    [=CF] is an equivalence and [<CF], [>CF] are transitive. *)
Class ConsistentCompare `{Host} : Prop := {
  compare_refl : ∀ a, localeCompare a a = 0%Z;
  compare_sym : ∀ a b, localeCompare a b = 0%Z → localeCompare b a = 0%Z;
  compare_trans_eq : ∀ a b c,
    localeCompare a b = 0%Z → localeCompare b c = 0%Z → localeCompare a c = 0%Z;
  compare_trans_lt : ∀ a b c,
    (localeCompare a b < 0)%Z → (localeCompare b c < 0)%Z → (localeCompare a c < 0)%Z;
  compare_trans_gt : ∀ a b c,
    (localeCompare a b > 0)%Z → (localeCompare b c > 0)%Z → (localeCompare a c > 0)%Z;
}.


(** ** Typed views and worlds for closed examples *)

(** A value that is a [ReferenceEntry]: an object whose [code] and [name]
    are strings; and a list of them. *)
Definition isEntry (e : value) : bool :=
  match e with
  | VObj _ => isStr (getProp e (js "code")) && isStr (getProp e (js "name"))
  | _ => false
  end.
Definition isEntryList (v : value) : bool :=
  match v with
  | VArr l => forallb isEntry l
  | _ => false
  end.

(** A network on which every request fails. *)
Definition offline : jsstring → Reply := λ _, {| body := None; elapsed := 0 |}.

(** A network that answers every request with [rows] after [ms]
    milliseconds. *)
Definition answering (rows : value) (ms : Z) : jsstring → Reply :=
  λ _, {| body := Some rows; elapsed := ms |}.

(** A world with the given local storage at 2023-11-14T22:13:20Z. *)
Definition worldWith (store : gmap (list N) (list N)) (net : jsstring → Reply)
  : World :=
  {| storage := store; clock := 1700000000000; requests := []; remote := net |}.

(** Rows as the remote source sends them, for closed examples. *)
Definition countryRow (cca3 common : jsstring) : value :=
  VObj [(js "name", VObj [(js "common", VStr common)]); (js "cca3", VStr cca3)].
Definition languageRow (langs : list (jsstring * jsstring)) : value :=
  VObj [(js "languages", VObj (List.map (λ cn, (fst cn, VStr (snd cn))) langs))].

(** The same world at another time. *)
Definition atTime (t : Z) (w : World) : World :=
  {| storage := storage w; clock := t; requests := requests w; remote := remote w |}.

(** The world once the response to a request for [url] has arrived. *)
Definition afterFetch (url : jsstring) (w : World) : World :=
  {| storage := storage w; clock := (clock w + elapsed (remote w url))%Z;
     requests := requests w ++ [url]; remote := remote w |}.

Section Transforms.
Context `{Host}.

(** "Ascending by name under locale-aware comparison". *)
Definition nameLe (a b : value) : Prop := (compareNames a b <= 0)%Z.

(** The same on entries whose names are strings, in terms of the host's
    [localeCompare] alone. *)
Definition namesAscend (a b : value) : Prop :=
  ∃ na nb, getProp a (js "name") = VStr na ∧ getProp b (js "name") = VStr nb
           ∧ (localeCompare na nb <= 0)%Z.

(** The three-tier policy of both fetchers: cache, then remote, then stub. *)
Definition resolve (key url : jsstring) (transform : value → option (list value))
  (stub : value) : M value :=
  let! cached := getCache key in
  if truthy cached then ret cached
  else
    tryCatch
      (let! rows := fetchJson url in
       let! data := orThrow (transform rows) in
       run! setCache key (VArr data) in
       ret (VArr data))
      (ret stub).

(** The countries transform as the specification words it: the rows with a
    country code and a common name, each mapped to its entry. *)
Definition countryRows (rs : list value) : list value :=
  List.map (λ r, entry (toUpperCase (strOf (getProp r (js "cca3"))))
                   (getProp (getProp r (js "name")) (js "common")))
    (List.filter keepCountry rs).

(** The language map of a row, [r?.languages || {}]. *)
Definition langsOf (r : value) : value :=
  if truthy (getProp r (js "languages")) then getProp r (js "languages")
  else VObj [].

(** Every code-to-name pair of every row, in the order of the loops; the
    accepted ones with their codes in lower case; and the first name met
    for a code. *)
Definition allPairs (rs : list value) : list (jsstring * value) :=
  List.flat_map (λ r, entries (langsOf r)) rs.
Definition acceptedPairs (ps : list (jsstring * value)) : list (jsstring * value) :=
  List.map (λ kv, (toLowerCase (fst kv), snd kv))
    (List.filter (λ kv, test_lower3 (toLowerCase (fst kv))) ps).
Definition firstName (c : jsstring) (ps : list (jsstring * value)) : option value :=
  match List.find (λ kv, bool_decide (fst kv = c)) ps with
  | Some kv => Some (snd kv)
  | None => None
  end.

(** [map.has(c) || map.set(c, name)] on an accepted pair. *)
Definition addAccepted (map : list (jsstring * value)) (cn : jsstring * value)
  : list (jsstring * value) :=
  if hasKey (fst cn) map then map else map ++ [cn].

(** [([code, name]) => ({ code, name })] *)
Definition pairEntry (cn : jsstring * value) : value := entry (fst cn) (snd cn).

End Transforms.

(** ** Auxiliary definitions for the round trip through JSON text *)

(** The lexer run over a piece of text, without the end-of-input check. *)
Fixpoint lexRun (st : lexState) (s : jsstring) : option (list token * lexState) :=
  match s with
  | [] => Some ([], st)
  | c :: r =>
      match lexStep st c with
      | Some (ts, st') =>
          match lexRun st' r with
          | Some (ts', st'') => Some (ts ++ ts', st'')
          | None => None
          end
      | None => None
      end
  end.

(** The tokens of a value's text. *)
Fixpoint toks (v : value) : list token :=
  match v with
  | VArr l => TLBrack :: join [TComma] (List.map toks l) ++ [TRBrack]
  | VObj l =>
      TLBrace ::
      join [TComma]
        (List.map (λ kx, TAtom (VStr (fst kx)) :: TColon :: toks (snd kx)) l)
      ++ [TRBrace]
  | _ => [TAtom v]
  end.

(** Keys that [JSON.parse] appends in the order of the text: no array index
    and no repetition among them. *)
Fixpoint plainKeys (ks : list jsstring) : bool :=
  match ks with
  | [] => true
  | k :: r =>
      negb (isArrayIndex k) && negb (existsb (λ k', bool_decide (k' = k)) r)
      && plainKeys r
  end.

(** The values for which [JSON.stringify] followed by [JSON.parse] is shown
    to be the identity: no [undefined], numbers that are safe integers,
    objects with [plainKeys]. *)
Fixpoint plainJSON (v : value) : bool :=
  match v with
  | VUndef | VReal _ => false
  | VNull | VBool _ | VStr _ => true
  | VNum z => safeInteger z
  | VArr l => forallb plainJSON l
  | VObj l =>
      forallb (λ kx, plainJSON (snd kx)) l && plainKeys (List.map fst l)
  end.

(** What may follow a number in a text for the number to end there. *)
Definition delimited (rest : jsstring) : Prop :=
  match rest with
  | [] => True
  | c :: _ => isNumChar c = false
  end.

(** A text [t] lexes to the tokens [ts] whatever follows it ([LexesAny]), or
    provided that what follows ends a number ([LexesTo]). *)
Definition LexesAny (t : jsstring) (ts : list token) : Prop :=
  ∀ rest, lexFrom LStart (t ++ rest) =
          match lexFrom LStart rest with
          | Some r => Some (ts ++ r)
          | None => None
          end.
Definition LexesTo (t : jsstring) (ts : list token) : Prop :=
  ∀ rest, delimited rest →
          lexFrom LStart (t ++ rest) =
          match lexFrom LStart rest with
          | Some r => Some (ts ++ r)
          | None => None
          end.

(** A token that can begin a value. *)
Definition opensValue (t : token) : bool :=
  match t with
  | TAtom _ | TLBrack | TLBrace => true
  | _ => false
  end.

Section PrintedText.
Context `{Host}.

(** The text of an element of an array or of a member's value. *)
Definition elemText (x : value) : jsstring :=
  match stringify x with
  | Some t => t
  | None => js "null"
  end.

Definition memberText (kx : jsstring * value) : jsstring :=
  quoteJSON (fst kx) ++ js ":" ++ elemText (snd kx).
End PrintedText.

Definition memberToks (kx : jsstring * value) : list token :=
  TAtom (VStr (fst kx)) :: TColon :: toks (snd kx).

(** ** The application state (app.js lines 115-341)

    The object that [Alpine.data] builds.  The six form fields are values,
    since [restoreState] stores in them whatever the saved text holds; the
    datasets are lists of reference entries; the queries, bound to text
    inputs, are strings.  Writes to the console are not modelled. *)

(** [s.startsWith(q)] and [s.includes(q)] *)
Fixpoint startsWith (s q : jsstring) : bool :=
  match q, s with
  | [], _ => true
  | _ :: _, [] => false
  | a :: q', b :: s' => (a =? b) && startsWith s' q'
  end.
Fixpoint includes (s q : jsstring) : bool :=
  startsWith s q
  || match s with
     | [] => false
     | _ :: r => includes r q
     end.

Module App.
Record t := {
  courseName : value;
  langInput : value;
  countryInput : value;
  eventInput : value;
  includeDate : value;
  dateInput : value;
  langs : list Entry.t;
  countries : list Entry.t;
  langOpen : bool;
  langActiveIdx : Z;
  langQuery : jsstring;
  countryOpen : bool;
  countryActiveIdx : Z;
  countryQuery : jsstring;
  copied : bool;
}.

(** Assignments to the fields that the methods below write. *)
Definition setForm (cn li ci ei inc di : value) (st : t) : t :=
  {| courseName := cn; langInput := li; countryInput := ci; eventInput := ei;
     includeDate := inc; dateInput := di;
     langs := langs st; countries := countries st;
     langOpen := langOpen st; langActiveIdx := langActiveIdx st;
     langQuery := langQuery st;
     countryOpen := countryOpen st; countryActiveIdx := countryActiveIdx st;
     countryQuery := countryQuery st; copied := copied st |}.
Definition setLang (input : value) (open : bool) (idx : Z) (st : t) : t :=
  {| courseName := courseName st; langInput := input;
     countryInput := countryInput st; eventInput := eventInput st;
     includeDate := includeDate st; dateInput := dateInput st;
     langs := langs st; countries := countries st;
     langOpen := open; langActiveIdx := idx; langQuery := langQuery st;
     countryOpen := countryOpen st; countryActiveIdx := countryActiveIdx st;
     countryQuery := countryQuery st; copied := copied st |}.
Definition setCountry (input : value) (open : bool) (idx : Z) (st : t) : t :=
  {| courseName := courseName st; langInput := langInput st;
     countryInput := input; eventInput := eventInput st;
     includeDate := includeDate st; dateInput := dateInput st;
     langs := langs st; countries := countries st;
     langOpen := langOpen st; langActiveIdx := langActiveIdx st;
     langQuery := langQuery st;
     countryOpen := open; countryActiveIdx := idx;
     countryQuery := countryQuery st; copied := copied st |}.
End App.

(** [String(n).padStart(2, '0')] on an integer [n]. *)
Definition padStart2 (n : Z) : jsstring :=
  match decimalZ n with
  | [] => [48; 48]
  | [c] => [48; c]
  | s => s
  end.

(** The default date of [init], lines 188-192: [year], [month] and [day] are
    [today.getFullYear()], [today.getMonth()] and [today.getDate()]. *)
Definition defaultDate (year month day : Z) : jsstring :=
  decimalZ year ++ js "-" ++ padStart2 (month + 1) ++ js "-" ++ padStart2 day.

Section Application.
Context `{Host}.

(** The argument of [(s || '').trim()] and the like: [None] is the
    [TypeError] raised when a truthy [s] is not a string. *)
Definition textArg (s : value) : option jsstring :=
  if truthy s then
    match s with
    | VStr x => Some x
    | _ => None
    end
  else Some [].

(** [get filteredLangs()] *)
Definition filteredLangs (st : App.t) : list Entry.t :=
  let query := toLowerCase (orEmpty (Some (App.langQuery st))) in
  if negb (truthyStr query) then App.langs st
  else
    List.filter
      (λ lang, includes (Entry.code lang) query
               || includes (toLowerCase (Entry.name lang)) query)
      (App.langs st).

(** [get filteredCountries()] *)
Definition filteredCountries (st : App.t) : list Entry.t :=
  let query := toLowerCase (orEmpty (Some (App.countryQuery st))) in
  if negb (truthyStr query) then App.countries st
  else
    List.filter
      (λ country, includes (toLowerCase (Entry.code country)) query
                  || includes (toLowerCase (Entry.name country)) query)
      (App.countries st).

(** [get preview()]: [composeName] on the form fields, its arguments
    evaluated in the order of the source. *)
Definition preview (st : App.t) : option jsstring :=
  match textArg (App.courseName st), textArg (App.langInput st),
        textArg (App.countryInput st), textArg (App.eventInput st) with
  | Some n, Some l, Some c, Some e =>
      match (if truthy (App.includeDate st) then textArg (App.dateInput st)
             else Some []) with
      | Some d =>
          Some (composeName {| name := Some n; lang := Some l; country := Some c;
                               event := Some e;
                               includeDate := truthy (App.includeDate st);
                               date := Some d |})
      | None => None
      end
  | _, _, _, _ => None
  end.

(** [get showAddLanguageHint()] *)
Definition showAddLanguageHint (st : App.t) : option bool :=
  match textArg (App.langInput st) with
  | Some l =>
      if negb (truthyStr (normLang (Some l))) then
        match App.courseName st with
        | VStr s => Some (truthyStr (trim s))
        | _ => None
        end
      else Some false
  | None => None
  end.

(** [saveState()] *)
Definition saveState (st : App.t) : M unit :=
  let state := VObj [(js "courseName", App.courseName st);
                     (js "langInput", App.langInput st);
                     (js "countryInput", App.countryInput st);
                     (js "eventInput", App.eventInput st);
                     (js "includeDate", App.includeDate st);
                     (js "dateInput", App.dateInput st)] in
  setItem (js "folderNameState") (JSON_stringify state).

(** [v || d] *)
Definition orElse (v d : value) : value := if truthy v then v else d.

(** [restoreState()]: none of the names read is a property of a value that
    is not an object. *)
Definition restoreState (st : App.t) : M App.t :=
  tryCatch
    (let! item := getItem (js "folderNameState") in
     let! state := orThrow (JSON_parse (match item with
                                        | Some text => text
                                        | None => js "null"
                                        end)) in
     if negb (truthy state) then ret st
     else
       ret (App.setForm
              (orElse (getProp state (js "courseName")) (VStr []))
              (orElse (getProp state (js "langInput")) (VStr []))
              (orElse (getProp state (js "countryInput")) (VStr []))
              (orElse (getProp state (js "eventInput")) (VStr []))
              (orElse (getProp state (js "includeDate")) (VBool false))
              (orElse (getProp state (js "dateInput")) (VStr []))
              st))
    (ret st).

(** The end of [init], lines 187-193. *)
Definition initDate (year month day : Z) (st : App.t) : App.t :=
  if negb (truthy (App.dateInput st)) then
    App.setForm (App.courseName st) (App.langInput st) (App.countryInput st)
      (App.eventInput st) (App.includeDate st)
      (VStr (defaultDate year month day)) st
  else st.

(** [selectLang(lang)] and [selectCountry(country)] *)
Definition selectLang (lang : Entry.t) (st : App.t) : M App.t :=
  let st' := App.setLang (VStr (Entry.code lang)) false (App.langActiveIdx st) st in
  run! saveState st' in
  ret st'.
Definition selectCountry (country : Entry.t) (st : App.t) : M App.t :=
  let st' := App.setCountry (VStr (Entry.code country)) false
               (App.countryActiveIdx st) st in
  run! saveState st' in
  ret st'.

(** [options[idx]] under the guard [idx >= 0 && options[idx]]; an entry is
    an object, hence truthy. *)
Definition optionAt (options : list Entry.t) (idx : Z) : option Entry.t :=
  if (0 <=? idx)%Z then nth_error options (Z.to_nat idx) else None.

(** [handleLangKeydown(event)] on [event.key]; the boolean tells whether
    [event.preventDefault()] was called. *)
Definition handleLangKeydown (key : jsstring) (st : App.t) : M (App.t * bool) :=
  if negb (App.langOpen st) then
    if bool_decide (key = js "ArrowDown")
    then ret (App.setLang (App.langInput st) true (App.langActiveIdx st) st, true)
    else ret (st, false)
  else
    let options := filteredLangs st in
    if bool_decide (key = js "ArrowDown") then
      ret (App.setLang (App.langInput st) (App.langOpen st)
             (Z.min (App.langActiveIdx st + 1) (Z.of_nat (length options) - 1)) st,
           true)
    else if bool_decide (key = js "ArrowUp") then
      ret (App.setLang (App.langInput st) (App.langOpen st)
             (Z.max (App.langActiveIdx st - 1) 0) st,
           true)
    else if bool_decide (key = js "Enter") then
      match optionAt options (App.langActiveIdx st) with
      | Some lang => let! st' := selectLang lang st in ret (st', true)
      | None => ret (st, true)
      end
    else if bool_decide (key = js "Escape") then
      ret (App.setLang (App.langInput st) false (App.langActiveIdx st) st, true)
    else if bool_decide (key = js "Tab") then
      let! st' := match optionAt options (App.langActiveIdx st) with
                  | Some lang => selectLang lang st
                  | None => ret st
                  end in
      ret (App.setLang (App.langInput st') false (App.langActiveIdx st') st', false)
    else ret (st, false).

(** [handleCountryKeydown(event)] *)
Definition handleCountryKeydown (key : jsstring) (st : App.t) : M (App.t * bool) :=
  if negb (App.countryOpen st) then
    if bool_decide (key = js "ArrowDown")
    then ret (App.setCountry (App.countryInput st) true (App.countryActiveIdx st) st,
              true)
    else ret (st, false)
  else
    let options := filteredCountries st in
    if bool_decide (key = js "ArrowDown") then
      ret (App.setCountry (App.countryInput st) (App.countryOpen st)
             (Z.min (App.countryActiveIdx st + 1) (Z.of_nat (length options) - 1)) st,
           true)
    else if bool_decide (key = js "ArrowUp") then
      ret (App.setCountry (App.countryInput st) (App.countryOpen st)
             (Z.max (App.countryActiveIdx st - 1) 0) st,
           true)
    else if bool_decide (key = js "Enter") then
      match optionAt options (App.countryActiveIdx st) with
      | Some country => let! st' := selectCountry country st in ret (st', true)
      | None => ret (st, true)
      end
    else if bool_decide (key = js "Escape") then
      ret (App.setCountry (App.countryInput st) false (App.countryActiveIdx st) st,
           true)
    else if bool_decide (key = js "Tab") then
      let! st' := match optionAt options (App.countryActiveIdx st) with
                  | Some country => selectCountry country st
                  | None => ret st
                  end in
      ret (App.setCountry (App.countryInput st') false (App.countryActiveIdx st') st',
           false)
    else ret (st, false).

End Application.

(** The state that [Alpine.data] starts from, lines 118-137. *)
Definition initialApp : App.t :=
  {| App.courseName := VStr []; App.langInput := VStr [];
     App.countryInput := VStr []; App.eventInput := VStr [];
     App.includeDate := VBool false; App.dateInput := VStr [];
     App.langs := []; App.countries := [];
     App.langOpen := false; App.langActiveIdx := -1; App.langQuery := [];
     App.countryOpen := false; App.countryActiveIdx := -1;
     App.countryQuery := []; App.copied := false |}.

(** The form as the page's inputs fill it: five strings and a boolean. *)
Definition isBool (v : value) : bool :=
  match v with
  | VBool _ => true
  | _ => false
  end.
Definition typedForm (st : App.t) : bool :=
  isStr (App.courseName st) && isStr (App.langInput st)
  && isStr (App.countryInput st) && isStr (App.eventInput st)
  && isBool (App.includeDate st) && isStr (App.dateInput st).

(** Two states agree on everything but the six form fields. *)
Definition sameWidgets (a b : App.t) : Prop :=
  App.langs a = App.langs b ∧ App.countries a = App.countries b
  ∧ App.langOpen a = App.langOpen b ∧ App.langActiveIdx a = App.langActiveIdx b
  ∧ App.langQuery a = App.langQuery b
  ∧ App.countryOpen a = App.countryOpen b
  ∧ App.countryActiveIdx a = App.countryActiveIdx b
  ∧ App.countryQuery a = App.countryQuery b ∧ App.copied a = App.copied b.

(** The text that [saveState] stores for a state. *)
Definition savedText `{Host} (st : App.t) : jsstring :=
  JSON_stringify
    (VObj [(js "courseName", App.courseName st);
           (js "langInput", App.langInput st);
           (js "countryInput", App.countryInput st);
           (js "eventInput", App.eventInput st);
           (js "includeDate", App.includeDate st);
           (js "dateInput", App.dateInput st)]).

(** A state for closed examples: a filled form, two languages and two
    countries loaded, the language picker open on its first option. *)
Definition demoApp : App.t :=
  {| App.courseName := VStr (js "Intro to ML"); App.langInput := VStr (js "en");
     App.countryInput := VStr (js "usa"); App.eventInput := VStr [];
     App.includeDate := VBool true; App.dateInput := VStr (js "2024-09-01");
     App.langs := [{| Entry.code := js "eng"; Entry.name := js "English" |};
                   {| Entry.code := js "fra"; Entry.name := js "French" |}];
     App.countries := [{| Entry.code := js "FRA"; Entry.name := js "France" |};
                       {| Entry.code := js "USA"; Entry.name := js "United States" |}];
     App.langOpen := true; App.langActiveIdx := 0; App.langQuery := js "En";
     App.countryOpen := true; App.countryActiveIdx := 1;
     App.countryQuery := js "USA"; App.copied := false |}.

(** The state once the text [q] has been typed into the language box,
    whose value is bound to [langQuery]. *)
Definition withLangQuery (q : jsstring) (st : App.t) : App.t :=
  {| App.courseName := App.courseName st; App.langInput := App.langInput st;
     App.countryInput := App.countryInput st; App.eventInput := App.eventInput st;
     App.includeDate := App.includeDate st; App.dateInput := App.dateInput st;
     App.langs := App.langs st; App.countries := App.countries st;
     App.langOpen := App.langOpen st; App.langActiveIdx := App.langActiveIdx st;
     App.langQuery := q;
     App.countryOpen := App.countryOpen st;
     App.countryActiveIdx := App.countryActiveIdx st;
     App.countryQuery := App.countryQuery st; App.copied := App.copied st |}.

(** Every white space of [s] is a space character that does not follow
    another one (nor the start, when [afterSpace] is set). *)
Fixpoint singleSpaced (afterSpace : bool) (s : jsstring) : bool :=
  match s with
  | [] => true
  | c :: r =>
      if isWhiteSpace c then (c =? 32) && negb afterSpace && singleSpaced true r
      else singleSpaced false r
  end.

(* ================================================================== *)
(** * Properties *)

(** Case analysis on every comparison of code units in the goal. *)
Ltac units :=
  repeat match goal with
    | H : (_ && _) = true |- _ => apply andb_true_iff in H; destruct H
    | H : (_ || _) = false |- _ => apply orb_false_iff in H; destruct H
    | H : (_ || _) = true |- _ => apply orb_true_iff in H; destruct H
    | H : (_ && _) = false |- _ => apply andb_false_iff in H; destruct H
    | H : false = true |- _ => discriminate H
    | H : true = false |- _ => discriminate H
    | H : (_ <=? _) = true |- _ => apply N.leb_le in H
    | H : (_ <? _) = true |- _ => apply N.ltb_lt in H
    | H : (_ =? _) = true |- _ => apply N.eqb_eq in H
    | H : (_ <=? _) = false |- _ => apply N.leb_gt in H
    | H : (_ <? _) = false |- _ => apply N.ltb_ge in H
    | H : (_ =? _) = false |- _ => apply N.eqb_neq in H
    end;
  repeat (match goal with
    | |- context [N.leb ?a ?b] => destruct (N.leb_spec a b)
    | |- context [N.ltb ?a ?b] => destruct (N.ltb_spec a b)
    | |- context [N.eqb ?a ?b] => destruct (N.eqb_spec a b)
    end; try lia; simpl);
  try reflexivity; try lia.

Section NormalizerFacts.
Context `{Host}.

Lemma lower_not_space c : isLowerLatin c = true → isWhiteSpace c = false.
Proof. unfold isLowerLatin, isWhiteSpace. intros Hc. units. Qed.

Lemma upper_not_space c : isUpperLatin c = true → isWhiteSpace c = false.
Proof. unfold isUpperLatin, isWhiteSpace. intros Hc. units. Qed.

Lemma lower_ascii c : isLowerLatin c = true → isAscii c = true.
Proof. unfold isLowerLatin, isAscii. intros Hc. units. Qed.

Lemma upper_ascii c : isUpperLatin c = true → isAscii c = true.
Proof. unfold isUpperLatin, isAscii. intros Hc. units. Qed.

Lemma lower_fixed c : isLowerLatin c = true → asciiLower c = c.
Proof. unfold isLowerLatin, asciiLower, isUpperLatin. intros Hc. units. Qed.

Lemma upper_fixed c : isUpperLatin c = true → asciiUpper c = c.
Proof. unfold isUpperLatin, asciiUpper, isLowerLatin. intros Hc. units. Qed.

(** A code of three lower-case letters is its own normal form. *)
Lemma normLang_code l : test_lower3 l = true → normLang (Some l) = l.
Proof.
  destruct l as [|a [|b [|c [|d r]]]]; try discriminate. simpl. intros Hl.
  apply andb_true_iff in Hl as [Hl Hc]. apply andb_true_iff in Hl as [Ha Hb].
  unfold normLang, trim, trimStart, trimEnd. simpl.
  rewrite (lower_not_space a Ha). simpl. rewrite (lower_not_space c Hc). simpl.
  unfold toLowerCase. simpl.
  rewrite (lower_ascii a Ha), (lower_ascii b Hb), (lower_ascii c Hc). simpl.
  rewrite (lower_fixed a Ha), (lower_fixed b Hb), (lower_fixed c Hc). simpl.
  rewrite Ha, Hb, Hc. reflexivity.
Qed.

Lemma normCountry_code c : test_upper3 c = true → normCountry (Some c) = c.
Proof.
  destruct c as [|x [|y [|z [|d r]]]]; try discriminate. simpl. intros Hl.
  apply andb_true_iff in Hl as [Hl Hz]. apply andb_true_iff in Hl as [Hx Hy].
  unfold normCountry, trim, trimStart, trimEnd. simpl.
  rewrite (upper_not_space x Hx). simpl. rewrite (upper_not_space z Hz). simpl.
  unfold toUpperCase. simpl.
  rewrite (upper_ascii x Hx), (upper_ascii y Hy), (upper_ascii z Hz). simpl.
  rewrite (upper_fixed x Hx), (upper_fixed y Hy), (upper_fixed z Hz). simpl.
  rewrite Hx, Hy, Hz. reflexivity.
Qed.

Lemma composeName_refines i : composeName i = composeName_spec i.
Proof.
  unfold composeName, composeName_spec, push. simpl.
  destruct (truthyStr (clean (name i))), (truthyStr (localeToken (lang i) (country i))),
    (truthyStr (clean (event i))),
    (truthyStr (if includeDate i then yyyymmdd (date i) else [])); reflexivity.
Qed.

Lemma join_contains {A} (sep t : list A) parts :
  In t parts → ∃ pre post, join sep parts = pre ++ t ++ post.
Proof.
  induction parts as [|p rest IH]; [intros []|].
  intros [-> | Hin].
  - exists []. destruct rest; simpl.
    + exists []. rewrite app_nil_r. reflexivity.
    + eexists. reflexivity.
  - destruct (IH Hin) as (pre & post & E). destruct rest as [|q rest']; [destruct Hin|].
    exists (p ++ sep ++ pre), post.
    change (join sep (p :: q :: rest')) with (p ++ sep ++ join sep (q :: rest')).
    rewrite E. rewrite <- !app_assoc. reflexivity.
Qed.

Lemma test_lower3_letters x : test_lower3 x = true ↔ ThreeLetters 97 122 x.
Proof.
  split.
  - destruct x as [|a [|b [|c [|d r]]]]; try discriminate. simpl.
    unfold isLowerLatin. intros Hx. exists a, b, c. units. repeat split; lia.
  - intros (a & b & c & -> & Ha & Hb & Hc). simpl. unfold isLowerLatin. units.
Qed.

Lemma test_upper3_letters x : test_upper3 x = true ↔ ThreeLetters 65 90 x.
Proof.
  split.
  - destruct x as [|a [|b [|c [|d r]]]]; try discriminate. simpl.
    unfold isUpperLatin. intros Hx. exists a, b, c. units. repeat split; lia.
  - intros (a & b & c & -> & Ha & Hb & Hc). simpl. unfold isUpperLatin. units.
Qed.

Lemma localeToken_both l c :
  normLang l ≠ [] → normCountry c ≠ [] →
  localeToken l c = normLang l ++ js "-" ++ normCountry c.
Proof.
  unfold localeToken. intros Hl Hc. simpl.
  destruct (normLang l); [congruence|]. destruct (normCountry c); [congruence|].
  reflexivity.
Qed.

Lemma localeToken_country l c :
  normLang l = [] → localeToken l c = normCountry c.
Proof.
  unfold localeToken. intros ->. simpl. destruct (normCountry c); reflexivity.
Qed.

(** C1: [composeName] joins with [" - "] the non-empty ones among the cleaned
    course name, the locale token, the cleaned event label and, only when
    [includeDate] is set, the compact date, in this order; the locale token
    is the normalized language joined to the normalized country by ["-"];
    when every input is empty the result is the empty string; and the
    scenario of the specification yields
    ["Intro to ML - eng-USA - Fall Cohort - 20240901"]. *)
Theorem composeName_tokens :
  (∀ i, composeName i =
        join (js " - ")
          (List.filter truthyStr
             [clean (name i); localeToken (lang i) (country i); clean (event i);
              if includeDate i then yyyymmdd (date i) else []]))
  ∧ (∀ l c, normLang l ≠ [] → normCountry c ≠ [] →
            localeToken l c = normLang l ++ js "-" ++ normCountry c)
  ∧ (∀ i, orEmpty (name i) = [] → orEmpty (lang i) = [] →
          orEmpty (country i) = [] → orEmpty (event i) = [] →
          orEmpty (date i) = [] → composeName i = [])
  ∧ composeName {| name := Some (js "Intro to ML"); lang := Some (js "ENG");
                   country := Some (js "usa"); event := Some (js "Fall Cohort");
                   includeDate := true; date := Some (js "2024-09-01") |}
    = js "Intro to ML - eng-USA - Fall Cohort - 20240901".
Proof.
  split; [exact composeName_refines|]. split; [exact localeToken_both|].
  split; [|vm_compute; reflexivity].
  intros i Hn Hl Hc He Hd. rewrite composeName_refines.
  unfold composeName_spec, localeToken, clean, normLang, normCountry, yyyymmdd.
  rewrite Hn, Hl, Hc, He, Hd. destruct (includeDate i); reflexivity.
Qed.

(** C2: with a language of three lower-case letters [l] and a country of
    three upper-case letters [c] the composed name contains [l ++ "-" ++ c];
    and when the language normalizes to empty while the country normalizes
    to a valid code, the locale token is that code alone, without a leading
    hyphen. *)
Theorem composeName_locale :
  (∀ l c nm ev inc dt, test_lower3 l = true → test_upper3 c = true →
     ∃ pre post,
       composeName {| name := nm; lang := Some l; country := Some c;
                      event := ev; includeDate := inc; date := dt |}
       = pre ++ (l ++ js "-" ++ c) ++ post)
  ∧ (∀ l c, normLang l = [] → test_upper3 (normCountry c) = true →
       localeToken l c = normCountry c
       ∧ (∀ rest, localeToken l c ≠ 45 :: rest)
       ∧ ∀ nm ev inc dt,
           composeName {| name := nm; lang := l; country := c;
                          event := ev; includeDate := inc; date := dt |}
           = join (js " - ")
               (List.filter truthyStr
                  [clean nm; normCountry c; clean ev;
                   if inc then yyyymmdd dt else []])).
Proof.
  split.
  - intros l c nm ev inc dt Hl Hc. rewrite composeName_refines.
    unfold composeName_spec. cbn [name lang country event includeDate date].
    assert (Hloc : localeToken (Some l) (Some c) = l ++ js "-" ++ c).
    { rewrite localeToken_both; rewrite ?normLang_code, ?normCountry_code by assumption;
        [reflexivity | |];
        intros ->; discriminate. }
    rewrite Hloc. apply join_contains. apply filter_In. split.
    + right. left. reflexivity.
    + destruct l; [discriminate | reflexivity].
  - intros l c Hl Hc. rewrite (localeToken_country l c Hl).
    split; [reflexivity|]. split.
    + intros rest E. rewrite E in Hc. simpl in Hc.
      destruct rest as [|b [|d [|e r]]]; try discriminate.
    + intros nm ev inc dt. rewrite composeName_refines. unfold composeName_spec.
      cbn [name lang country event includeDate date].
      rewrite (localeToken_country l c Hl). reflexivity.
Qed.

(** C3: [normLang] trims and lower-cases its argument (a string, or absent)
    and returns the result exactly when it is three lower-case Latin
    letters, the empty string otherwise; [normCountry] does the same with
    upper case; [normLang "EN"] is the empty string, [normLang "eng" = "eng"] and
    [normLang " ENG " = "eng"]. *)
Theorem normalizers_three_letters :
  (∀ s, (ThreeLetters 97 122 (toLowerCase (trim (orEmpty s))) →
         normLang s = toLowerCase (trim (orEmpty s)))
        ∧ (¬ ThreeLetters 97 122 (toLowerCase (trim (orEmpty s))) →
           normLang s = []))
  ∧ (∀ s, (ThreeLetters 65 90 (toUpperCase (trim (orEmpty s))) →
           normCountry s = toUpperCase (trim (orEmpty s)))
          ∧ (¬ ThreeLetters 65 90 (toUpperCase (trim (orEmpty s))) →
             normCountry s = []))
  ∧ normLang (Some (js "EN")) = []
  ∧ normLang (Some (js "eng")) = js "eng"
  ∧ normLang (Some (js " ENG ")) = js "eng".
Proof.
  split; [|split; [|repeat split; vm_compute; reflexivity]].
  - intros s. unfold normLang. split; intros Hx.
    + apply test_lower3_letters in Hx. rewrite Hx. reflexivity.
    + destruct (test_lower3 _) eqn:E; [|reflexivity].
      apply test_lower3_letters in E. contradiction.
  - intros s. unfold normCountry. split; intros Hx.
    + apply test_upper3_letters in Hx. rewrite Hx. reflexivity.
    + destruct (test_upper3 _) eqn:E; [|reflexivity].
      apply test_upper3_letters in E. contradiction.
Qed.

End NormalizerFacts.

Lemma composeName_tokens_witness :
  @composeName plainHost
    {| name := None; lang := Some []; country := None; event := Some [];
       includeDate := true; date := None |} = [].
Proof.
  apply (proj1 (proj2 (proj2 (@composeName_tokens plainHost)))); reflexivity.
Defined.

Lemma composeName_locale_witness :
  (∃ pre post,
     @composeName plainHost
       {| name := Some (js "Intro to ML"); lang := Some (js "eng");
          country := Some (js "USA"); event := None; includeDate := false;
          date := None |}
     = pre ++ (js "eng" ++ js "-" ++ js "USA") ++ post)
  ∧ @localeToken plainHost (Some (js "english")) (Some (js " usa ")) = js "USA".
Proof.
  split.
  - apply (proj1 (@composeName_locale plainHost)); reflexivity.
  - apply (proj2 (@composeName_locale plainHost) (Some (js "english")) (Some (js " usa ")));
      reflexivity.
Defined.

Lemma normalizers_three_letters_witness :
  @normLang plainHost (Some (js " ENG ")) = js "eng"
  ∧ @normCountry plainHost (Some (js "12")) = [].
Proof.
  split.
  - apply (proj1 (proj1 (@normalizers_three_letters plainHost) (Some (js " ENG ")))).
    exists 101, 110, 103. repeat split; reflexivity || lia.
  - apply (proj2 (proj1 (proj2 (@normalizers_three_letters plainHost)) (Some (js "12")))).
    intros (a & b & c & E & _). discriminate E.
Defined.

(** ** The lexer on printed text *)

Lemma lexRun_app st s r :
  lexRun st (s ++ r) =
  match lexRun st s with
  | Some (ts, st') =>
      match lexRun st' r with
      | Some (ts', st'') => Some (ts ++ ts', st'')
      | None => None
      end
  | None => None
  end.
Proof.
  revert st. induction s as [|c s IH]; intros st; simpl.
  - destruct (lexRun st r) as [[ts' st'']|]; reflexivity.
  - destruct (lexStep st c) as [[ts st']|]; [|reflexivity].
    rewrite IH. destruct (lexRun st' s) as [[ts1 st1]|]; [|reflexivity].
    destruct (lexRun st1 r) as [[ts2 st2]|]; [|reflexivity].
    rewrite app_assoc. reflexivity.
Qed.

Lemma lexFrom_app st s r :
  lexFrom st (s ++ r) =
  match lexRun st s with
  | Some (ts, st') =>
      match lexFrom st' r with
      | Some rest => Some (ts ++ rest)
      | None => None
      end
  | None => None
  end.
Proof.
  revert st. induction s as [|c s IH]; intros st; simpl.
  - destruct (lexFrom st r); reflexivity.
  - destruct (lexStep st c) as [[ts st']|]; [|reflexivity].
    rewrite IH. destruct (lexRun st' s) as [[ts1 st1]|]; [|reflexivity].
    destruct (lexFrom st1 r); [|reflexivity].
    rewrite app_assoc. reflexivity.
Qed.

Lemma hexValue_hexDigit d : d < 16 → hexValue (hexDigit d) = Some d.
Proof.
  intros Hd. unfold hexValue, hexDigit, isDigit.
  destruct (N.ltb_spec d 10); units; f_equal; lia.
Qed.

Lemma hex4 c :
  c < 65536 →
  (((0 * 16 + c / 4096 mod 16) * 16 + c / 256 mod 16) * 16 + c / 16 mod 16) * 16
  + c mod 16 = c.
Proof.
  intros Hc.
  replace (c / 4096) with (c / 16 / 16 / 16) by (rewrite !N.Div0.div_div; reflexivity).
  replace (c / 256) with (c / 16 / 16) by (rewrite !N.Div0.div_div; reflexivity).
  pose proof (N.Div0.div_mod c 16) as E0.
  pose proof (N.Div0.div_mod (c / 16) 16) as E1.
  pose proof (N.Div0.div_mod (c / 16 / 16) 16) as E2.
  assert (c / 16 / 16 / 16 < 16) as E3.
  { rewrite !N.Div0.div_div. apply N.Div0.div_lt_upper_bound. simpl. lia. }
  rewrite (N.mod_small _ _ E3). lia.
Qed.

Lemma lexRun_cons st c r ts st' :
  lexStep st c = Some (ts, st') →
  lexRun st (c :: r) =
  match lexRun st' r with
  | Some (ts', st'') => Some (ts ++ ts', st'')
  | None => None
  end.
Proof. intros E. simpl. rewrite E. reflexivity. Qed.

Lemma lex_hex acc n v d :
  d < 16 →
  lexStep (LHex acc (S (S n)) v) (hexDigit d) = Some ([], LHex acc (S n) (v * 16 + d)).
Proof. intros Hd. simpl. rewrite hexValue_hexDigit by assumption. reflexivity. Qed.

Lemma lex_hex_last acc v d :
  d < 16 →
  lexStep (LHex acc 1 v) (hexDigit d) = Some ([], LStr (acc ++ [v * 16 + d])).
Proof. intros Hd. simpl. rewrite hexValue_hexDigit by assumption. reflexivity. Qed.

Lemma lex_escape acc c :
  c < 65536 → lexRun (LStr acc) (unicodeEscape c) = Some ([], LStr (acc ++ [c])).
Proof.
  intros Hc. unfold unicodeEscape.
  rewrite (lexRun_cons (LStr acc) 92 _ [] (LEsc acc)) by reflexivity.
  rewrite (lexRun_cons (LEsc acc) 117 _ [] (LHex acc 4 0)) by reflexivity.
  erewrite lexRun_cons by (apply lex_hex, N.mod_lt; discriminate).
  erewrite lexRun_cons by (apply lex_hex, N.mod_lt; discriminate).
  erewrite lexRun_cons by (apply lex_hex, N.mod_lt; discriminate).
  erewrite lexRun_cons by (apply lex_hex_last, N.mod_lt; discriminate).
  cbn [lexRun app]. rewrite (hex4 c Hc). reflexivity.
Qed.

Lemma lex_unit acc c :
  isHighSurrogate c = false →
  lexRun (LStr acc) (quoteUnit c) = Some ([], LStr (acc ++ [c])).
Proof.
  intros Hh. unfold quoteUnit.
  destruct (N.eqb_spec c 8) as [->|N8]; [reflexivity|].
  destruct (N.eqb_spec c 9) as [->|N9]; [reflexivity|].
  destruct (N.eqb_spec c 10) as [->|N10]; [reflexivity|].
  destruct (N.eqb_spec c 12) as [->|N12]; [reflexivity|].
  destruct (N.eqb_spec c 13) as [->|N13]; [reflexivity|].
  destruct (N.eqb_spec c 34) as [->|N34]; [reflexivity|].
  destruct (N.eqb_spec c 92) as [->|N92]; [reflexivity|].
  rewrite Hh. destruct ((c <? 32) || false || isLowSurrogate c) eqn:E.
  - apply lex_escape. unfold isLowSurrogate in E. units.
  - cbn [lexRun lexStep]. unfold isLowSurrogate in E.
    apply orb_false_iff in E as [E _]. apply orb_false_iff in E as [E _].
    rewrite E. destruct (N.eqb_spec c 34); [contradiction|].
    destruct (N.eqb_spec c 92); [contradiction|]. reflexivity.
Qed.

Lemma lex_verbatim acc c :
  55296 <= c → lexStep (LStr acc) c = Some ([], LStr (acc ++ [c])).
Proof. intros Hc. unfold lexStep. units. Qed.

Lemma lex_units n : ∀ s acc,
  (length s <= n)%nat →
  lexRun (LStr acc) (quoteUnits s) = Some ([], LStr (acc ++ s)).
Proof.
  induction n as [|n IH]; intros s acc Hn.
  - destruct s; [|simpl in Hn; lia]. simpl. rewrite app_nil_r. reflexivity.
  - destruct s as [|c r]; [simpl; rewrite app_nil_r; reflexivity|].
    simpl in Hn. cbn [quoteUnits].
    destruct (isHighSurrogate c) eqn:Hh.
    + destruct r as [|d r'].
      * apply lex_escape. unfold isHighSurrogate in Hh. units.
      * destruct (isLowSurrogate d) eqn:Hl.
        -- cbn [lexRun]. rewrite lex_verbatim by (unfold isHighSurrogate in Hh; units).
           rewrite lex_verbatim by (unfold isLowSurrogate in Hl; units).
           rewrite IH by (simpl in Hn; lia).
           rewrite <- !app_assoc. reflexivity.
        -- rewrite lexRun_app, lex_escape by (unfold isHighSurrogate in Hh; units).
           rewrite IH by lia. rewrite <- app_assoc. reflexivity.
    + rewrite lexRun_app, lex_unit by assumption.
      rewrite IH by lia. rewrite <- app_assoc. reflexivity.
Qed.

Lemma lex_quote s : lexRun LStart (quoteJSON s) = Some ([TAtom (VStr s)], LStart).
Proof.
  unfold quoteJSON.
  rewrite (lexRun_cons LStart 34 _ [] (LStr [])) by reflexivity.
  rewrite lexRun_app, (lex_units (length s)) by reflexivity.
  rewrite (lexRun_cons (LStr ([] ++ s)) 34 _ [TAtom (VStr s)] LStart) by reflexivity.
  reflexivity.
Qed.

(** *** Numbers *)

Lemma uintUnits_digits u : forallb isDigit (uintUnits u) = true.
Proof. induction u; simpl; try rewrite IHu; reflexivity. Qed.

Lemma unitsUint_uintUnits u : unitsUint (uintUnits u) = u.
Proof. induction u; simpl; unfold digitUint; simpl; rewrite ?IHu; reflexivity. Qed.

Lemma digitsValue_decimalN n : digitsValue (decimalN n) = n.
Proof.
  unfold digitsValue, decimalN. rewrite unitsUint_uintUnits.
  apply DecimalN.Unsigned.of_to.
Qed.

Lemma nzhead_head d :
  match Decimal.nzhead d with
  | Decimal.D0 _ => False
  | _ => True
  end.
Proof. induction d; simpl; auto. Qed.

Lemma validInt_decimalN n : validInt (decimalN n) = true.
Proof.
  unfold decimalN.
  assert (E : N.to_uint n = Decimal.unorm (N.to_uint n)).
  { rewrite <- (DecimalN.Unsigned.of_to n) at 1. apply DecimalN.Unsigned.to_of. }
  rewrite E. unfold Decimal.unorm.
  pose proof (nzhead_head (N.to_uint n)) as Hh.
  destruct (Decimal.nzhead (N.to_uint n));
    try contradiction; simpl; try reflexivity;
    match goal with |- context [uintUnits ?u] => destruct (uintUnits u) end;
    reflexivity.
Qed.

Lemma span_all {A} (p : A → bool) l : forallb p l = true → span p l = (l, []).
Proof.
  induction l as [|x r IH]; simpl; [reflexivity|].
  intros Hx. apply andb_true_iff in Hx as [Hx Hr]. rewrite Hx, (IH Hr). reflexivity.
Qed.

Lemma decimalN_head n : ∃ d r, decimalN n = d :: r ∧ isDigit d = true.
Proof.
  pose proof (validInt_decimalN n) as Hv.
  pose proof (uintUnits_digits (N.to_uint n)) as Hd. fold (decimalN n) in Hd.
  destruct (decimalN n) as [|d r]; [discriminate|].
  exists d, r. simpl in Hd. apply andb_true_iff in Hd as [Hd _]. auto.
Qed.

Lemma numberValue_digits (neg : bool) (ds : list N) :
  forallb isDigit ds = true → validInt ds = true →
  numberValue (if neg then 45 :: ds else ds) =
  let z := if neg then (- Z.of_N (digitsValue ds))%Z else Z.of_N (digitsValue ds) in
  if safeInteger z then Some (VNum z) else Some (VReal (if neg then 45 :: ds else ds)).
Proof.
  intros Hd Hv. unfold numberValue. destruct neg.
  - change (45 =? 45) with true. cbv iota. rewrite (span_all _ _ Hd), Hv. reflexivity.
  - destruct ds as [|d r]; [discriminate|].
    assert ((d =? 45) = false) as ->.
    { simpl in Hd. apply andb_true_iff in Hd as [Hd _]. unfold isDigit in Hd. units. }
    rewrite (span_all _ _ Hd), Hv. reflexivity.
Qed.

Lemma numberValue_decimalZ z :
  safeInteger z = true → numberValue (decimalZ z) = Some (VNum z).
Proof.
  intros Hz. unfold decimalZ.
  rewrite (numberValue_digits (z <? 0)%Z (decimalN (Z.abs_N z)))
    by (apply uintUnits_digits || apply validInt_decimalN).
  rewrite digitsValue_decimalN. cbv zeta.
  assert ((if (z <? 0)%Z then (- Z.of_N (Z.abs_N z))%Z else Z.of_N (Z.abs_N z)) = z) as ->.
  { destruct (Z.ltb_spec z 0); lia. }
  rewrite Hz. reflexivity.
Qed.

Lemma digit_numChar c : isDigit c = true → isNumChar c = true.
Proof. unfold isNumChar. intros ->. reflexivity. Qed.

Lemma lex_numChars s : ∀ acc,
  forallb isNumChar s = true → lexRun (LNum acc) s = Some ([], LNum (acc ++ s)).
Proof.
  induction s as [|c r IH]; intros acc Hs; simpl.
  - rewrite app_nil_r. reflexivity.
  - simpl in Hs. apply andb_true_iff in Hs as [Hc Hr]. rewrite Hc, (IH _ Hr).
    rewrite <- app_assoc. reflexivity.
Qed.

Lemma startStep_number c :
  (c =? 45) || isDigit c = true → startStep c = Some ([], LNum [c]).
Proof.
  intros Hc. unfold startStep, isJsonWs. unfold isDigit in *.
  apply orb_true_iff in Hc as [Hc|Hc]; units.
Qed.

Lemma forallb_impl {A} (p q : A → bool) l :
  (∀ x, p x = true → q x = true) → forallb p l = true → forallb q l = true.
Proof.
  intros Hpq. induction l as [|x r IH]; simpl; [reflexivity|].
  intros Hx. apply andb_true_iff in Hx as [Hx Hr]. rewrite (Hpq _ Hx), (IH Hr). reflexivity.
Qed.

Lemma lex_decimalZ z : lexRun LStart (decimalZ z) = Some ([], LNum (decimalZ z)).
Proof.
  assert (Hds : forallb isNumChar (decimalN (Z.abs_N z)) = true).
  { apply (forallb_impl isDigit); [exact digit_numChar | apply uintUnits_digits]. }
  unfold decimalZ. destruct (z <? 0)%Z.
  - rewrite (lexRun_cons LStart 45 _ [] (LNum [45])) by reflexivity.
    rewrite lex_numChars by assumption. reflexivity.
  - destruct (decimalN_head (Z.abs_N z)) as (d & r & E & Hd). rewrite E in *.
    rewrite (lexRun_cons LStart d _ [] (LNum [d]))
      by (apply startStep_number; rewrite Hd; apply orb_true_r).
    simpl in Hds. apply andb_true_iff in Hds as [_ Hr].
    rewrite lex_numChars by assumption. reflexivity.
Qed.

Lemma lex_number_end acc n rest :
  numberValue acc = Some n → delimited rest →
  lexFrom (LNum acc) rest =
  match lexFrom LStart rest with
  | Some ts => Some (TAtom n :: ts)
  | None => None
  end.
Proof.
  intros Hn Hrest. destruct rest as [|c r]; simpl.
  - rewrite Hn. reflexivity.
  - simpl in Hrest. rewrite Hrest, Hn.
    destruct (startStep c) as [[ts st']|]; [|reflexivity].
    destruct (lexFrom st' r); reflexivity.
Qed.

(** *** Values *)

Lemma value_nested_ind (P : value → Prop) :
  P VUndef → P VNull → (∀ b, P (VBool b)) → (∀ z, P (VNum z)) →
  (∀ l, P (VReal l)) → (∀ s, P (VStr s)) →
  (∀ l, Forall P l → P (VArr l)) →
  (∀ l, Forall (λ kx, P (snd kx)) l → P (VObj l)) →
  ∀ v, P v.
Proof.
  intros Hu Hn Hb Hz Hr Hs Ha Ho.
  fix IH 1.
  intros [| |b|z|l|s|l|l];
    [exact Hu | exact Hn | apply Hb | apply Hz | apply Hr | apply Hs | |].
  - apply Ha. revert l. fix IHl 1. intros [|x r]; constructor; [apply IH | apply IHl].
  - apply Ho. revert l. fix IHl 1. intros [|[k x] r]; constructor; [apply IH | apply IHl].
Qed.

Lemma LexesAny_run t ts : lexRun LStart t = Some (ts, LStart) → LexesAny t ts.
Proof. intros E rest. rewrite lexFrom_app, E. reflexivity. Qed.

Lemma LexesAny_To t ts : LexesAny t ts → LexesTo t ts.
Proof. intros E rest _. apply E. Qed.

Lemma LexesAny_app t1 ts1 t2 ts2 :
  LexesAny t1 ts1 → LexesAny t2 ts2 → LexesAny (t1 ++ t2) (ts1 ++ ts2).
Proof.
  intros E1 E2 rest. rewrite <- app_assoc, E1, E2.
  destruct (lexFrom LStart rest); [rewrite app_assoc|]; reflexivity.
Qed.

Lemma LexesAny_To_app t1 ts1 t2 ts2 :
  LexesAny t1 ts1 → LexesTo t2 ts2 → LexesTo (t1 ++ t2) (ts1 ++ ts2).
Proof.
  intros E1 E2 rest Hrest. rewrite <- app_assoc, E1, (E2 rest Hrest).
  destruct (lexFrom LStart rest); [rewrite app_assoc|]; reflexivity.
Qed.

Lemma LexesTo_Any_app t1 ts1 c t2 ts2 :
  isNumChar c = false →
  LexesTo t1 ts1 → LexesAny (c :: t2) ts2 → LexesAny (t1 ++ c :: t2) (ts1 ++ ts2).
Proof.
  intros Hc E1 E2 rest. rewrite <- app_assoc, E1 by exact Hc.
  rewrite E2. destruct (lexFrom LStart rest); [rewrite app_assoc|]; reflexivity.
Qed.

Lemma LexesTo_decimalZ z : safeInteger z = true → LexesTo (decimalZ z) [TAtom (VNum z)].
Proof.
  intros Hz rest Hrest. rewrite lexFrom_app, lex_decimalZ.
  rewrite (lex_number_end _ (VNum z)) by (apply numberValue_decimalZ, Hz || exact Hrest).
  destruct (lexFrom LStart rest); reflexivity.
Qed.

Section Printed.
Context `{Host}.

Lemma stringify_plain v : plainJSON v = true → stringify v = Some (elemText v).
Proof. unfold elemText. destruct v; try discriminate; reflexivity. Qed.

Lemma stringify_VArr l :
  stringify (VArr l) = Some (js "[" ++ join (js ",") (List.map elemText l) ++ js "]").
Proof. reflexivity. Qed.

Lemma members_plain l :
  forallb (λ kx, plainJSON (snd kx)) l = true →
  List.concat
    (List.map (λ kx, match stringify (snd kx) with
                     | Some t => [quoteJSON (fst kx) ++ js ":" ++ t]
                     | None => []
                     end) l)
  = List.map memberText l.
Proof.
  induction l as [|[k x] r IH]; intros Hx; [reflexivity|].
  cbn [forallb snd] in Hx. apply andb_true_iff in Hx as [Hx Hr].
  cbn [List.map List.concat fst snd]. rewrite (stringify_plain x Hx), (IH Hr).
  reflexivity.
Qed.

Lemma lex_joined {A} (text : A → jsstring) (tk : A → list token) close tclose l :
  Forall (λ x, LexesTo (text x) (tk x)) l →
  isNumChar close = false →
  LexesAny [close] [tclose] →
  LexesAny (join (js ",") (List.map text l) ++ [close])
           (join [TComma] (List.map tk l) ++ [tclose]).
Proof.
  intros Hl Hc Hclose. induction Hl as [|x r Hx Hr IH]; [exact Hclose|].
  destruct r as [|y r'].
  - simpl. apply (LexesTo_Any_app _ _ close []); assumption.
  - change (join (js ",") (List.map text (x :: y :: r')))
      with (text x ++ js "," ++ join (js ",") (List.map text (y :: r'))).
    change (join [TComma] (List.map tk (x :: y :: r')))
      with (tk x ++ [TComma] ++ join [TComma] (List.map tk (y :: r'))).
    rewrite <- !app_assoc.
    apply (LexesTo_Any_app _ _ 44); [reflexivity | exact Hx |].
    apply (LexesAny_app [44] [TComma]); [apply LexesAny_run; reflexivity | exact IH].
Qed.

Lemma lex_value v :
  plainJSON v = true → LexesTo (elemText v) (toks v).
Proof.
  induction v as [| |b|z|l|s|l IH|l IH] using value_nested_ind; intros Hv;
    try discriminate.
  - apply LexesAny_To, LexesAny_run. reflexivity.
  - apply LexesAny_To, LexesAny_run. destruct b; reflexivity.
  - apply LexesTo_decimalZ. exact Hv.
  - apply LexesAny_To, LexesAny_run. apply lex_quote.
  - apply LexesAny_To. unfold elemText. rewrite stringify_VArr.
    apply (LexesAny_app [91] [TLBrack]); [apply LexesAny_run; reflexivity|].
    apply lex_joined; [| reflexivity | apply LexesAny_run; reflexivity].
    simpl in Hv. rewrite forallb_forall in Hv. rewrite Forall_forall in IH |- *.
    intros x Hx. apply IH; [exact Hx | apply Hv, list_elem_of_In; exact Hx].
  - apply LexesAny_To. simpl in Hv. apply andb_true_iff in Hv as [Hv Hk].
    unfold elemText. cbn [stringify]. rewrite (members_plain l Hv).
    apply (LexesAny_app [123] [TLBrace]); [apply LexesAny_run; reflexivity|].
    apply (lex_joined memberText memberToks);
      [| reflexivity | apply LexesAny_run; reflexivity].
    rewrite forallb_forall in Hv. rewrite Forall_forall in IH |- *.
    intros [k x] Hx. unfold memberText, memberToks. cbn [fst snd].
    apply (LexesAny_To_app _ [TAtom (VStr k)]);
      [apply LexesAny_run, lex_quote|].
    apply (LexesAny_To_app [58] [TColon]); [apply LexesAny_run; reflexivity|].
    apply (IH (k, x) Hx). apply (Hv (k, x)), list_elem_of_In. exact Hx.
Qed.

End Printed.

(** ** The recognizer on the tokens of a value *)

Lemma toks_opens v : ∃ t r, toks v = t :: r ∧ opensValue t = true.
Proof. destruct v; simpl; eauto. Qed.

Lemma arrOpen_value stk t r :
  opensValue t = true →
  parseFrom (SArrOpen stk) (t :: r) = parseFrom (SValue (FArr [] :: stk)) (t :: r).
Proof. destruct t; try discriminate; reflexivity. Qed.

Lemma hasKey_fst k l : hasKey k l = existsb (λ k', bool_decide (k' = k)) (List.map fst l).
Proof. induction l as [|[k' x] r IH]; simpl; [reflexivity|]. rewrite <- IH. reflexivity. Qed.

Lemma plainKeys_middle ks1 k ks2 :
  plainKeys (ks1 ++ k :: ks2) = true →
  existsb (λ k', bool_decide (k' = k)) ks1 = false ∧ isArrayIndex k = false.
Proof.
  induction ks1 as [|k1 r IH]; simpl; intros Hk.
  - apply andb_true_iff in Hk as [Hk _]. apply andb_true_iff in Hk as [Hk _].
    apply negb_true_iff in Hk. auto.
  - apply andb_true_iff in Hk as [Hk Hr]. apply andb_true_iff in Hk as [_ Hk].
    apply negb_true_iff in Hk. rewrite existsb_app in Hk.
    apply orb_false_iff in Hk as [_ Hk]. simpl in Hk.
    apply orb_false_iff in Hk as [Hk _].
    destruct (IH Hr) as [E1 E2]. split; [|exact E2].
    rewrite E1, orb_false_r. apply bool_decide_eq_false.
    apply bool_decide_eq_false in Hk. congruence.
Qed.

Lemma objSet_fresh k x done rest :
  plainKeys (List.map fst (done ++ (k, x) :: rest)) = true →
  objSet k x done = done ++ [(k, x)].
Proof.
  rewrite map_app. cbn [List.map fst]. intros Hk.
  apply plainKeys_middle in Hk as [E1 E2].
  unfold objSet. rewrite hasKey_fst, E1, E2. reflexivity.
Qed.

Lemma join_cons {A} (sep : list A) p q rest :
  join sep (p :: q :: rest) = p ++ sep ++ join sep (q :: rest).
Proof. reflexivity. Qed.

(** After the first element: the remaining elements, each behind a comma,
    then the closing bracket. *)
Lemma parse_elems stk rest l : ∀ done,
  Forall (λ x, ∀ stk' r, parseFrom (SValue stk') (toks x ++ r)
                         = parseFrom (deliver x stk') r) l →
  parseFrom (SArrNext done stk)
    (List.concat (List.map (λ x, TComma :: toks x) l) ++ TRBrack :: rest)
  = parseFrom (deliver (VArr (done ++ l)) stk) rest.
Proof.
  induction l as [|x r IH]; intros done Hl.
  - simpl. rewrite app_nil_r. reflexivity.
  - apply Forall_cons in Hl as [Hx Hr].
    cbn [List.map List.concat]. rewrite <- !app_assoc.
    cbn [app parseFrom parseStep]. rewrite Hx. cbn [deliver].
    rewrite (IH _ Hr). rewrite <- app_assoc. reflexivity.
Qed.

Lemma parse_members stk rest l : ∀ done,
  Forall (λ kx, ∀ stk' r, parseFrom (SValue stk') (toks (snd kx) ++ r)
                          = parseFrom (deliver (snd kx) stk') r) l →
  plainKeys (List.map fst (done ++ l)) = true →
  parseFrom (SObjNext done stk)
    (List.concat
       (List.map (λ kx, TComma :: TAtom (VStr (fst kx)) :: TColon :: toks (snd kx)) l)
     ++ TRBrace :: rest)
  = parseFrom (deliver (VObj (done ++ l)) stk) rest.
Proof.
  induction l as [|[k x] r IH]; intros done Hl Hk.
  - simpl. rewrite app_nil_r. reflexivity.
  - apply Forall_cons in Hl as [Hx Hr].
    cbn [List.map List.concat fst snd]. rewrite <- !app_assoc.
    cbn [app parseFrom parseStep]. cbn [snd] in Hx. rewrite Hx. cbn [deliver].
    rewrite (objSet_fresh k x done r Hk).
    rewrite (IH (done ++ [(k, x)]) Hr) by (rewrite <- app_assoc; exact Hk).
    rewrite <- app_assoc. reflexivity.
Qed.

Lemma join_concat {A} (sep : list A) p rest :
  join sep (p :: rest) = p ++ List.concat (List.map (λ q, sep ++ q) rest).
Proof.
  revert p. induction rest as [|q r IH]; intros p.
  - simpl. rewrite app_nil_r. reflexivity.
  - rewrite join_cons, IH. cbn [List.map List.concat].
    rewrite <- app_assoc. reflexivity.
Qed.

Lemma parse_value v :
  plainJSON v = true →
  ∀ stk rest, parseFrom (SValue stk) (toks v ++ rest) = parseFrom (deliver v stk) rest.
Proof.
  induction v as [| |b|z|l|s|l IH|l IH] using value_nested_ind; intros Hv stk rest;
    try discriminate; try reflexivity.
  - simpl in Hv.
    assert (Hl : Forall (λ x, ∀ stk' r, parseFrom (SValue stk') (toks x ++ r)
                                        = parseFrom (deliver x stk') r) l).
    { rewrite forallb_forall in Hv. rewrite Forall_forall in IH |- *.
      intros x Hx. apply IH; [exact Hx | apply Hv, list_elem_of_In; exact Hx]. }
    destruct l as [|x r]; [reflexivity|].
    apply Forall_cons in Hl as [Hx Hr].
    cbn [toks List.map]. rewrite (join_concat [TComma] (toks x)), map_map.
    destruct (toks_opens x) as (t & tr & Et & Ht).
    cbn [app parseFrom parseStep valueStep]. rewrite <- !app_assoc.
    rewrite Et. rewrite <- app_comm_cons, (arrOpen_value _ _ _ Ht), app_comm_cons, <- Et.
    rewrite Hx. cbn [deliver app].
    apply (parse_elems stk rest r [x] Hr).
  - simpl in Hv. apply andb_true_iff in Hv as [Hv Hk].
    assert (Hl : Forall (λ kx, ∀ stk' r, parseFrom (SValue stk') (toks (snd kx) ++ r)
                                         = parseFrom (deliver (snd kx) stk') r) l).
    { rewrite forallb_forall in Hv. rewrite Forall_forall in IH |- *.
      intros x Hx. apply IH; [exact Hx | apply Hv, list_elem_of_In; exact Hx]. }
    destruct l as [|[k x] r]; [reflexivity|].
    apply Forall_cons in Hl as [Hx Hr]. cbn [snd] in Hx.
    cbn [toks]. cbn [List.map fst snd].
    rewrite (join_concat [TComma]), map_map.
    cbn [app parseFrom parseStep valueStep]. rewrite <- !app_assoc.
    rewrite Hx. cbn [deliver].
    rewrite (objSet_fresh k x [] r Hk). cbn [app].
    apply (parse_members stk rest r [(k, x)] Hr Hk).
Qed.

(** ** Round trip *)

Section RoundTrip.
Context `{Host}.

Lemma JSON_stringify_plain v : plainJSON v = true → JSON_stringify v = elemText v.
Proof. intros Hv. unfold JSON_stringify. rewrite (stringify_plain v Hv). reflexivity. Qed.

(** [JSON.parse(JSON.stringify(v))] is [v] on plain values. *)
Lemma parse_stringify v : plainJSON v = true → JSON_parse (JSON_stringify v) = Some v.
Proof.
  intros Hv. rewrite (JSON_stringify_plain v Hv). unfold JSON_parse.
  pose proof (lex_value v Hv [] I) as E. rewrite app_nil_r in E. rewrite E.
  cbn [lexFrom lexEnd]. apply (parse_value v Hv [] []).
Qed.

End RoundTrip.

(** ** The cache *)

Section CacheFacts.
Context `{Host}.

(** [getCache] in closed form: it always returns, and leaves the world as it
    found it. *)
Lemma getCache_eval key w :
  getCache key w =
  (Ok match JSON_parse (match storage w !! key with
                        | Some text => text
                        | None => js "null"
                        end) with
      | None => VNull
      | Some x =>
          if negb (truthy x) then VNull
          else match expired (clock w) (getProp x (js "ts")) with
               | Some false => getProp x (js "data")
               | _ => VNull
               end
      end, w).
Proof.
  unfold getCache, tryCatch, bind, getItem, orThrow, ret, throw, Date_now.
  destruct (JSON_parse _) as [x|]; [|reflexivity].
  destruct (truthy x); [|reflexivity]. cbn [negb].
  destruct (expired _ _) as [[|]|]; reflexivity.
Qed.

Lemma setCache_eval key data w :
  setCache key data w =
  (Ok tt,
   {| storage := <[key := JSON_stringify
                            (VObj [(js "ts", VNum (clock w)); (js "data", data)])]>
                   (storage w);
      clock := clock w; requests := requests w; remote := remote w |}).
Proof. reflexivity. Qed.

Lemma plainJSON_entries (X : list Entry.t) : plainJSON (entriesValue X) = true.
Proof.
  unfold entriesValue. cbn [plainJSON]. induction X as [|e r IH]; [reflexivity|].
  cbn [List.map forallb]. rewrite IH. reflexivity.
Qed.

Lemma plainJSON_cacheEntry t data :
  safeInteger t = true → plainJSON data = true →
  plainJSON (VObj [(js "ts", VNum t); (js "data", data)]) = true.
Proof.
  intros Ht Hd. cbn [plainJSON forallb snd]. rewrite Ht, Hd. reflexivity.
Qed.


(** What [getCache] finds in an entry that [setCache] wrote at time [t]. *)
Lemma getCache_written key data t w :
  safeInteger t = true → plainJSON data = true →
  storage w !! key
    = Some (JSON_stringify (VObj [(js "ts", VNum t); (js "data", data)])) →
  getCache key w = (Ok (if (clock w - t >? TTL)%Z then VNull else data), w).
Proof.
  intros Ht Hd Hs. rewrite getCache_eval, Hs.
  rewrite (parse_stringify _ (plainJSON_cacheEntry t data Ht Hd)).
  cbn [truthy negb]. change (getProp _ (js "ts")) with (VNum t).
  change (getProp _ (js "data")) with data. cbn [expired].
  destruct (clock w - t >? TTL)%Z; reflexivity.
Qed.

(** C4: an entry written by [setCache key X] is read back as [X] by
    [getCache key], immediately and at any time at which no more than the
    TTL has passed since the write; once more than the TTL of 7 days
    (7 * 24 * 60 * 60 * 1000 ms) has passed, [getCache key] returns [null].
    [w] is the world in which the entry is written, [w'] any world in which
    it is still stored under [key]; [Date.now()] is an integral time value,
    hence a safe integer; the data [X] is any plain JSON value, which every
    list of reference entries is. *)
Theorem cache_round_trip (key : jsstring) (X : value) (w w' : World) :
  safeInteger (clock w) = true →
  plainJSON X = true →
  storage w' !! key = storage (setCache key X w).2 !! key →
  TTL = 604800000%Z
  ∧ bind (setCache key X) (λ _, getCache key) w = (Ok X, (setCache key X w).2)
  ∧ ((clock w' - clock w <= TTL)%Z → getCache key w' = (Ok X, w'))
  ∧ ((clock w' - clock w > TTL)%Z → getCache key w' = (Ok VNull, w'))
  ∧ (∀ l : list Entry.t, plainJSON (entriesValue l) = true).
Proof.
  intros Ht HX Hs. rewrite setCache_eval in Hs. cbn [snd storage] in Hs.
  rewrite lookup_insert_eq in Hs.
  pose proof (getCache_written key _ _ w' Ht HX Hs) as E.
  split; [reflexivity|]. split; [|split; [|split; [|exact plainJSON_entries]]].
  - unfold bind. rewrite setCache_eval. cbn [snd].
    rewrite (getCache_written key X (clock w));
      [| exact Ht | exact HX | cbn [storage]; apply lookup_insert_eq].
    cbn [clock]. rewrite Z.sub_diag. reflexivity.
  - intros Hle. rewrite E. destruct (Z.gtb_spec (clock w' - clock w) TTL); [lia|].
    reflexivity.
  - intros Hgt. rewrite E. destruct (Z.gtb_spec (clock w' - clock w) TTL); [|lia].
    reflexivity.
Qed.


End CacheFacts.

Lemma cache_round_trip_witness :
  let X := entriesValue [{| Entry.code := js "eng"; Entry.name := js "English" |}] in
  let w := worldWith ∅ offline in
  let w1 := (@setCache plainHost (js "languages.v1") X w).2 in
  @getCache plainHost (js "languages.v1") (atTime 1700000001000 w1)
  = (Ok X, atTime 1700000001000 w1)
  ∧ @getCache plainHost (js "languages.v1") (atTime 1700604800001 w1)
    = (Ok VNull, atTime 1700604800001 w1).
Proof.
  intros X w w1. split.
  - apply (proj1 (proj2 (proj2 (@cache_round_trip plainHost (js "languages.v1") X w
             (atTime 1700000001000 w1) eq_refl eq_refl eq_refl)))).
    vm_compute. discriminate.
  - apply (proj1 (proj2 (proj2 (proj2 (@cache_round_trip plainHost (js "languages.v1") X w
             (atTime 1700604800001 w1) eq_refl eq_refl eq_refl))))).
    vm_compute. reflexivity.
Defined.




(** ** The fetchers *)

Section FetcherFacts.
Context `{Host}.

Lemma fetchCountries_resolve :
  fetchCountries = resolve (js "countries.v1") countriesUrl countriesData countriesStub.
Proof. reflexivity. Qed.

Lemma fetchLanguages_resolve :
  fetchLanguages = resolve (js "languages.v1") languagesUrl languagesData languagesStub.
Proof. reflexivity. Qed.

(** The policy in closed form. *)
Lemma resolve_eval key url transform stub w :
  resolve key url transform stub w =
  let cached := (getCache key w).1 in
  if truthy (match cached with Ok c => c | Throw => VUndef end)
  then (cached, w)
  else match body (remote w url) with
       | Some rows =>
           match transform rows with
           | Some data =>
               (Ok (VArr data), (setCache key (VArr data) (afterFetch url w)).2)
           | None => (Ok stub, afterFetch url w)
           end
       | None => (Ok stub, afterFetch url w)
       end.
Proof.
  unfold resolve, bind. rewrite getCache_eval. cbn [fst].
  match goal with |- context [truthy ?c] => destruct (truthy c) end; [reflexivity|].
  unfold tryCatch, fetchJson, orThrow, ret, throw. fold (afterFetch url w).
  destruct (body (remote w url)) as [rows|]; [|reflexivity].
  destruct (transform rows) as [data|]; reflexivity.
Qed.

Lemma resolve_hit key url transform stub w v :
  (getCache key w).1 = Ok v → truthy v = true →
  resolve key url transform stub w = (Ok v, w).
Proof. intros Hc Hv. rewrite resolve_eval. cbv zeta. rewrite Hc, Hv. reflexivity. Qed.

Lemma resolve_fallback key url transform stub w c :
  (getCache key w).1 = Ok c → truthy c = false →
  match body (remote w url) with
  | Some rows => transform rows = None
  | None => True
  end →
  resolve key url transform stub w = (Ok stub, afterFetch url w).
Proof.
  intros Hc Hv Hf. rewrite resolve_eval. cbv zeta. rewrite Hc, Hv.
  destruct (body (remote w url)) as [rows|]; [rewrite Hf|]; reflexivity.
Qed.

Lemma resolve_remote key url transform stub w c rows data :
  (getCache key w).1 = Ok c → truthy c = false →
  body (remote w url) = Some rows → transform rows = Some data →
  resolve key url transform stub w
  = (Ok (VArr data), (setCache key (VArr data) (afterFetch url w)).2).
Proof.
  intros Hc Hv Hb Ht. rewrite resolve_eval. cbv zeta. rewrite Hc, Hv, Hb, Ht.
  reflexivity.
Qed.

(** C8: when the cache misses and the remote fetch fails, by a rejected
    request or response or by an exception in the transform, each fetcher
    returns its built-in stub of ten entries, writes nothing to the cache
    and raises nothing. *)
Theorem static_fallback (w : World) :
  (∀ c, (getCache (js "countries.v1") w).1 = Ok c → truthy c = false →
        match body (remote w countriesUrl) with
        | Some rows => countriesData rows = None
        | None => True
        end →
        (fetchCountries w).1 = Ok countriesStub
        ∧ storage (fetchCountries w).2 = storage w)
  ∧ (∀ c, (getCache (js "languages.v1") w).1 = Ok c → truthy c = false →
          match body (remote w languagesUrl) with
          | Some rows => languagesData rows = None
          | None => True
          end →
          (fetchLanguages w).1 = Ok languagesStub
          ∧ storage (fetchLanguages w).2 = storage w)
  ∧ (∃ l, countriesStub = VArr l ∧ length l = 10%nat ∧ isEntryList countriesStub = true)
  ∧ (∃ l, languagesStub = VArr l ∧ length l = 10%nat ∧ isEntryList languagesStub = true).
Proof.
  split; [|split; [|split]].
  - intros c Hc Hv Hf. rewrite fetchCountries_resolve.
    rewrite (resolve_fallback _ _ _ _ w c Hc Hv Hf). split; reflexivity.
  - intros c Hc Hv Hf. rewrite fetchLanguages_resolve.
    rewrite (resolve_fallback _ _ _ _ w c Hc Hv Hf). split; reflexivity.
  - eexists. split; [reflexivity|]. split; reflexivity.
  - eexists. split; [reflexivity|]. split; reflexivity.
Qed.

(** C9, amended: when [getCache] returns truthy data for a fetcher's key
    (any array, the empty one included, is truthy), the fetcher returns
    exactly that data and leaves the world as it was: no request is issued
    and nothing is written. *)
Theorem cache_hit (w : World) :
  (∀ v, (getCache (js "countries.v1") w).1 = Ok v → truthy v = true →
        fetchCountries w = (Ok v, w)
        ∧ requests (fetchCountries w).2 = requests w
        ∧ storage (fetchCountries w).2 = storage w)
  ∧ (∀ v, (getCache (js "languages.v1") w).1 = Ok v → truthy v = true →
          fetchLanguages w = (Ok v, w)
          ∧ requests (fetchLanguages w).2 = requests w
          ∧ storage (fetchLanguages w).2 = storage w)
  ∧ (∀ l, truthy (VArr l) = true).
Proof.
  split; [|split; [|reflexivity]].
  - intros v Hc Hv. rewrite fetchCountries_resolve.
    rewrite (resolve_hit _ _ _ _ w v Hc Hv). repeat split; reflexivity.
  - intros v Hc Hv. rewrite fetchLanguages_resolve.
    rewrite (resolve_hit _ _ _ _ w v Hc Hv). repeat split; reflexivity.
Qed.

End FetcherFacts.

Lemma static_fallback_witness :
  let w := worldWith ∅ offline in
  (@fetchCountries plainHost w).1 = Ok countriesStub
  ∧ storage (@fetchCountries plainHost w).2 = storage w
  ∧ (@fetchLanguages plainHost (worldWith ∅ (answering (VNum 404) 30))).1
    = Ok languagesStub.
Proof.
  intros w. split; [|split].
  - apply (proj1 (@static_fallback plainHost w) VNull); [reflexivity | reflexivity | exact I].
  - apply (proj1 (@static_fallback plainHost w) VNull); [reflexivity | reflexivity | exact I].
  - apply (proj1 (proj2 (@static_fallback plainHost (worldWith ∅ (answering (VNum 404) 30)))) VNull);
      reflexivity.
Defined.

Lemma cache_hit_witness :
  let w := worldWith {[ js "countries.v1" := jsq "{'ts':1699999999000,'data':[]}" ]} offline in
  @fetchCountries plainHost w = (Ok (VArr []), w).
Proof.
  intros w.
  apply (proj1 (@cache_hit plainHost w) (VArr [])); reflexivity.
Defined.

(** C9 as stated fails: on the stored text [{"data":0}] the cache returns
    the number 0, which is not [null]; [fetchCountries] does not return it
    but issues its request and, the network being down, returns the stub. *)
Lemma cache_hit_falsy :
  let w := worldWith {[ js "countries.v1" := jsq "{'data':0}" ]} offline in
  (@getCache plainHost (js "countries.v1") w).1 = Ok (VNum 0)
  ∧ VNum 0 ≠ VNull
  ∧ (@fetchCountries plainHost w).1 = Ok countriesStub
  ∧ requests (@fetchCountries plainHost w).2 = [countriesUrl].
Proof.
  intros w. split; [|split; [discriminate|]].
  - rewrite getCache_eval. reflexivity.
  - rewrite fetchCountries_resolve, resolve_eval. split; reflexivity.
Qed.

(** ** Sorting *)

Section StableSort.
Context {A : Type} (cmp : A → A → Z).
Hypothesis cmp_total : ∀ a b, (cmp a b <= 0)%Z ∨ (cmp b a <= 0)%Z.
Hypothesis cmp_trans : ∀ a b c, (cmp a b <= 0)%Z → (cmp b c <= 0)%Z → (cmp a c <= 0)%Z.

Lemma insertSorted_perm x l : Permutation (insertSorted cmp x l) (x :: l).
Proof.
  induction l as [|y r IH]; simpl; [reflexivity|].
  destruct (cmp x y <=? 0)%Z; [reflexivity|].
  rewrite IH. apply perm_swap.
Qed.

Lemma stableSort_perm l : Permutation (stableSort cmp l) l.
Proof.
  induction l as [|x r IH]; simpl; [reflexivity|].
  rewrite insertSorted_perm, IH. reflexivity.
Qed.

Lemma insertSorted_sorted x l :
  StronglySorted (λ a b, (cmp a b <= 0)%Z) l →
  StronglySorted (λ a b, (cmp a b <= 0)%Z) (insertSorted cmp x l).
Proof.
  induction 1 as [|y r Hr IH Hy]; simpl.
  - repeat constructor.
  - destruct (Z.leb_spec (cmp x y) 0) as [Hxy|Hxy].
    + constructor; [constructor; assumption|].
      constructor; [exact Hxy|].
      eapply Forall_impl; [exact Hy|]. intros z Hz. cbn beta in Hz |- *. eauto.
    + constructor; [exact IH|].
      rewrite insertSorted_perm. constructor; [|exact Hy].
      destruct (cmp_total x y); [lia | assumption].
Qed.

Lemma stableSort_sorted l : StronglySorted (λ a b, (cmp a b <= 0)%Z) (stableSort cmp l).
Proof.
  induction l as [|x r IH]; simpl; [constructor|].
  apply insertSorted_sorted, IH.
Qed.

End StableSort.

(** Code-unit order is a consistent comparison. *)
Lemma compareUnits_refl a : compareUnits a a = 0%Z.
Proof. induction a as [|x a IH]; simpl; [reflexivity|]. rewrite N.compare_refl. exact IH. Qed.

Lemma compareUnits_eq a : ∀ b, compareUnits a b = 0%Z → a = b.
Proof.
  induction a as [|x a IH]; intros [|y b]; simpl; try discriminate; [reflexivity|].
  destruct (N.compare_spec x y) as [->|Hlt|Hgt]; try discriminate.
  intros E. rewrite (IH _ E). reflexivity.
Qed.

Lemma compareUnits_opp a : ∀ b, compareUnits b a = (- compareUnits a b)%Z.
Proof.
  induction a as [|x a IH]; intros [|y b]; simpl; try reflexivity.
  rewrite (N.compare_antisym x y).
  destruct (N.compare x y); simpl; [apply IH | reflexivity | reflexivity].
Qed.

Lemma compareUnits_trans_lt a : ∀ b c,
  (compareUnits a b < 0)%Z → (compareUnits b c < 0)%Z → (compareUnits a c < 0)%Z.
Proof.
  induction a as [|x a IH]; intros [|y b] [|z c]; simpl; try lia.
  destruct (N.compare_spec x y) as [->|Hxy|Hxy]; try lia.
  - destruct (N.compare_spec y z) as [->|Hyz|Hyz]; try lia. apply IH.
  - intros _. destruct (N.compare_spec y z) as [->|Hyz|Hyz]; try lia.
    + intros _. destruct (N.compare_spec x z); lia.
    + intros _. destruct (N.compare_spec x z); lia.
Qed.

#[local] Instance plainHost_consistent : @ConsistentCompare plainHost.
Proof.
  split; cbn [localeCompare plainHost].
  - exact compareUnits_refl.
  - intros a b E. rewrite (compareUnits_eq a b E). apply compareUnits_refl.
  - intros a b c E1 E2. rewrite (compareUnits_eq a b E1). exact E2.
  - exact compareUnits_trans_lt.
  - intros a b c E1 E2.
    rewrite (compareUnits_opp b a) in E1. rewrite (compareUnits_opp c b) in E2.
    rewrite (compareUnits_opp c a).
    pose proof (compareUnits_trans_lt c b a). lia.
Qed.

Section CompareFacts.
Context `{ConsistentCompare}.

Lemma compare_lt_gt a b : (localeCompare a b < 0)%Z → (localeCompare b a > 0)%Z.
Proof.
  intros Hab. destruct (Z.lt_trichotomy (localeCompare b a) 0) as [Hba|[Hba|Hba]].
  - pose proof (compare_trans_lt a b a Hab Hba). rewrite compare_refl in *. lia.
  - apply compare_sym in Hba. lia.
  - lia.
Qed.

Lemma compare_gt_lt a b : (localeCompare a b > 0)%Z → (localeCompare b a < 0)%Z.
Proof.
  intros Hab. destruct (Z.lt_trichotomy (localeCompare b a) 0) as [Hba|[Hba|Hba]].
  - lia.
  - apply compare_sym in Hba. lia.
  - pose proof (compare_trans_gt a b a Hab ltac:(lia)). rewrite compare_refl in *. lia.
Qed.

Lemma compare_le_total a b : (localeCompare a b <= 0)%Z ∨ (localeCompare b a <= 0)%Z.
Proof.
  destruct (Z.le_gt_cases (localeCompare a b) 0) as [Hab|Hab]; [left; exact Hab|].
  right. pose proof (compare_gt_lt a b). lia.
Qed.

Lemma compare_le_trans a b c :
  (localeCompare a b <= 0)%Z → (localeCompare b c <= 0)%Z → (localeCompare a c <= 0)%Z.
Proof.
  intros Hab Hbc.
  destruct (Z.le_gt_cases (localeCompare a c) 0) as [Hac|Hac]; [exact Hac|].
  pose proof (compare_gt_lt a c ltac:(lia)) as Hca.
  destruct (Z.lt_trichotomy (localeCompare a b) 0) as [Hab'|[Hab'|Hab']]; [| |lia].
  - pose proof (compare_trans_lt c a b Hca Hab') as Hcb.
    pose proof (compare_lt_gt c b Hcb). lia.
  - destruct (Z.lt_trichotomy (localeCompare b c) 0) as [Hbc'|[Hbc'|Hbc']]; [| |lia].
    + pose proof (compare_trans_lt b c a Hbc' Hca) as Hba.
      apply compare_sym in Hab'. lia.
    + pose proof (compare_trans_eq a b c Hab' Hbc'). lia.
Qed.

Lemma sorted_by_name l :
  Permutation (stableSort compareNames l) l
  ∧ StronglySorted nameLe (stableSort compareNames l).
Proof.
  split; [apply stableSort_perm|].
  apply (stableSort_sorted compareNames).
  - intros a b. apply compare_le_total.
  - intros a b c. apply compare_le_trans.
Qed.

End CompareFacts.

(** ** The transforms *)

Section TransformFacts.
Context `{Host}.

Lemma nameOf_entry c n : nameOf (entry c n) = n.
Proof. reflexivity. Qed.

Lemma sortByName_strings l :
  forallb (λ e, isStr (nameOf e)) l = true →
  sortByName l = Some (stableSort compareNames l).
Proof.
  intros Hl. destruct l as [|x [|y r]]; [reflexivity | reflexivity |].
  unfold sortByName. rewrite Hl. reflexivity.
Qed.

Lemma mapThrow_countryEntry l :
  (∀ r, In r l → isStr (getProp r (js "cca3")) = true) →
  mapThrow countryEntry l
  = Some (List.map (λ r, entry (toUpperCase (strOf (getProp r (js "cca3"))))
                           (getProp (getProp r (js "name")) (js "common"))) l).
Proof.
  induction l as [|r l IH]; intros Hl; [reflexivity|].
  cbn [mapThrow List.map]. rewrite IH by (intros r' Hr'; apply Hl; right; exact Hr').
  unfold countryEntry. pose proof (Hl r (or_introl eq_refl)) as Hr.
  destruct (getProp r (js "cca3")); try discriminate. reflexivity.
Qed.

Lemma countriesData_typed rs :
  (∀ r, In r rs → keepCountry r = true →
        isStr (getProp r (js "cca3")) = true
        ∧ isStr (getProp (getProp r (js "name")) (js "common")) = true) →
  countriesData (VArr rs) = Some (stableSort compareNames (countryRows rs)).
Proof.
  intros Hrs. unfold countriesData. cbn [asArray].
  rewrite mapThrow_countryEntry.
  - fold (countryRows rs). apply sortByName_strings.
    unfold countryRows. rewrite forallb_forall. intros e He.
    apply in_map_iff in He as (r & <- & Hr). apply filter_In in Hr as [Hr Hk].
    rewrite nameOf_entry. apply (Hrs r Hr Hk).
  - intros r Hr. apply filter_In in Hr as [Hr Hk]. apply (Hrs r Hr Hk).
Qed.

Lemma countriesData_none rs :
  (∀ r, In r rs → keepCountry r = false) → countriesData (VArr rs) = Some [].
Proof.
  intros Hrs. unfold countriesData. cbn [asArray].
  assert (List.filter keepCountry rs = []) as ->; [|reflexivity].
  induction rs as [|r rs IH]; [reflexivity|]. cbn [List.filter].
  rewrite (Hrs r (or_introl eq_refl)). apply IH. intros r' Hr'. apply Hrs. right. exact Hr'.
Qed.

(** The two loops visit [allPairs], and only the accepted pairs change the
    map. *)
Lemma addRow_pairs m r : addRow m r = List.fold_left addLanguage (entries (langsOf r)) m.
Proof. reflexivity. Qed.

Lemma fold_addRow rs : ∀ m,
  List.fold_left addRow rs m = List.fold_left addLanguage (allPairs rs) m.
Proof.
  induction rs as [|r rs IH]; intros m; [reflexivity|].
  cbn [List.fold_left]. unfold allPairs. cbn [List.flat_map].
  rewrite fold_left_app, <- addRow_pairs. apply IH.
Qed.

Lemma fold_addLanguage ps : ∀ m,
  List.fold_left addLanguage ps m = List.fold_left addAccepted (acceptedPairs ps) m.
Proof.
  induction ps as [|[k v] ps IH]; intros m; [reflexivity|].
  cbn [List.fold_left]. unfold acceptedPairs. cbn [List.filter fst].
  unfold addLanguage at 2. cbn [orEmpty fst snd].
  destruct (test_lower3 (toLowerCase k)) eqn:Ek; cbn [negb].
  - cbn [List.map List.fold_left fst snd]. unfold addAccepted at 2. cbn [fst].
    destruct (hasKey (toLowerCase k) m); cbn [negb]; apply IH.
  - apply IH.
Qed.

Lemma firstName_app c m qs :
  firstName c (m ++ qs)
  = match firstName c m with
    | Some n => Some n
    | None => firstName c qs
    end.
Proof.
  unfold firstName. induction m as [|[k v] m IH]; [simpl; destruct (List.find _ qs); reflexivity|].
  cbn [app List.find fst]. destruct (bool_decide (k = c)); [reflexivity | exact IH].
Qed.

Lemma firstName_hasKey c m : hasKey c m = true → firstName c m ≠ None.
Proof.
  unfold firstName, hasKey. induction m as [|[k v] m IH]; [discriminate|].
  cbn [existsb List.find fst]. destruct (bool_decide (k = c)); [discriminate | exact IH].
Qed.

Lemma firstName_In c n m : firstName c m = Some n → In (c, n) m.
Proof.
  unfold firstName. destruct (List.find _ m) as [[k v]|] eqn:E; [|discriminate].
  intros [= <-]. apply find_some in E as [Hin Hk].
  apply bool_decide_eq_true in Hk. cbn [fst] in Hk. subst k. exact Hin.
Qed.

Lemma firstName_NoDup c n m :
  NoDup (List.map fst m) → In (c, n) m → firstName c m = Some n.
Proof.
  unfold firstName. induction m as [|[k v] m IH]; [intros _ []|].
  cbn [List.map fst]. intros Hnd Hin. apply NoDup_cons in Hnd as [Hk Hnd].
  cbn [List.find fst]. destruct Hin as [[= -> ->]|Hin].
  - rewrite bool_decide_eq_true_2 by reflexivity. reflexivity.
  - destruct (bool_decide (k = c)) eqn:E; [|apply IH; assumption].
    apply bool_decide_eq_true in E. subst k. exfalso. apply Hk.
    apply list_elem_of_In. apply (in_map fst _ _ Hin).
Qed.

Lemma hasKey_In c m : hasKey c m = false → ¬ In c (List.map fst m).
Proof.
  unfold hasKey. induction m as [|[k v] m IH]; [intros _ []|].
  cbn [existsb List.map fst]. intros E. apply orb_false_iff in E as [Ek Em].
  apply bool_decide_eq_false in Ek. intros [->|Hin]; [congruence | exact (IH Em Hin)].
Qed.

(** First name wins: the map built from the accepted pairs has each code
    once, with the first name met for it. *)
Lemma fold_addAccepted qs : ∀ m,
  NoDup (List.map fst m) →
  NoDup (List.map fst (List.fold_left addAccepted qs m))
  ∧ ∀ c, firstName c (List.fold_left addAccepted qs m) = firstName c (m ++ qs).
Proof.
  induction qs as [|[c0 v0] qs IH]; intros m Hm.
  - cbn [List.fold_left]. rewrite app_nil_r. auto.
  - cbn [List.fold_left]. unfold addAccepted at 2 4. cbn [fst].
    destruct (hasKey c0 m) eqn:E.
    + destruct (IH m Hm) as [Hnd Hfn]. split; [exact Hnd|].
      intros c. rewrite Hfn, !firstName_app.
      destruct (firstName c m) eqn:Ec; [reflexivity|].
      unfold firstName at 2. cbn [List.find fst].
      destruct (bool_decide (c0 = c)) eqn:E0; [|reflexivity].
      apply bool_decide_eq_true in E0. subst c0.
      apply firstName_hasKey in E. contradiction.
    + assert (Hm' : NoDup (List.map fst (m ++ [(c0, v0)]))).
      { rewrite map_app. cbn [List.map fst]. apply NoDup_app. split; [exact Hm|].
        split; [|apply NoDup_singleton].
        intros x Hx Hx'. apply list_elem_of_In in Hx, Hx'. destruct Hx' as [<-|[]].
        exact (hasKey_In _ _ E Hx). }
      destruct (IH _ Hm') as [Hnd Hfn]. split; [exact Hnd|].
      intros c. rewrite Hfn, <- app_assoc. reflexivity.
Qed.

Lemma languagesData_pairs rs :
  languagesData (VArr rs)
  = sortByName (List.map pairEntry
                  (List.fold_left addAccepted (acceptedPairs (allPairs rs)) [])).
Proof.
  unfold languagesData. cbn [iterate]. rewrite fold_addRow, fold_addLanguage. reflexivity.
Qed.

Lemma languagesData_none rs :
  (∀ kv, In kv (allPairs rs) → test_lower3 (toLowerCase (fst kv)) = false) →
  languagesData (VArr rs) = Some [].
Proof.
  intros Hrs. rewrite languagesData_pairs.
  assert (acceptedPairs (allPairs rs) = []) as ->; [|reflexivity].
  unfold acceptedPairs. induction (allPairs rs) as [|kv ps IH]; [reflexivity|].
  cbn [List.filter]. rewrite (Hrs kv (or_introl eq_refl)).
  apply IH. intros kv' Hkv'. apply Hrs. right. exact Hkv'.
Qed.

Lemma accepted_In c n ps :
  In (c, n) (acceptedPairs ps) →
  test_lower3 c = true
  ∧ ∃ kv, In kv ps ∧ test_lower3 (toLowerCase (fst kv)) = true ∧ snd kv = n.
Proof.
  unfold acceptedPairs. intros Hin. apply in_map_iff in Hin as ([k v] & [= <- <-] & Hkv).
  apply filter_In in Hkv as [Hin Hk]. cbn [fst] in Hk. split; [exact Hk|].
  exists (k, v). auto.
Qed.

(** The languages transform when the first name met for each accepted code
    is a string: the map has each accepted code once, with that name. *)
Lemma languagesData_first rs :
  (∀ code name, firstName code (acceptedPairs (allPairs rs)) = Some name →
                isStr name = true) →
  let m := List.fold_left addAccepted (acceptedPairs (allPairs rs)) [] in
  languagesData (VArr rs) = Some (stableSort compareNames (List.map pairEntry m))
  ∧ NoDup (List.map fst m)
  ∧ (∀ c n, In (c, n) m ↔ firstName c (acceptedPairs (allPairs rs)) = Some n)
  ∧ (∀ c n, In (c, n) m → test_lower3 c = true ∧ isStr n = true).
Proof.
  intros Hrs m.
  destruct (fold_addAccepted (acceptedPairs (allPairs rs)) [] (NoDup_nil_2)) as [Hnd Hfn].
  fold m in Hnd, Hfn. cbn [app] in Hfn.
  assert (Hin : ∀ c n, In (c, n) m ↔ firstName c (acceptedPairs (allPairs rs)) = Some n).
  { intros c n. rewrite <- Hfn. split; [apply firstName_NoDup, Hnd | apply firstName_In]. }
  assert (Hm : ∀ c n, In (c, n) m → test_lower3 c = true ∧ isStr n = true).
  { intros c n Hcn. apply Hin in Hcn. split; [|apply (Hrs c n Hcn)].
    apply firstName_In, accepted_In in Hcn as [Ht _]. exact Ht. }
  split; [|split; [exact Hnd|split; [exact Hin | exact Hm]]].
  rewrite languagesData_pairs. fold m. apply sortByName_strings.
  rewrite forallb_forall. intros e He. apply in_map_iff in He as ([c n] & <- & Hcn).
  unfold pairEntry. cbn [fst snd]. rewrite nameOf_entry. apply (Hm c n Hcn).
Qed.

(** On entries whose names are strings, the order of the comparator is the
    order of [localeCompare] on the names. *)
Lemma sorted_namesAscend l :
  forallb (λ e, isStr (nameOf e)) l = true →
  StronglySorted nameLe l → StronglySorted namesAscend l.
Proof.
  intros Hl Hs. induction Hs as [|a l Hs IH Ha]; [constructor|].
  cbn [forallb] in Hl. apply andb_true_iff in Hl as [Hna Hl].
  constructor; [apply IH, Hl|].
  rewrite Forall_forall in Ha |- *. intros b Hb. specialize (Ha b Hb).
  rewrite forallb_forall in Hl. pose proof (Hl b (proj1 (list_elem_of_In _ _) Hb)) as Hnb.
  unfold nameLe, compareNames in Ha. unfold namesAscend. fold (nameOf a) (nameOf b).
  destruct (nameOf a) as [| | | | |na| |]; try discriminate Hna.
  destruct (nameOf b) as [| | | | |nb| |]; try discriminate Hnb.
  exists na, nb. auto.
Qed.

End TransformFacts.

(** ** The pipelines on a successful response *)

Section PipelineFacts.
Context `{Host}.

Lemma stored_after key data w :
  storage (setCache key data w).2 !! key
  = Some (JSON_stringify (VObj [(js "ts", VNum (clock w)); (js "data", data)])).
Proof. rewrite setCache_eval. cbn [snd storage]. apply lookup_insert_eq. Qed.

(** C10: a successful response whose rows all fail the filters of the
    transform is a success: the fetcher caches and returns the empty list,
    which is not the stub; and whenever the cache misses and the transform
    of the response succeeds, what is returned is the transformed data,
    written to the cache, never the stub branch. *)
Theorem empty_response_is_success (w : World) (c : value) :
  (∀ rs, (getCache (js "countries.v1") w).1 = Ok c → truthy c = false →
         body (remote w countriesUrl) = Some (VArr rs) →
         (∀ r, In r rs → keepCountry r = false) →
         fetchCountries w
         = (Ok (VArr []), (setCache (js "countries.v1") (VArr []) (afterFetch countriesUrl w)).2)
         ∧ storage (fetchCountries w).2 !! js "countries.v1"
           = Some (JSON_stringify
                     (VObj [(js "ts", VNum (clock (afterFetch countriesUrl w)));
                            (js "data", VArr [])]))
         ∧ VArr [] ≠ countriesStub)
  ∧ (∀ rs, (getCache (js "languages.v1") w).1 = Ok c → truthy c = false →
           body (remote w languagesUrl) = Some (VArr rs) →
           (∀ kv, In kv (allPairs rs) → test_lower3 (toLowerCase (fst kv)) = false) →
           fetchLanguages w
           = (Ok (VArr []), (setCache (js "languages.v1") (VArr []) (afterFetch languagesUrl w)).2)
           ∧ storage (fetchLanguages w).2 !! js "languages.v1"
             = Some (JSON_stringify
                       (VObj [(js "ts", VNum (clock (afterFetch languagesUrl w)));
                              (js "data", VArr [])]))
           ∧ VArr [] ≠ languagesStub)
  ∧ (∀ rows data, (getCache (js "countries.v1") w).1 = Ok c → truthy c = false →
                  body (remote w countriesUrl) = Some rows →
                  countriesData rows = Some data →
                  fetchCountries w
                  = (Ok (VArr data),
                     (setCache (js "countries.v1") (VArr data) (afterFetch countriesUrl w)).2))
  ∧ (∀ rows data, (getCache (js "languages.v1") w).1 = Ok c → truthy c = false →
                  body (remote w languagesUrl) = Some rows →
                  languagesData rows = Some data →
                  fetchLanguages w
                  = (Ok (VArr data),
                     (setCache (js "languages.v1") (VArr data) (afterFetch languagesUrl w)).2)).
Proof.
  split; [|split; [|split]].
  - intros rs Hc Hv Hb Hrs. rewrite fetchCountries_resolve.
    rewrite (resolve_remote _ _ _ _ w c _ [] Hc Hv Hb (countriesData_none rs Hrs)).
    split; [reflexivity|]. split; [apply stored_after | discriminate].
  - intros rs Hc Hv Hb Hrs. rewrite fetchLanguages_resolve.
    rewrite (resolve_remote _ _ _ _ w c _ [] Hc Hv Hb (languagesData_none rs Hrs)).
    split; [reflexivity|]. split; [apply stored_after | discriminate].
  - intros rows data Hc Hv Hb Hd. rewrite fetchCountries_resolve.
    apply (resolve_remote _ _ _ _ w c rows data Hc Hv Hb Hd).
  - intros rows data Hc Hv Hb Hd. rewrite fetchLanguages_resolve.
    apply (resolve_remote _ _ _ _ w c rows data Hc Hv Hb Hd).
Qed.

Context `{!ConsistentCompare}.

#[local] Instance VStr_inj : Inj (=) (=) VStr.
Proof. intros a b [= E]. exact E. Qed.

(** C6, amended: on a cache miss and a successful response whose rows carry
    strings, the countries pipeline drops the rows whose [cca3] or
    [name.common] is missing or empty, maps each remaining row to
    [{ code: uppercase(cca3), name: name.common }], keeps every mapped row,
    sorts them ascending by name under [localeCompare], writes the result to
    the cache under ["countries.v1"] and returns it. *)
Theorem countries_transform (w : World) (rs : list value) (c : value) :
  (getCache (js "countries.v1") w).1 = Ok c → truthy c = false →
  body (remote w countriesUrl) = Some (VArr rs) →
  (∀ r, In r rs → keepCountry r = true →
        isStr (getProp r (js "cca3")) = true
        ∧ isStr (getProp (getProp r (js "name")) (js "common")) = true) →
  ∃ data,
    fetchCountries w
    = (Ok (VArr data), (setCache (js "countries.v1") (VArr data) (afterFetch countriesUrl w)).2)
    ∧ storage (fetchCountries w).2 !! js "countries.v1"
      = Some (JSON_stringify
                (VObj [(js "ts", VNum (clock (afterFetch countriesUrl w)));
                       (js "data", VArr data)]))
    ∧ data = stableSort compareNames (countryRows rs)
    ∧ Permutation data (countryRows rs)
    ∧ StronglySorted nameLe data.
Proof.
  intros Hc Hv Hb Hrs. exists (stableSort compareNames (countryRows rs)).
  rewrite fetchCountries_resolve.
  rewrite (resolve_remote _ _ _ _ w c _ _ Hc Hv Hb (countriesData_typed rs Hrs)).
  split; [reflexivity|]. split; [apply stored_after|]. split; [reflexivity|].
  apply sorted_by_name.
Qed.

(** C7, amended: on a cache miss and a successful response in which the
    first name met for each accepted code is a string, every code-to-name
    pair of every row's language map is visited; a code is accepted only if
    its lower-cased form is three lower-case letters; each accepted code
    occurs once in the result, with the first name met for it, later ones
    being discarded whatever they are; and the entries are sorted ascending
    by name under [localeCompare], entries with equal names staying in the
    order in which their codes were first met.  The result is written to
    the cache under ["languages.v1"] and returned. *)
Theorem languages_transform (w : World) (rs : list value) (c : value) :
  (getCache (js "languages.v1") w).1 = Ok c → truthy c = false →
  body (remote w languagesUrl) = Some (VArr rs) →
  (∀ code name, firstName code (acceptedPairs (allPairs rs)) = Some name →
                isStr name = true) →
  ∃ data,
    fetchLanguages w
    = (Ok (VArr data), (setCache (js "languages.v1") (VArr data) (afterFetch languagesUrl w)).2)
    ∧ storage (fetchLanguages w).2 !! js "languages.v1"
      = Some (JSON_stringify
                (VObj [(js "ts", VNum (clock (afterFetch languagesUrl w)));
                       (js "data", VArr data)]))
    ∧ (∀ e, In e data →
            ∃ code name, e = entry code (VStr name) ∧ test_lower3 code = true
                         ∧ firstName code (acceptedPairs (allPairs rs))
                           = Some (VStr name))
    ∧ (∀ code name, firstName code (acceptedPairs (allPairs rs)) = Some name →
                    In (entry code name) data)
    ∧ NoDup (List.map (λ e, getProp e (js "code")) data)
    ∧ StronglySorted nameLe data
    ∧ StronglySorted namesAscend data
    ∧ data = stableSort compareNames
               (List.map pairEntry
                  (List.fold_left addAccepted (acceptedPairs (allPairs rs)) [])).
Proof.
  intros Hc Hv Hb Hrs.
  destruct (languagesData_first rs Hrs) as (Hd & Hnd & Hin & Hm).
  set (m := List.fold_left addAccepted (acceptedPairs (allPairs rs)) []) in *.
  exists (stableSort compareNames (List.map pairEntry m)).
  destruct (sorted_by_name (List.map pairEntry m)) as [Hperm Hsorted].
  rewrite fetchLanguages_resolve.
  rewrite (resolve_remote _ _ _ _ w c (VArr rs) _ Hc Hv Hb Hd).
  split; [reflexivity|]. split; [apply stored_after|].
  split; [|split; [|split; [|split; [exact Hsorted|split; [|reflexivity]]]]].
  - intros e He. apply (Permutation_in _ Hperm) in He.
    apply in_map_iff in He as ([k n] & <- & Hk).
    destruct (Hm k n Hk) as [Ht Hn]. destruct n as [| | | | |name| |]; try discriminate Hn.
    exists k, name. split; [reflexivity|]. split; [exact Ht | apply Hin, Hk].
  - intros code name Hf. apply (Permutation_in _ (Permutation_sym Hperm)).
    apply in_map_iff. exists (code, name). split; [reflexivity|]. apply Hin, Hf.
  - rewrite Hperm, map_map.
    assert (E : List.map (λ x, getProp (pairEntry x) (js "code")) m
                = List.map VStr (List.map fst m)).
    { rewrite map_map. apply map_ext. intros [k n]. reflexivity. }
    rewrite E. apply (NoDup_fmap_2 VStr _ Hnd).
  - apply sorted_namesAscend; [|exact Hsorted].
    rewrite forallb_forall. intros e He. apply (Permutation_in _ Hperm) in He.
    apply in_map_iff in He as ([k n] & <- & Hk).
    unfold pairEntry. cbn [fst snd]. rewrite nameOf_entry. apply (Hm k n Hk).
Qed.

End PipelineFacts.

(** ** Closed instances *)

Lemma empty_response_is_success_witness :
  let w := worldWith ∅ (answering (VArr [VNull; countryRow [] (js "Nowhere");
                                          languageRow [(js "en", js "English")]]) 80) in
  (@fetchCountries plainHost w).1 = Ok (VArr [])
  ∧ (@fetchLanguages plainHost w).1 = Ok (VArr []).
Proof.
  intros w. split.
  - pose proof (proj1 (@empty_response_is_success plainHost w VNull)
                  [VNull; countryRow [] (js "Nowhere"); languageRow [(js "en", js "English")]]
                  eq_refl eq_refl eq_refl) as E.
    rewrite (proj1 (E ltac:(intros r [<-|[<-|[<-|[]]]]; reflexivity))). reflexivity.
  - pose proof (proj1 (proj2 (@empty_response_is_success plainHost w VNull))
                  [VNull; countryRow [] (js "Nowhere"); languageRow [(js "en", js "English")]]
                  eq_refl eq_refl eq_refl) as E.
    rewrite (proj1 (E ltac:(intros kv [<-|[]]; reflexivity))). reflexivity.
Defined.

Lemma countries_transform_witness :
  let rs := [countryRow (js "fra") (js "France"); VNull;
             countryRow (js "DEU") (js "Germany"); countryRow [] (js "Nowhere");
             countryRow (js "bra") (js "Brazil")] in
  let w := worldWith ∅ (answering (VArr rs) 80) in
  ∃ data,
    (@fetchCountries plainHost w).1 = Ok (VArr data)
    ∧ data = [entry (js "BRA") (VStr (js "Brazil")); entry (js "FRA") (VStr (js "France"));
              entry (js "DEU") (VStr (js "Germany"))]
    ∧ StronglySorted (@nameLe plainHost) data.
Proof.
  intros rs w.
  destruct (@countries_transform plainHost plainHost_consistent w rs VNull
              eq_refl eq_refl eq_refl) as (data & E & _ & Ed & _ & Hs).
  - intros r [<-|[<-|[<-|[<-|[<-|[]]]]]]; intros Hk; try discriminate Hk;
      split; reflexivity.
  - exists data. split; [rewrite E; reflexivity|]. split; [|exact Hs].
    rewrite Ed. reflexivity.
Defined.

Lemma languages_transform_witness :
  let rs := [languageRow [(js "FRA", js "French"); (js "eng", js "English")];
             VNull;
             languageRow [(js "eng", js "Anglais"); (js "de", js "German")];
             VObj [(js "languages", VObj [(js "fra", VNum 5)])]] in
  let w := worldWith ∅ (answering (VArr rs) 80) in
  ∃ data,
    (@fetchLanguages plainHost w).1 = Ok (VArr data)
    ∧ data = [entry (js "eng") (VStr (js "English"));
              entry (js "fra") (VStr (js "French"))]
    ∧ StronglySorted (@namesAscend plainHost) data.
Proof.
  intros rs w.
  destruct (@languages_transform plainHost plainHost_consistent w rs VNull
              eq_refl eq_refl eq_refl) as (data & E & _ & _ & _ & _ & _ & Hs & Ed).
  - intros code name. unfold firstName.
    set (qs := acceptedPairs (allPairs rs)). vm_compute in qs. subst qs.
    cbn [List.find fst snd].
    repeat (destruct (bool_decide _)); intros [= <-]; reflexivity.
  - exists data. split; [rewrite E; reflexivity|]. split; [|exact Hs].
    rewrite Ed. reflexivity.
Defined.

(** C7 as stated fails: when the names of the accepted codes are not
    strings, the comparator raises in the sort, and the pipeline returns the
    stub and caches nothing.  The rows hold the codes [nld] and [swe], which
    are accepted; the list returned holds neither. *)
Lemma languages_names_not_strings :
  let rs := [VObj [(js "languages",
                    VObj [(js "nld", VNum 5); (js "swe", VNum 7)])]] in
  let w := worldWith ∅ (answering (VArr rs) 80) in
  (@fetchLanguages plainHost w).1 = Ok languagesStub
  ∧ storage (@fetchLanguages plainHost w).2 = storage w
  ∧ @acceptedPairs plainHost (@allPairs plainHost rs)
    = [(js "nld", VNum 5); (js "swe", VNum 7)]
  ∧ match languagesStub with
    | VArr l => Forall (λ e, getProp e (js "code") ≠ VStr (js "nld")
                             ∧ getProp e (js "code") ≠ VStr (js "swe")) l
    | _ => False
    end.
Proof.
  intros rs w. split; [|split; [|split]].
  - rewrite fetchLanguages_resolve, resolve_eval. reflexivity.
  - rewrite fetchLanguages_resolve, resolve_eval. reflexivity.
  - reflexivity.
  - unfold languagesStub. repeat constructor; discriminate.
Qed.

(** C6 as stated fails: the countries pipeline does not deduplicate, and it
    does not check that a code has three letters.  Two rows for [USA] both
    stay, and the row whose code is [Fr] is kept as [FR]. *)
Lemma countries_not_deduplicated :
  let usa := countryRow (js "usa") (js "United States") in
  let w := worldWith ∅ (answering (VArr [usa; countryRow (js "Fr") (js "France"); usa]) 80) in
  (@fetchCountries plainHost w).1
  = Ok (VArr [entry (js "FR") (VStr (js "France"));
              entry (js "USA") (VStr (js "United States"));
              entry (js "USA") (VStr (js "United States"))])
  ∧ ¬ NoDup [entry (js "FR") (VStr (js "France"));
             entry (js "USA") (VStr (js "United States"));
             entry (js "USA") (VStr (js "United States"))].
Proof.
  intros usa w. split.
  - rewrite fetchCountries_resolve, resolve_eval. reflexivity.
  - intros Hnd. apply NoDup_cons in Hnd as [_ Hnd]. apply NoDup_cons in Hnd as [Hin _].
    apply Hin. left.
Qed.

(* ================================================================== *)
(** * Further properties of the normalizers and the composer *)

Lemma dropWhile_snoc {A} (p : A → bool) l c :
  dropWhile p (l ++ [c])
  = match dropWhile p l with
    | [] => if p c then [] else [c]
    | x :: r => (x :: r) ++ [c]
    end.
Proof.
  induction l as [|x l IH]; [reflexivity|]. cbn [app dropWhile].
  destruct (p x); [exact IH | reflexivity].
Qed.

Lemma trimEnd_cons c r :
  trimEnd (c :: r)
  = match trimEnd r with
    | [] => if isWhiteSpace c then [] else [c]
    | x :: t => c :: x :: t
    end.
Proof.
  unfold trimEnd. cbn [rev]. rewrite dropWhile_snoc.
  destruct (dropWhile isWhiteSpace (rev r)) as [|x t] eqn:E; cbn [rev].
  - destruct (isWhiteSpace c); reflexivity.
  - rewrite rev_app_distr. cbn [rev app].
    destruct (rev t ++ [x]) as [|y u] eqn:E'; [destruct (rev t); discriminate|].
    reflexivity.
Qed.

(** A string is trimmed when neither end is white space. *)
Lemma trimStart_fixed s :
  match s with c :: _ => isWhiteSpace c = false | [] => True end →
  trimStart s = s.
Proof. destruct s as [|c r]; [reflexivity|]. unfold trimStart. simpl. intros ->. reflexivity. Qed.

Lemma trimEnd_fixed s :
  (∀ l c, s = l ++ [c] → isWhiteSpace c = false) → trimEnd s = s.
Proof.
  induction s as [|x r IH]; intros Hlast; [reflexivity|].
  rewrite trimEnd_cons. destruct r as [|y r'].
  - cbn. rewrite (Hlast [] x eq_refl). reflexivity.
  - rewrite IH by (intros l c E; apply (Hlast (x :: l) c); rewrite E; reflexivity).
    reflexivity.
Qed.

Lemma trimStart_head s :
  match trimStart s with c :: _ => isWhiteSpace c = false | [] => True end.
Proof.
  unfold trimStart. induction s as [|c r IH]; [exact I|]. cbn [dropWhile].
  destruct (isWhiteSpace c) eqn:E; [exact IH | exact E].
Qed.

Lemma trimEnd_last s : ∀ l c, trimEnd s = l ++ [c] → isWhiteSpace c = false.
Proof.
  induction s as [|x r IH]; intros l c E.
  - destruct l; discriminate.
  - rewrite trimEnd_cons in E. destruct (trimEnd r) as [|y t] eqn:Er.
    + destruct (isWhiteSpace x) eqn:Ex; [destruct l; discriminate|].
      destruct l as [|a [|b l']]; try discriminate. injection E as <-. exact Ex.
    + destruct l as [|a l']; [discriminate|]. injection E as _ E.
      apply (IH l' c E).
Qed.

Lemma trimEnd_head s :
  match s with c :: _ => isWhiteSpace c = false | [] => True end →
  match trimEnd s with c :: _ => isWhiteSpace c = false | [] => True end.
Proof.
  destruct s as [|c r]; [intros _; exact I|]. intros Hc. rewrite trimEnd_cons.
  destruct (trimEnd r); [rewrite Hc|]; exact Hc.
Qed.

Lemma trim_head s :
  match trim s with c :: _ => isWhiteSpace c = false | [] => True end.
Proof. apply trimEnd_head, trimStart_head. Qed.

Lemma trim_last s : ∀ l c, trim s = l ++ [c] → isWhiteSpace c = false.
Proof. apply trimEnd_last. Qed.

Lemma collapseSpaces_snoc s : ∀ b c,
  isWhiteSpace c = false →
  collapseSpaces b (s ++ [c]) = collapseSpaces b s ++ [c].
Proof.
  induction s as [|x r IH]; intros b c Hc; cbn [app collapseSpaces].
  - rewrite Hc. reflexivity.
  - destruct (isWhiteSpace x); [destruct b|]; rewrite IH by exact Hc; reflexivity.
Qed.

Lemma collapseSpaces_head s :
  match s with c :: _ => isWhiteSpace c = false | [] => True end →
  match collapseSpaces false s with c :: _ => isWhiteSpace c = false | [] => True end.
Proof. destruct s as [|c r]; [intros _; exact I|]. cbn. intros Hc. rewrite Hc. exact Hc. Qed.

Lemma collapseSpaces_single s : ∀ b, singleSpaced b (collapseSpaces b s) = true.
Proof.
  induction s as [|c r IH]; intros b; [reflexivity|]. cbn [collapseSpaces].
  destruct (isWhiteSpace c) eqn:Ec.
  - destruct b; [apply IH|]. cbn [singleSpaced].
    change (isWhiteSpace 32) with true. cbn. apply IH.
  - cbn [singleSpaced]. rewrite Ec. apply IH.
Qed.

Lemma collapseSpaces_fixed s : ∀ b, singleSpaced b s = true → collapseSpaces b s = s.
Proof.
  induction s as [|c r IH]; intros b Hs; [reflexivity|].
  cbn [singleSpaced] in Hs. cbn [collapseSpaces].
  destruct (isWhiteSpace c) eqn:Ec.
  - apply andb_true_iff in Hs as [Hs Hr]. apply andb_true_iff in Hs as [Hc Hb].
    apply N.eqb_eq in Hc. subst c. destruct b; [discriminate Hb|].
    rewrite (IH true Hr). reflexivity.
  - rewrite (IH false Hs). reflexivity.
Qed.

Lemma singleSpaced_weaken s : singleSpaced true s = true → singleSpaced false s = true.
Proof.
  destruct s as [|c r]; [reflexivity|]. cbn [singleSpaced].
  destruct (isWhiteSpace c); [|auto]. rewrite andb_false_r. discriminate.
Qed.

Lemma singleSpaced_spaces s : ∀ b c,
  singleSpaced b s = true → In c s → isWhiteSpace c = true → c = 32.
Proof.
  induction s as [|x r IH]; intros b c Hs Hin Hc; [destruct Hin|].
  cbn [singleSpaced] in Hs. destruct (isWhiteSpace x) eqn:Ex.
  - apply andb_true_iff in Hs as [Hs Hr]. apply andb_true_iff in Hs as [Hx _].
    apply N.eqb_eq in Hx. destruct Hin as [<-|Hin]; [exact Hx | exact (IH _ _ Hr Hin Hc)].
  - destruct Hin as [<-|Hin]; [congruence | exact (IH _ _ Hs Hin Hc)].
Qed.

Lemma singleSpaced_no_double pre post : ∀ b,
  singleSpaced b (pre ++ 32 :: 32 :: post) = false.
Proof.
  induction pre as [|x r IH]; intros b; cbn [app singleSpaced].
  - change (isWhiteSpace 32) with true. cbn. rewrite andb_false_r. reflexivity.
  - destruct (isWhiteSpace x); rewrite IH; [apply andb_false_r | reflexivity].
Qed.

Lemma snoc_cases {A} (l : list A) : l = [] ∨ ∃ l' c, l = l' ++ [c].
Proof. induction l using rev_ind; [left; reflexivity | right; eauto]. Qed.

Section CleanFacts.
Context `{Host}.

Lemma clean_head s :
  match clean s with c :: _ => isWhiteSpace c = false | [] => True end.
Proof. unfold clean. apply collapseSpaces_head, trim_head. Qed.

Lemma clean_last s : ∀ l c, clean s = l ++ [c] → isWhiteSpace c = false.
Proof.
  unfold clean. intros l c E.
  destruct (snoc_cases (trim (orEmpty s))) as [Et|(t & x & Et)].
  - rewrite Et in E. destruct l; discriminate.
  - pose proof (trim_last (orEmpty s) _ _ Et) as Hx.
    rewrite Et, (collapseSpaces_snoc _ _ _ Hx) in E.
    apply app_inj_tail in E as [_ <-]. exact Hx.
Qed.

Lemma clean_single s : singleSpaced false (clean s) = true.
Proof. apply collapseSpaces_single. Qed.

Lemma clean_fixed s :
  match s with c :: _ => isWhiteSpace c = false | [] => True end →
  (∀ l c, s = l ++ [c] → isWhiteSpace c = false) →
  singleSpaced false s = true →
  clean (Some s) = s.
Proof.
  intros Hh Hl Hs. unfold clean, trim. cbn [orEmpty].
  rewrite (trimStart_fixed s Hh), (trimEnd_fixed s Hl).
  apply collapseSpaces_fixed, Hs.
Qed.

(** X1: the shape of a cleaned string: it neither begins nor ends with
    white space, the only white space in it is the space character, and no
    two spaces are adjacent. *)
Theorem clean_shape (s : option jsstring) :
  match clean s with c :: _ => isWhiteSpace c = false | [] => True end
  ∧ (∀ l c, clean s = l ++ [c] → isWhiteSpace c = false)
  ∧ (∀ c, In c (clean s) → isWhiteSpace c = true → c = 32)
  ∧ (∀ pre post, clean s ≠ pre ++ 32 :: 32 :: post).
Proof.
  split; [apply clean_head|]. split; [apply clean_last|]. split.
  - intros c. apply (singleSpaced_spaces _ false), clean_single.
  - intros pre post E. pose proof (clean_single s) as Hs.
    rewrite E, singleSpaced_no_double in Hs. discriminate.
Qed.

Lemma clean_idem s : clean (Some (clean s)) = clean s.
Proof. apply clean_fixed; [apply clean_head | apply clean_last | apply clean_single]. Qed.

(** X2: [clean] is idempotent, and a string of the cleaned shape is left as
    it is: in particular a string without white space. *)
Theorem clean_idempotent :
  (∀ s, clean (Some (clean s)) = clean s)
  ∧ (∀ s, forallb (λ c, negb (isWhiteSpace c)) s = true → clean (Some s) = s).
Proof.
  split.
  - exact clean_idem.
  - intros s Hs. rewrite forallb_forall in Hs.
    assert (Hc : ∀ c, In c s → isWhiteSpace c = false).
    { intros c Hin. apply negb_true_iff, Hs, Hin. }
    apply clean_fixed.
    + destruct s as [|c r]; [exact I|]. apply Hc. left. reflexivity.
    + intros l c ->. apply Hc, in_or_app. right. left. reflexivity.
    + clear Hs. generalize false. induction s as [|c r IH]; intros b; [reflexivity|].
      cbn [singleSpaced]. rewrite (Hc c (or_introl eq_refl)). apply IH.
      intros c' Hin. apply Hc. right. exact Hin.
Qed.

Lemma yyyymmdd_app a b :
  yyyymmdd (Some (a ++ b)) = yyyymmdd (Some a) ++ yyyymmdd (Some b).
Proof. unfold yyyymmdd. cbn [orEmpty]. apply List.filter_app. Qed.

Lemma yyyymmdd_fixed s : ¬ In 45 s → yyyymmdd (Some s) = s.
Proof.
  unfold yyyymmdd. cbn [orEmpty]. induction s as [|c r IH]; intros Hs; [reflexivity|].
  cbn [List.filter]. destruct (N.eqb_spec c 45) as [->|Hc].
  - exfalso. apply Hs. left. reflexivity.
  - cbn [negb]. rewrite IH; [reflexivity|]. intros Hin. apply Hs. right. exact Hin.
Qed.

Lemma yyyymmdd_no_hyphen d : ¬ In 45 (yyyymmdd d).
Proof.
  unfold yyyymmdd. intros Hin. apply filter_In in Hin as [_ Hc]. discriminate Hc.
Qed.

(** X3: [yyyymmdd] removes every hyphen and nothing else: its result holds
    no hyphen, a text without hyphens is unchanged, and the parts on either
    side of a hyphen are treated separately; hence [y-m-d] becomes [ymd]
    when the three parts hold no hyphen. *)
Theorem yyyymmdd_removes_hyphens :
  (∀ d, ¬ In 45 (yyyymmdd d))
  ∧ (∀ s, ¬ In 45 s → yyyymmdd (Some s) = s)
  ∧ (∀ a b, yyyymmdd (Some (a ++ js "-" ++ b)) = yyyymmdd (Some a) ++ yyyymmdd (Some b))
  ∧ (∀ y m d, ¬ In 45 y → ¬ In 45 m → ¬ In 45 d →
              yyyymmdd (Some (y ++ js "-" ++ m ++ js "-" ++ d)) = y ++ m ++ d).
Proof.
  split; [exact yyyymmdd_no_hyphen|]. split; [exact yyyymmdd_fixed|].
  assert (Hsplit : ∀ a b, yyyymmdd (Some (a ++ js "-" ++ b))
                          = yyyymmdd (Some a) ++ yyyymmdd (Some b)).
  { intros a b. rewrite !yyyymmdd_app. reflexivity. }
  split; [exact Hsplit|].
  intros y m d Hy Hm Hd. rewrite Hsplit, Hsplit.
  rewrite !yyyymmdd_fixed by assumption. reflexivity.
Qed.

Lemma normLang_idem s : normLang (Some (normLang s)) = normLang s.
Proof.
  unfold normLang at 2 3. destruct (test_lower3 _) eqn:E.
  - apply normLang_code, E.
  - reflexivity.
Qed.

Lemma normCountry_idem s : normCountry (Some (normCountry s)) = normCountry s.
Proof.
  unfold normCountry at 2 3. destruct (test_upper3 _) eqn:E.
  - apply normCountry_code, E.
  - reflexivity.
Qed.

(** X4: normalizing is idempotent, and what the normalizers return is what
    [composeName] uses: replacing each input by its normal form ([clean] for
    the name and the event, [normLang], [normCountry], [yyyymmdd]) leaves
    the composed name unchanged. *)
Theorem composeName_normal_forms (i : ComposeInput) :
  normLang (Some (normLang (lang i))) = normLang (lang i)
  ∧ normCountry (Some (normCountry (country i))) = normCountry (country i)
  ∧ composeName {| name := Some (clean (name i));
                   lang := Some (normLang (lang i));
                   country := Some (normCountry (country i));
                   event := Some (clean (event i));
                   includeDate := includeDate i;
                   date := Some (yyyymmdd (date i)) |}
    = composeName i.
Proof.
  split; [apply normLang_idem|]. split; [apply normCountry_idem|].
  rewrite !composeName_refines. unfold composeName_spec, localeToken.
  cbn [name lang country event includeDate date].
  rewrite normLang_idem, normCountry_idem.
  rewrite !clean_idem.
  rewrite (yyyymmdd_fixed _ (yyyymmdd_no_hyphen (date i))). reflexivity.
Qed.

End CleanFacts.

Section ComposeFacts.
Context `{Host}.

Lemma join_nil {A} (sep : list A) parts :
  Forall (λ p, p ≠ []) parts → join sep parts = [] → parts = [].
Proof.
  intros Hp E. destruct parts as [|p rest]; [reflexivity|].
  apply Forall_cons in Hp as [Hp _]. exfalso. apply Hp.
  destruct rest; cbn [join] in E; [exact E|].
  apply app_eq_nil in E as [E _]. exact E.
Qed.

Lemma filter_truthy_nil (parts : list (list N)) :
  List.filter truthyStr parts = [] ↔ Forall (λ p, p = []) parts.
Proof.
  induction parts as [|p rest IH]; cbn [List.filter].
  - split; [constructor | reflexivity].
  - destruct p as [|c p']; cbn [truthyStr].
    + rewrite IH. split; [intros Hr; constructor; [reflexivity | exact Hr]|].
      intros Hr. apply Forall_cons in Hr as [_ Hr]. exact Hr.
    + split; [discriminate|]. intros Hr. apply Forall_cons in Hr as [Hr _]. discriminate Hr.
Qed.

Lemma filter_truthy_nonempty (parts : list (list N)) :
  Forall (λ p, p ≠ []) (List.filter truthyStr parts).
Proof.
  apply Forall_forall. intros p Hp. apply list_elem_of_In, filter_In in Hp as [_ Hp].
  intros ->. discriminate Hp.
Qed.

Lemma localeToken_nil l c :
  localeToken l c = [] ↔ normLang l = [] ∧ normCountry c = [].
Proof.
  unfold localeToken. split.
  - intros E. apply join_nil in E; [|apply filter_truthy_nonempty].
    apply filter_truthy_nil in E. apply Forall_cons in E as [El E].
    apply Forall_cons in E as [Ec _]. auto.
  - intros [-> ->]. reflexivity.
Qed.

(** X5: the composed name is empty exactly when nothing usable was entered:
    the name and the event are blank, neither code is valid, and the date is
    left out or empty. *)
Theorem composeName_empty_iff (i : ComposeInput) :
  composeName i = []
  ↔ clean (name i) = [] ∧ normLang (lang i) = [] ∧ normCountry (country i) = []
    ∧ clean (event i) = []
    ∧ (includeDate i = false ∨ yyyymmdd (date i) = []).
Proof.
  rewrite composeName_refines. unfold composeName_spec. split.
  - intros E. apply join_nil in E; [|apply filter_truthy_nonempty].
    apply filter_truthy_nil in E. apply Forall_cons in E as [En E].
    apply Forall_cons in E as [El E]. apply Forall_cons in E as [Ee E].
    apply Forall_cons in E as [Ed _]. apply localeToken_nil in El as [El Ec].
    repeat split; try assumption. destruct (includeDate i); [right; exact Ed | left; reflexivity].
  - intros (-> & El & Ec & -> & Ed).
    rewrite (proj2 (localeToken_nil _ _) (conj El Ec)).
    destruct Ed as [-> | Ed]; [reflexivity|]. rewrite Ed. destruct (includeDate i); reflexivity.
Qed.

End ComposeFacts.

(* ================================================================== *)
(** * Further properties of the cache and the fetchers *)

Section CacheMore.
Context `{Host}.

(** X6: [setCache] touches one key only and replaces its entry wholesale:
    what [getCache] returns for any other key is unchanged, the clock and
    the request log are unchanged, and a second write under the same key
    leaves no trace of the first. *)
Theorem setCache_frame (k : jsstring) (X Y : value) (w : World) :
  (∀ k', k' ≠ k →
         storage (setCache k X w).2 !! k' = storage w !! k'
         ∧ (getCache k' (setCache k X w).2).1 = (getCache k' w).1)
  ∧ clock (setCache k X w).2 = clock w
  ∧ requests (setCache k X w).2 = requests w
  ∧ (setCache k Y (setCache k X w).2).2 = (setCache k Y w).2.
Proof.
  rewrite !setCache_eval. cbn [snd storage clock requests remote].
  split; [|split; [reflexivity|split; [reflexivity|]]].
  - intros k' Hk. assert (E : <[k:=JSON_stringify
                                      (VObj [(js "ts", VNum (clock w)); (js "data", X)])]>
                                (storage w) !! k' = storage w !! k').
    { apply lookup_insert_ne. congruence. }
    split; [exact E|]. rewrite !getCache_eval. cbn [fst storage clock]. rewrite E.
    reflexivity.
  - rewrite insert_insert_eq. reflexivity.
Qed.

(** The policy touches nothing but its key and the request log. *)
Lemma resolve_frame key url transform stub w :
  ∃ v, (resolve key url transform stub w).1 = Ok v
       ∧ (∀ k, k ≠ key →
               storage (resolve key url transform stub w).2 !! k = storage w !! k)
       ∧ (requests (resolve key url transform stub w).2 = requests w
          ∨ requests (resolve key url transform stub w).2 = requests w ++ [url])
       ∧ remote (resolve key url transform stub w).2 = remote w.
Proof.
  rewrite resolve_eval. cbv zeta. rewrite getCache_eval. cbn [fst].
  match goal with |- context [truthy ?c] => destruct (truthy c) end.
  - eexists. cbn [fst snd]. repeat split; auto.
  - destruct (body (remote w url)) as [rows|]; [destruct (transform rows) as [data|]|].
    + eexists. rewrite setCache_eval. cbn [fst snd storage requests remote afterFetch].
      split; [reflexivity|]. split; [|split; [right; reflexivity | reflexivity]].
      intros k Hk. apply lookup_insert_ne. congruence.
    + eexists. cbn [fst snd storage requests remote afterFetch].
      split; [reflexivity|]. split; [reflexivity|]. split; [right; reflexivity | reflexivity].
    + eexists. cbn [fst snd storage requests remote afterFetch].
      split; [reflexivity|]. split; [reflexivity|]. split; [right; reflexivity | reflexivity].
Qed.

(** X7: the fetchers never raise, whatever the storage holds and the
    network answers; each writes to no key but its own, issues at most one
    request, to its own address, and leaves the other fetcher's cache entry
    alone. *)
Theorem fetchers_total (w : World) :
  (∃ v, (fetchCountries w).1 = Ok v
        ∧ (∀ k, k ≠ js "countries.v1" →
                storage (fetchCountries w).2 !! k = storage w !! k)
        ∧ (requests (fetchCountries w).2 = requests w
           ∨ requests (fetchCountries w).2 = requests w ++ [countriesUrl]))
  ∧ (∃ v, (fetchLanguages w).1 = Ok v
          ∧ (∀ k, k ≠ js "languages.v1" →
                  storage (fetchLanguages w).2 !! k = storage w !! k)
          ∧ (requests (fetchLanguages w).2 = requests w
             ∨ requests (fetchLanguages w).2 = requests w ++ [languagesUrl]))
  ∧ (getCache (js "languages.v1") (atTime (clock w) (fetchCountries w).2)).1
    = (getCache (js "languages.v1") w).1
  ∧ (getCache (js "countries.v1") (atTime (clock w) (fetchLanguages w).2)).1
    = (getCache (js "countries.v1") w).1.
Proof.
  rewrite fetchCountries_resolve, fetchLanguages_resolve.
  destruct (resolve_frame (js "countries.v1") countriesUrl countriesData countriesStub w)
    as (v1 & E1 & F1 & R1 & _).
  destruct (resolve_frame (js "languages.v1") languagesUrl languagesData languagesStub w)
    as (v2 & E2 & F2 & R2 & _).
  split; [eauto|]. split; [eauto|]. split.
  - rewrite !getCache_eval. cbn [fst atTime storage clock].
    rewrite F1 by discriminate. reflexivity.
  - rewrite !getCache_eval. cbn [fst atTime storage clock].
    rewrite F2 by discriminate. reflexivity.
Qed.

End CacheMore.

Lemma forallb_perm {A} (p : A → bool) l l' :
  Permutation l l' → forallb p l = forallb p l'.
Proof.
  induction 1 as [|x l l' _ IH|x y l|l l' l'' _ IH1 _ IH2]; cbn [forallb].
  - reflexivity.
  - rewrite IH. reflexivity.
  - destruct (p x), (p y); reflexivity.
  - rewrite IH1. exact IH2.
Qed.

Section FetchMore.
Context `{Host}.

Lemma plainJSON_sorted l :
  forallb plainJSON l = true → plainJSON (VArr (stableSort compareNames l)) = true.
Proof.
  intros Hl. cbn [plainJSON].
  rewrite (forallb_perm plainJSON _ l (stableSort_perm compareNames l)). exact Hl.
Qed.

Lemma plainJSON_entry c n : isStr n = true → plainJSON (entry c n) = true.
Proof. destruct n; try discriminate. reflexivity. Qed.

Lemma plainJSON_countryRows rs :
  (∀ r, In r rs → keepCountry r = true →
        isStr (getProp r (js "cca3")) = true
        ∧ isStr (getProp (getProp r (js "name")) (js "common")) = true) →
  forallb plainJSON (countryRows rs) = true.
Proof.
  intros Hrs. rewrite forallb_forall. intros e He. unfold countryRows in He.
  apply in_map_iff in He as (r & <- & Hr). apply filter_In in Hr as [Hr Hk].
  apply plainJSON_entry, (Hrs r Hr Hk).
Qed.

(** The languages transform on rows whose accepted names are strings. *)
Lemma languagesData_typed rs :
  (∀ kv, In kv (allPairs rs) → test_lower3 (toLowerCase (fst kv)) = true →
         isStr (snd kv) = true) →
  let m := List.fold_left addAccepted (acceptedPairs (allPairs rs)) [] in
  languagesData (VArr rs) = Some (stableSort compareNames (List.map pairEntry m))
  ∧ (∀ c n, In (c, n) m → test_lower3 c = true ∧ isStr n = true).
Proof.
  intros Hrs m.
  destruct (fold_addAccepted (acceptedPairs (allPairs rs)) [] (NoDup_nil_2)) as [Hnd Hfn].
  fold m in Hnd, Hfn. cbn [app] in Hfn.
  assert (Hm : ∀ c n, In (c, n) m → test_lower3 c = true ∧ isStr n = true).
  { intros c n Hin. apply (firstName_NoDup c n m Hnd) in Hin. rewrite Hfn in Hin.
    apply firstName_In, accepted_In in Hin as (Ht & kv & Hkv & Hk & <-).
    split; [exact Ht | apply (Hrs kv Hkv Hk)]. }
  split; [|exact Hm].
  rewrite languagesData_pairs. fold m. apply sortByName_strings.
  rewrite forallb_forall. intros e He. apply in_map_iff in He as ([c n] & <- & Hin).
  unfold pairEntry. cbn [fst snd]. rewrite nameOf_entry. apply (Hm c n Hin).
Qed.

Lemma plainJSON_languages rs :
  (∀ kv, In kv (allPairs rs) → test_lower3 (toLowerCase (fst kv)) = true →
         isStr (snd kv) = true) →
  forallb plainJSON
    (List.map pairEntry (List.fold_left addAccepted (acceptedPairs (allPairs rs)) []))
  = true.
Proof.
  intros Hrs. destruct (languagesData_typed rs Hrs) as [_ Hm].
  rewrite forallb_forall. intros e He. apply in_map_iff in He as ([c n] & <- & Hin).
  apply plainJSON_entry, (Hm c n Hin).
Qed.

(** A successful fetch is served from the cache afterwards. *)
Lemma resolve_then_hit key url transform stub w c rows data w2 :
  (getCache key w).1 = Ok c → truthy c = false →
  body (remote w url) = Some rows → transform rows = Some data →
  plainJSON (VArr data) = true →
  safeInteger (clock (afterFetch url w)) = true →
  storage w2 !! key = storage (resolve key url transform stub w).2 !! key →
  (clock w2 - clock (afterFetch url w) <= TTL)%Z →
  (resolve key url transform stub w).1 = Ok (VArr data)
  ∧ resolve key url transform stub w2 = (Ok (VArr data), w2).
Proof.
  intros Hc Hv Hb Ht Hp Hsafe Hs Hle.
  rewrite (resolve_remote _ _ _ _ w c rows data Hc Hv Hb Ht) in Hs |- *.
  cbn [fst snd] in Hs |- *. split; [reflexivity|]. rewrite stored_after in Hs.
  pose proof (getCache_written key (VArr data) _ w2 Hsafe Hp Hs) as E.
  destruct (Z.gtb_spec (clock w2 - clock (afterFetch url w)) TTL) as [Hgt|_]; [lia|].
  apply resolve_hit; [rewrite E; reflexivity | reflexivity].
Qed.

(** X8: what a fetcher obtained from the remote source is served from the
    cache afterwards: in any later world that still holds the entry, no more
    than the TTL after it was written, the fetcher returns the same data and
    changes nothing, so that no request is issued. *)
Theorem second_fetch_hits_cache (w w2 : World) (rs : list value) (c : value) :
  (getCache (js "countries.v1") w).1 = Ok c → truthy c = false →
  body (remote w countriesUrl) = Some (VArr rs) →
  (∀ r, In r rs → keepCountry r = true →
        isStr (getProp r (js "cca3")) = true
        ∧ isStr (getProp (getProp r (js "name")) (js "common")) = true) →
  safeInteger (clock (afterFetch countriesUrl w)) = true →
  storage w2 !! js "countries.v1" = storage (fetchCountries w).2 !! js "countries.v1" →
  (clock w2 - clock (afterFetch countriesUrl w) <= TTL)%Z →
  ∃ data, (fetchCountries w).1 = Ok (VArr data)
          ∧ fetchCountries w2 = (Ok (VArr data), w2).
Proof.
  intros Hc Hv Hb Hrs Hsafe Hs Hle. rewrite fetchCountries_resolve in *.
  eexists. apply (resolve_then_hit _ _ _ _ w c (VArr rs) _ w2 Hc Hv Hb
                    (countriesData_typed rs Hrs)); try assumption.
  apply plainJSON_sorted, plainJSON_countryRows, Hrs.
Qed.

(** X9: the same for the languages. *)
Theorem second_language_fetch_hits_cache (w w2 : World) (rs : list value) (c : value) :
  (getCache (js "languages.v1") w).1 = Ok c → truthy c = false →
  body (remote w languagesUrl) = Some (VArr rs) →
  (∀ kv, In kv (allPairs rs) → test_lower3 (toLowerCase (fst kv)) = true →
         isStr (snd kv) = true) →
  safeInteger (clock (afterFetch languagesUrl w)) = true →
  storage w2 !! js "languages.v1" = storage (fetchLanguages w).2 !! js "languages.v1" →
  (clock w2 - clock (afterFetch languagesUrl w) <= TTL)%Z →
  ∃ data, (fetchLanguages w).1 = Ok (VArr data)
          ∧ fetchLanguages w2 = (Ok (VArr data), w2).
Proof.
  intros Hc Hv Hb Hrs Hsafe Hs Hle. rewrite fetchLanguages_resolve in *.
  eexists. apply (resolve_then_hit _ _ _ _ w c (VArr rs) _ w2 Hc Hv Hb
                    (proj1 (languagesData_typed rs Hrs))); try assumption.
  apply plainJSON_sorted, plainJSON_languages, Hrs.
Qed.

End FetchMore.

Section ResponseShapes.
Context `{Host}.

Lemma addRow_string m s : addRow m (VStr s) = m.
Proof. reflexivity. Qed.

Lemma fold_addRow_strings l : ∀ m, List.fold_left addRow (List.map VStr l) m = m.
Proof. induction l as [|s l IH]; intros m; [reflexivity|]. cbn. apply IH. Qed.

Lemma mapThrow_none {A B} (f : A → option B) l x :
  In x l → f x = None → mapThrow f l = None.
Proof.
  induction l as [|y r IH]; [intros []|]. intros [->|Hin] Hx; cbn [mapThrow].
  - rewrite Hx. reflexivity.
  - rewrite (IH Hin Hx). destruct (f y); reflexivity.
Qed.

(** X10: a response that parses but is not an array.  The countries
    pipeline falls back to its stub on every such response and caches
    nothing.  The languages pipeline does so too, except on a JSON string:
    the loop iterates its characters, none of which has languages, so the
    empty list is cached and returned. *)
Theorem non_array_response (w : World) (rows c : value) :
  (∀ l, rows ≠ VArr l) →
  ((getCache (js "countries.v1") w).1 = Ok c → truthy c = false →
   body (remote w countriesUrl) = Some rows →
   (fetchCountries w).1 = Ok countriesStub
   ∧ storage (fetchCountries w).2 = storage w)
  ∧ ((getCache (js "languages.v1") w).1 = Ok c → truthy c = false →
     body (remote w languagesUrl) = Some rows →
     match rows with
     | VStr _ =>
         (fetchLanguages w).1 = Ok (VArr [])
         ∧ storage (fetchLanguages w).2 !! js "languages.v1"
           = Some (JSON_stringify
                     (VObj [(js "ts", VNum (clock (afterFetch languagesUrl w)));
                            (js "data", VArr [])]))
     | _ =>
         (fetchLanguages w).1 = Ok languagesStub
         ∧ storage (fetchLanguages w).2 = storage w
     end).
Proof.
  intros Hrows. split.
  - intros Hc Hv Hb. rewrite fetchCountries_resolve.
    rewrite (resolve_fallback _ _ _ _ w c Hc Hv).
    + split; reflexivity.
    + rewrite Hb. destruct rows; try reflexivity. destruct (Hrows elems eq_refl).
  - intros Hc Hv Hb. rewrite fetchLanguages_resolve.
    assert (Hstub : languagesData rows = None →
                    (resolve (js "languages.v1") languagesUrl languagesData languagesStub w).1
                    = Ok languagesStub
                    ∧ storage (resolve (js "languages.v1") languagesUrl languagesData
                                 languagesStub w).2 = storage w).
    { intros Hd. rewrite (resolve_fallback _ _ _ _ w c Hc Hv); [split; reflexivity|].
      rewrite Hb. exact Hd. }
    destruct rows as [| |b|z|l|s|l|l]; try (apply Hstub; reflexivity).
    + assert (Hd : languagesData (VStr s) = Some []).
      { unfold languagesData. cbn [iterate]. rewrite fold_addRow_strings. reflexivity. }
      rewrite (resolve_remote _ _ _ _ w c _ _ Hc Hv Hb Hd). cbn [fst snd].
      split; [reflexivity | apply stored_after].
    + destruct (Hrows l eq_refl).
Qed.

(** X11: one bad row spoils the response.  If a row that passes the filter
    has a [cca3] that is not a string, the countries transform raises, and
    the pipeline returns the stub and caches nothing, whatever the other
    rows are. *)
Theorem ill_typed_row_falls_back (w : World) (rs : list value) (r c : value) :
  (getCache (js "countries.v1") w).1 = Ok c → truthy c = false →
  body (remote w countriesUrl) = Some (VArr rs) →
  In r rs → keepCountry r = true → isStr (getProp r (js "cca3")) = false →
  countriesData (VArr rs) = None
  ∧ (fetchCountries w).1 = Ok countriesStub
  ∧ storage (fetchCountries w).2 = storage w.
Proof.
  intros Hc Hv Hb Hin Hk Hs.
  assert (Hd : countriesData (VArr rs) = None).
  { unfold countriesData. cbn [asArray].
    rewrite (mapThrow_none countryEntry _ r); [reflexivity | apply filter_In; auto |].
    unfold countryEntry. destruct (getProp r (js "cca3")); try reflexivity. discriminate Hs. }
  split; [exact Hd|]. rewrite fetchCountries_resolve.
  rewrite (resolve_fallback _ _ _ _ w c Hc Hv); [split; reflexivity|].
  rewrite Hb. exact Hd.
Qed.

End ResponseShapes.

Section FetchedCodes.
Context `{Host}.

Lemma latin_upper c :
  isLowerLatin c || isUpperLatin c = true →
  isWhiteSpace c = false ∧ isAscii c = true ∧ isUpperLatin (asciiUpper c) = true.
Proof.
  intros Hc. unfold asciiUpper. destruct (isLowerLatin c) eqn:Hl.
  - clear Hc. unfold isLowerLatin, isUpperLatin, isWhiteSpace, isAscii in *.
    repeat split; units.
  - cbn [orb] in Hc. clear Hl. unfold isUpperLatin, isWhiteSpace, isAscii in *.
    repeat split; units.
Qed.

Lemma normCountry_latin a b c :
  isLowerLatin a || isUpperLatin a = true →
  isLowerLatin b || isUpperLatin b = true →
  isLowerLatin c || isUpperLatin c = true →
  toUpperCase [a; b; c] = [asciiUpper a; asciiUpper b; asciiUpper c]
  ∧ normCountry (Some [a; b; c]) = [asciiUpper a; asciiUpper b; asciiUpper c]
  ∧ test_upper3 [asciiUpper a; asciiUpper b; asciiUpper c] = true.
Proof.
  intros Ha Hb Hc.
  destruct (latin_upper a Ha) as (Wa & Aa & Ua), (latin_upper b Hb) as (Wb & Ab & Ub),
    (latin_upper c Hc) as (Wc & Ac & Uc).
  assert (Eu : toUpperCase [a; b; c] = [asciiUpper a; asciiUpper b; asciiUpper c]).
  { unfold toUpperCase. cbn [forallb]. rewrite Aa, Ab, Ac. reflexivity. }
  assert (Et : test_upper3 [asciiUpper a; asciiUpper b; asciiUpper c] = true).
  { cbn [test_upper3]. rewrite Ua, Ub, Uc. reflexivity. }
  split; [exact Eu|]. split; [|exact Et].
  unfold normCountry, trim, trimStart, trimEnd. cbn [orEmpty dropWhile rev app].
  rewrite Wa. cbn [dropWhile rev app]. rewrite Wc. cbn [rev app].
  rewrite Eu, Et. reflexivity.
Qed.

(** X12: the codes that the transforms produce are codes that the composer
    accepts.  When the languages are fetched from rows in which the first
    name met for each accepted code is a string, every entry of the list
    has a non-empty code that [normLang] returns unchanged; and a country
    row that passes the filter and whose [cca3] is three Latin letters, in
    either case, yields the code that [normCountry] makes of it, which
    [normCountry] returns unchanged. *)
Theorem fetched_codes_are_normal (w : World) (rs : list value) (c : value) :
  ((getCache (js "languages.v1") w).1 = Ok c → truthy c = false →
   body (remote w languagesUrl) = Some (VArr rs) →
   (∀ code name, firstName code (acceptedPairs (allPairs rs)) = Some name →
                 isStr name = true) →
   ∃ data, (fetchLanguages w).1 = Ok (VArr data)
           ∧ ∀ e, In e data →
                  ∃ code name, e = entry code name ∧ normLang (Some code) = code
                               ∧ code ≠ [])
  ∧ (∀ r x y z,
       keepCountry r = true →
       getProp r (js "cca3") = VStr [x; y; z] →
       isLowerLatin x || isUpperLatin x = true →
       isLowerLatin y || isUpperLatin y = true →
       isLowerLatin z || isUpperLatin z = true →
       ∃ name, countryEntry r = Some (entry (normCountry (Some [x; y; z])) name)
               ∧ normCountry (Some (normCountry (Some [x; y; z])))
                 = normCountry (Some [x; y; z])
               ∧ normCountry (Some [x; y; z]) ≠ []).
Proof.
  split.
  - intros Hc Hv Hb Hrs. destruct (languagesData_first rs Hrs) as (Hd & _ & _ & Hm).
    eexists. rewrite fetchLanguages_resolve.
    rewrite (resolve_remote _ _ _ _ w c _ _ Hc Hv Hb Hd). split; [reflexivity|].
    intros e He. apply (Permutation_in _ (stableSort_perm compareNames _)) in He.
    apply in_map_iff in He as ([code name] & <- & Hin).
    destruct (Hm code name Hin) as [Ht _]. exists code, name.
    split; [reflexivity|]. split; [apply normLang_code, Ht|].
    intros ->. discriminate Ht.
  - intros r x y z _ Hr Hx Hy Hz.
    destruct (normCountry_latin x y z Hx Hy Hz) as (Eu & En & Et).
    eexists. unfold countryEntry. rewrite Hr, Eu, En. split; [reflexivity|].
    split; [apply normCountry_code, Et | discriminate].
Qed.

End FetchedCodes.

(* ================================================================== *)
(** * Properties of the application state *)

Section StateFacts.
Context `{Host}.

(** [restoreState] in closed form. *)
Lemma restoreState_eval st w :
  restoreState st w =
  (Ok match JSON_parse (match storage w !! js "folderNameState" with
                        | Some text => text
                        | None => js "null"
                        end) with
      | None => st
      | Some state =>
          if negb (truthy state) then st
          else App.setForm
                 (orElse (getProp state (js "courseName")) (VStr []))
                 (orElse (getProp state (js "langInput")) (VStr []))
                 (orElse (getProp state (js "countryInput")) (VStr []))
                 (orElse (getProp state (js "eventInput")) (VStr []))
                 (orElse (getProp state (js "includeDate")) (VBool false))
                 (orElse (getProp state (js "dateInput")) (VStr []))
                 st
      end, w).
Proof.
  unfold restoreState, tryCatch, bind, getItem, orThrow, ret, throw.
  destruct (JSON_parse _) as [state|]; [|reflexivity].
  destruct (truthy state); reflexivity.
Qed.

Lemma saveState_eval st w :
  saveState st w =
  (Ok tt, {| storage := <[js "folderNameState" := savedText st]> (storage w);
             clock := clock w; requests := requests w; remote := remote w |}).
Proof. reflexivity. Qed.

Lemma orElse_str v d : isStr v = true → isStr d = true → truthy d = false → orElse v d = v.
Proof.
  destruct v; try discriminate. intros _ Hd Hf. unfold orElse. cbn [truthy].
  destruct s; [|reflexivity]. destruct d; try discriminate.
  cbn [truthy truthyStr] in *. destruct s; [reflexivity | discriminate].
Qed.

Lemma plainJSON_str v : isStr v = true → plainJSON v = true.
Proof. destruct v; try discriminate; reflexivity. Qed.

Lemma plainJSON_bool v : isBool v = true → plainJSON v = true.
Proof. destruct v; try discriminate; reflexivity. Qed.

Lemma plainJSON_object l :
  forallb (λ kx, plainJSON (snd kx)) l = true → plainKeys (List.map fst l) = true →
  plainJSON (VObj l) = true.
Proof. intros Hl Hk. cbn [plainJSON]. rewrite Hl, Hk. reflexivity. Qed.

Lemma parse_savedText st :
  typedForm st = true →
  JSON_parse (savedText st)
  = Some (VObj [(js "courseName", App.courseName st);
                (js "langInput", App.langInput st);
                (js "countryInput", App.countryInput st);
                (js "eventInput", App.eventInput st);
                (js "includeDate", App.includeDate st);
                (js "dateInput", App.dateInput st)]).
Proof.
  unfold typedForm. intros Ht. repeat (apply andb_true_iff in Ht as [Ht ?]).
  apply parse_stringify. apply plainJSON_object; [|vm_compute; reflexivity].
  cbn [forallb snd].
  rewrite (plainJSON_str (App.courseName st)), (plainJSON_str (App.langInput st)),
    (plainJSON_str (App.countryInput st)), (plainJSON_str (App.eventInput st)),
    (plainJSON_bool (App.includeDate st)), (plainJSON_str (App.dateInput st))
    by assumption.
  reflexivity.
Qed.

(** What [restoreState] makes of a text that [saveState] wrote. *)
Lemma restoreState_saved st st' w :
  typedForm st = true →
  storage w !! js "folderNameState" = Some (savedText st) →
  restoreState st' w
  = (Ok (App.setForm (App.courseName st) (App.langInput st) (App.countryInput st)
           (App.eventInput st) (App.includeDate st) (App.dateInput st) st'), w).
Proof.
  intros Ht Hs. rewrite restoreState_eval, Hs, (parse_savedText st Ht).
  cbn [truthy negb]. f_equal. f_equal.
  unfold typedForm in Ht. repeat (apply andb_true_iff in Ht as [Ht ?]).
  change (getProp _ (js "courseName")) with (App.courseName st).
  change (getProp _ (js "langInput")) with (App.langInput st).
  change (getProp _ (js "countryInput")) with (App.countryInput st).
  change (getProp _ (js "eventInput")) with (App.eventInput st).
  change (getProp _ (js "includeDate")) with (App.includeDate st).
  change (getProp _ (js "dateInput")) with (App.dateInput st).
  assert (orElse (App.includeDate st) (VBool false) = App.includeDate st) as ->.
  { destruct (App.includeDate st) as [| |[|]| | | | |]; try discriminate; reflexivity. }
  rewrite (orElse_str (App.courseName st)), (orElse_str (App.langInput st)),
    (orElse_str (App.countryInput st)), (orElse_str (App.eventInput st)),
    (orElse_str (App.dateInput st)) by (assumption || reflexivity).
  reflexivity.
Qed.

(** X13: saving and restoring is a round trip on the form.  After
    [saveState] on a form of five strings and a boolean, [restoreState] in
    any state and any world that still holds the saved text sets the six
    fields to the saved ones, changes nothing else, and the preview is the
    one of the saved state. *)
Theorem save_restore_round_trip (st st' : App.t) (w w' : World) :
  typedForm st = true →
  storage w' !! js "folderNameState"
  = storage (saveState st w).2 !! js "folderNameState" →
  ∃ st'', restoreState st' w' = (Ok st'', w')
          ∧ App.courseName st'' = App.courseName st
          ∧ App.langInput st'' = App.langInput st
          ∧ App.countryInput st'' = App.countryInput st
          ∧ App.eventInput st'' = App.eventInput st
          ∧ App.includeDate st'' = App.includeDate st
          ∧ App.dateInput st'' = App.dateInput st
          ∧ sameWidgets st'' st'
          ∧ preview st'' = preview st.
Proof.
  intros Ht Hs. rewrite saveState_eval in Hs. cbn [snd storage] in Hs.
  rewrite lookup_insert_eq in Hs. eexists.
  split; [apply (restoreState_saved st st' w' Ht Hs)|].
  repeat split; reflexivity.
Qed.

(** X14: [restoreState] never raises and never writes; it leaves the state
    as it is when nothing is stored or the stored text does not parse, and
    otherwise touches the six form fields only.  A stored value that parses
    and is truthy but lacks the fields, such as [{}], resets the form to
    empty strings and [false]. *)
Theorem restoreState_total (st : App.t) (w : World) :
  (∃ st', restoreState st w = (Ok st', w) ∧ sameWidgets st' st)
  ∧ (storage w !! js "folderNameState" = None → restoreState st w = (Ok st, w))
  ∧ (∀ text, storage w !! js "folderNameState" = Some text →
             JSON_parse text = None → restoreState st w = (Ok st, w))
  ∧ (∀ text x, storage w !! js "folderNameState" = Some text →
               JSON_parse text = Some x → truthy x = true →
               (∀ k, getProp x k = VUndef) →
               restoreState st w
               = (Ok (App.setForm (VStr []) (VStr []) (VStr []) (VStr [])
                        (VBool false) (VStr []) st), w)).
Proof.
  rewrite restoreState_eval. split; [|split; [|split]].
  - eexists. split; [reflexivity|].
    destruct (JSON_parse _) as [x|]; [|repeat split].
    destruct (negb (truthy x)); repeat split.
  - intros ->. reflexivity.
  - intros text -> ->. reflexivity.
  - intros text x -> -> Hx Hk. rewrite Hx, !Hk. reflexivity.
Qed.

End StateFacts.

Section KeyFacts.
Context `{Host}.

Lemma optionAt_In options idx lang :
  optionAt options idx = Some lang →
  In lang options ∧ (0 <= idx < Z.of_nat (length options))%Z.
Proof.
  unfold optionAt. destruct (Z.leb_spec 0 idx) as [Hi|]; [|discriminate].
  intros E. split; [apply (nth_error_In _ _ E)|].
  pose proof (proj1 (nth_error_Some options (Z.to_nat idx)) ltac:(congruence)). lia.
Qed.

Lemma optionAt_None options idx :
  optionAt options idx = None → ¬ (0 <= idx < Z.of_nat (length options))%Z.
Proof.
  unfold optionAt. destruct (Z.leb_spec 0 idx) as [Hi|]; [|lia].
  intros E. apply nth_error_None in E. lia.
Qed.

Lemma filteredLangs_In st lang : In lang (filteredLangs st) → In lang (App.langs st).
Proof.
  unfold filteredLangs. destruct (negb _); [auto|]. intros Hin.
  apply filter_In in Hin as [Hin _]. exact Hin.
Qed.

Lemma filteredCountries_In st c : In c (filteredCountries st) → In c (App.countries st).
Proof.
  unfold filteredCountries. destruct (negb _); [auto|]. intros Hin.
  apply filter_In in Hin as [Hin _]. exact Hin.
Qed.

(** X15: what a key press in the language picker does.  On Enter or Tab in
    an open picker whose active index points at one of the filtered
    options, [langInput] becomes the code of that option, which is an entry
    of the loaded languages, the picker closes, the form is saved under
    ["folderNameState"], and nothing else changes; Enter prevents the
    default action and Tab does not.  The handler never raises, and it
    changes [langInput] or writes to local storage in that case only: in
    every other case the input and the world are as before.  An index of at
    least -1 stays so. *)
Theorem lang_keydown (key : jsstring) (st : App.t) (w : World) :
  (App.langOpen st = true → key = js "Enter" ∨ key = js "Tab" →
   ∀ lang, optionAt (filteredLangs st) (App.langActiveIdx st) = Some lang →
     let st' := App.setLang (VStr (Entry.code lang)) false (App.langActiveIdx st) st in
     handleLangKeydown key st w
     = (Ok (st', bool_decide (key = js "Enter")),
        {| storage := <[js "folderNameState" := savedText st']> (storage w);
           clock := clock w; requests := requests w; remote := remote w |})
     ∧ In lang (App.langs st))
  ∧ ∃ st' pd w',
    handleLangKeydown key st w = (Ok (st', pd), w')
    ∧ ((App.langInput st' = App.langInput st ∧ w' = w)
       ∨ (∃ lang,
            App.langOpen st = true ∧ (key = js "Enter" ∨ key = js "Tab")
            ∧ optionAt (filteredLangs st) (App.langActiveIdx st) = Some lang
            ∧ In lang (App.langs st)
            ∧ (0 <= App.langActiveIdx st < Z.of_nat (length (filteredLangs st)))%Z
            ∧ App.langInput st' = VStr (Entry.code lang)
            ∧ App.langOpen st' = false
            ∧ storage w' = <[js "folderNameState" := savedText st']> (storage w)))
    ∧ ((-1 <= App.langActiveIdx st)%Z → (-1 <= App.langActiveIdx st')%Z).
Proof.
  split.
  { intros Ho Hk lang Eo. split; [|apply filteredLangs_In, (optionAt_In _ _ _ Eo)].
    unfold handleLangKeydown. cbv zeta. rewrite Ho, Eo. cbn [negb].
    unfold bind, selectLang, saveState, setItem, ret, savedText.
    destruct Hk as [-> | ->].
    - rewrite !(bool_decide_eq_false_2 (js "Enter" = js "ArrowDown")) by discriminate.
      rewrite !(bool_decide_eq_false_2 (js "Enter" = js "ArrowUp")) by discriminate.
      rewrite !(bool_decide_eq_true_2 (js "Enter" = js "Enter")) by reflexivity.
      reflexivity.
    - rewrite !(bool_decide_eq_false_2 (js "Tab" = js "ArrowDown")) by discriminate.
      rewrite !(bool_decide_eq_false_2 (js "Tab" = js "ArrowUp")) by discriminate.
      rewrite !(bool_decide_eq_false_2 (js "Tab" = js "Enter")) by discriminate.
      rewrite !(bool_decide_eq_false_2 (js "Tab" = js "Escape")) by discriminate.
      rewrite !(bool_decide_eq_true_2 (js "Tab" = js "Tab")) by reflexivity.
      reflexivity. }
  unfold handleLangKeydown. destruct (App.langOpen st) eqn:Ho; cbn [negb].
  - destruct (bool_decide (key = js "ArrowDown")) eqn:K1.
    { eexists _, _, _. split; [reflexivity|]. cbn [App.langInput App.langActiveIdx App.setLang].
      split; [left; auto | lia]. }
    destruct (bool_decide (key = js "ArrowUp")) eqn:K2.
    { eexists _, _, _. split; [reflexivity|]. cbn [App.langInput App.langActiveIdx App.setLang].
      split; [left; auto | lia]. }
    destruct (bool_decide (key = js "Enter")) eqn:K3.
    { apply bool_decide_eq_true in K3.
      destruct (optionAt (filteredLangs st) (App.langActiveIdx st)) as [lang|] eqn:Eo.
      - destruct (optionAt_In _ _ _ Eo) as [Hin Hr].
        unfold bind, selectLang, saveState, setItem, ret.
        eexists _, _, _. split; [reflexivity|].
        cbn [App.langInput App.langOpen App.langActiveIdx App.setLang storage].
        split; [|auto]. right. exists lang.
        split; [reflexivity|]. split; [left; exact K3|]. split; [reflexivity|].
        split; [apply filteredLangs_In, Hin|]. split; [exact Hr|].
        split; [reflexivity|]. split; reflexivity.
      - eexists _, _, _. split; [reflexivity|]. split; [left; auto | auto]. }
    destruct (bool_decide (key = js "Escape")) eqn:K4.
    { eexists _, _, _. split; [reflexivity|]. cbn [App.langInput App.langActiveIdx App.setLang].
      split; [left; auto | auto]. }
    destruct (bool_decide (key = js "Tab")) eqn:K5.
    { apply bool_decide_eq_true in K5.
      destruct (optionAt (filteredLangs st) (App.langActiveIdx st)) as [lang|] eqn:Eo.
      - destruct (optionAt_In _ _ _ Eo) as [Hin Hr].
        unfold bind, selectLang, saveState, setItem, ret.
        eexists _, _, _. split; [reflexivity|].
        cbn [App.langInput App.langOpen App.langActiveIdx App.setLang storage].
        split; [|auto]. right. exists lang.
        split; [reflexivity|]. split; [right; exact K5|]. split; [reflexivity|].
        split; [apply filteredLangs_In, Hin|]. split; [exact Hr|].
        split; [reflexivity|]. split; reflexivity.
      - unfold bind, ret. eexists _, _, _. split; [reflexivity|].
        cbn [App.langInput App.langActiveIdx App.setLang]. split; [left; auto | auto]. }
    eexists _, _, _. split; [reflexivity|]. split; [left; auto | auto].
  - destruct (bool_decide (key = js "ArrowDown")).
    + eexists _, _, _. split; [reflexivity|]. cbn [App.langInput App.langActiveIdx App.setLang].
      split; [left; auto | auto].
    + eexists _, _, _. split; [reflexivity|]. split; [left; auto | auto].
Qed.

(** X16: what a key press in the country picker does.  On Enter or Tab in
    an open picker whose active index points at one of the filtered
    options, [countryInput] becomes the code of that option, which is an
    entry of the loaded countries, the picker closes, the form is saved
    under ["folderNameState"], and nothing else changes; Enter prevents the
    default action and Tab does not.  The handler never raises, and it
    changes [countryInput] or writes to local storage in that case only: in
    every other case the input and the world are as before.  An index of at
    least -1 stays so. *)
Theorem country_keydown (key : jsstring) (st : App.t) (w : World) :
  (App.countryOpen st = true → key = js "Enter" ∨ key = js "Tab" →
   ∀ country, optionAt (filteredCountries st) (App.countryActiveIdx st) = Some country →
     let st' := App.setCountry (VStr (Entry.code country)) false (App.countryActiveIdx st) st in
     handleCountryKeydown key st w
     = (Ok (st', bool_decide (key = js "Enter")),
        {| storage := <[js "folderNameState" := savedText st']> (storage w);
           clock := clock w; requests := requests w; remote := remote w |})
     ∧ In country (App.countries st))
  ∧ ∃ st' pd w',
    handleCountryKeydown key st w = (Ok (st', pd), w')
    ∧ ((App.countryInput st' = App.countryInput st ∧ w' = w)
       ∨ (∃ country,
            App.countryOpen st = true ∧ (key = js "Enter" ∨ key = js "Tab")
            ∧ optionAt (filteredCountries st) (App.countryActiveIdx st) = Some country
            ∧ In country (App.countries st)
            ∧ (0 <= App.countryActiveIdx st < Z.of_nat (length (filteredCountries st)))%Z
            ∧ App.countryInput st' = VStr (Entry.code country)
            ∧ App.countryOpen st' = false
            ∧ storage w' = <[js "folderNameState" := savedText st']> (storage w)))
    ∧ ((-1 <= App.countryActiveIdx st)%Z → (-1 <= App.countryActiveIdx st')%Z).
Proof.
  split.
  { intros Ho Hk country Eo. split; [|apply filteredCountries_In, (optionAt_In _ _ _ Eo)].
    unfold handleCountryKeydown. cbv zeta. rewrite Ho, Eo. cbn [negb].
    unfold bind, selectCountry, saveState, setItem, ret, savedText.
    destruct Hk as [-> | ->].
    - rewrite !(bool_decide_eq_false_2 (js "Enter" = js "ArrowDown")) by discriminate.
      rewrite !(bool_decide_eq_false_2 (js "Enter" = js "ArrowUp")) by discriminate.
      rewrite !(bool_decide_eq_true_2 (js "Enter" = js "Enter")) by reflexivity.
      reflexivity.
    - rewrite !(bool_decide_eq_false_2 (js "Tab" = js "ArrowDown")) by discriminate.
      rewrite !(bool_decide_eq_false_2 (js "Tab" = js "ArrowUp")) by discriminate.
      rewrite !(bool_decide_eq_false_2 (js "Tab" = js "Enter")) by discriminate.
      rewrite !(bool_decide_eq_false_2 (js "Tab" = js "Escape")) by discriminate.
      rewrite !(bool_decide_eq_true_2 (js "Tab" = js "Tab")) by reflexivity.
      reflexivity. }
  unfold handleCountryKeydown. destruct (App.countryOpen st) eqn:Ho; cbn [negb].
  - destruct (bool_decide (key = js "ArrowDown")) eqn:K1.
    { eexists _, _, _. split; [reflexivity|]. cbn [App.countryInput App.countryActiveIdx App.setCountry].
      split; [left; auto | lia]. }
    destruct (bool_decide (key = js "ArrowUp")) eqn:K2.
    { eexists _, _, _. split; [reflexivity|]. cbn [App.countryInput App.countryActiveIdx App.setCountry].
      split; [left; auto | lia]. }
    destruct (bool_decide (key = js "Enter")) eqn:K3.
    { apply bool_decide_eq_true in K3.
      destruct (optionAt (filteredCountries st) (App.countryActiveIdx st)) as [country|] eqn:Eo.
      - destruct (optionAt_In _ _ _ Eo) as [Hin Hr].
        unfold bind, selectCountry, saveState, setItem, ret.
        eexists _, _, _. split; [reflexivity|].
        cbn [App.countryInput App.countryOpen App.countryActiveIdx App.setCountry storage].
        split; [|auto]. right. exists country.
        split; [reflexivity|]. split; [left; exact K3|]. split; [reflexivity|].
        split; [apply filteredCountries_In, Hin|]. split; [exact Hr|].
        split; [reflexivity|]. split; reflexivity.
      - eexists _, _, _. split; [reflexivity|]. split; [left; auto | auto]. }
    destruct (bool_decide (key = js "Escape")) eqn:K4.
    { eexists _, _, _. split; [reflexivity|]. cbn [App.countryInput App.countryActiveIdx App.setCountry].
      split; [left; auto | auto]. }
    destruct (bool_decide (key = js "Tab")) eqn:K5.
    { apply bool_decide_eq_true in K5.
      destruct (optionAt (filteredCountries st) (App.countryActiveIdx st)) as [country|] eqn:Eo.
      - destruct (optionAt_In _ _ _ Eo) as [Hin Hr].
        unfold bind, selectCountry, saveState, setItem, ret.
        eexists _, _, _. split; [reflexivity|].
        cbn [App.countryInput App.countryOpen App.countryActiveIdx App.setCountry storage].
        split; [|auto]. right. exists country.
        split; [reflexivity|]. split; [right; exact K5|]. split; [reflexivity|].
        split; [apply filteredCountries_In, Hin|]. split; [exact Hr|].
        split; [reflexivity|]. split; reflexivity.
      - unfold bind, ret. eexists _, _, _. split; [reflexivity|].
        cbn [App.countryInput App.countryActiveIdx App.setCountry]. split; [left; auto | auto]. }
    eexists _, _, _. split; [reflexivity|]. split; [left; auto | auto].
  - destruct (bool_decide (key = js "ArrowDown")).
    + eexists _, _, _. split; [reflexivity|]. cbn [App.countryInput App.countryActiveIdx App.setCountry].
      split; [left; auto | auto].
    + eexists _, _, _. split; [reflexivity|]. split; [left; auto | auto].
Qed.

End KeyFacts.

Section ArrowFacts.
Context `{Host}.

Lemma optionAt_Some options idx :
  (0 <= idx < Z.of_nat (length options))%Z → ∃ e, optionAt options idx = Some e.
Proof.
  intros Hi. unfold optionAt. destruct (Z.leb_spec 0 idx); [|lia].
  destruct (nth_error options (Z.to_nat idx)) as [e|] eqn:E; [eauto|].
  apply nth_error_None in E. lia.
Qed.

Lemma filteredLangs_setLang input open idx st :
  filteredLangs (App.setLang input open idx st) = filteredLangs st.
Proof. reflexivity. Qed.

Lemma filteredCountries_setCountry input open idx st :
  filteredCountries (App.setCountry input open idx st) = filteredCountries st.
Proof. reflexivity. Qed.

(** X17: the arrow keys keep the active index on an option.  In an open
    picker with at least one option and an index from -1 (nothing active)
    up to the last option, ArrowDown and ArrowUp leave the picker open, the
    options, the input and the world unchanged, and move the index to an
    option: one further, or one back, stopping at the ends; so Enter then
    selects an option.  This holds for both pickers. *)
Theorem arrow_keys_stay_in_range (st : App.t) (w : World) (key : jsstring) :
  key = js "ArrowDown" ∨ key = js "ArrowUp" →
  (App.langOpen st = true →
   (0 < Z.of_nat (length (filteredLangs st)))%Z →
   (-1 <= App.langActiveIdx st < Z.of_nat (length (filteredLangs st)))%Z →
   ∃ st', handleLangKeydown key st w = (Ok (st', true), w)
          ∧ App.langOpen st' = true ∧ App.langInput st' = App.langInput st
          ∧ filteredLangs st' = filteredLangs st
          ∧ (0 <= App.langActiveIdx st' < Z.of_nat (length (filteredLangs st)))%Z
          ∧ App.langActiveIdx st'
            = (if bool_decide (key = js "ArrowDown")
               then Z.min (App.langActiveIdx st + 1)
                      (Z.of_nat (length (filteredLangs st)) - 1)
               else Z.max (App.langActiveIdx st - 1) 0)
          ∧ ∃ lang, optionAt (filteredLangs st') (App.langActiveIdx st') = Some lang)
  ∧ (App.countryOpen st = true →
     (0 < Z.of_nat (length (filteredCountries st)))%Z →
     (-1 <= App.countryActiveIdx st < Z.of_nat (length (filteredCountries st)))%Z →
     ∃ st', handleCountryKeydown key st w = (Ok (st', true), w)
            ∧ App.countryOpen st' = true ∧ App.countryInput st' = App.countryInput st
            ∧ filteredCountries st' = filteredCountries st
            ∧ (0 <= App.countryActiveIdx st'
               < Z.of_nat (length (filteredCountries st)))%Z
            ∧ App.countryActiveIdx st'
              = (if bool_decide (key = js "ArrowDown")
                 then Z.min (App.countryActiveIdx st + 1)
                        (Z.of_nat (length (filteredCountries st)) - 1)
                 else Z.max (App.countryActiveIdx st - 1) 0)
            ∧ ∃ country, optionAt (filteredCountries st') (App.countryActiveIdx st')
                         = Some country).
Proof.
  intros Hkey. split.
  - intros Ho Hn Hi. unfold handleLangKeydown. rewrite Ho. cbn [negb].
    destruct Hkey as [-> | ->].
    + rewrite bool_decide_eq_true_2 by reflexivity.
      eexists. split; [reflexivity|]. cbn [App.langOpen App.langInput App.langActiveIdx App.setLang].
      split; [first [exact Ho | reflexivity]|]. split; [reflexivity|]. split; [reflexivity|].
      split; [lia|]. split; [reflexivity|].
      apply optionAt_Some. rewrite filteredLangs_setLang.
      cbn [App.langActiveIdx App.setLang]. lia.
    + rewrite bool_decide_eq_false_2 by discriminate.
      rewrite bool_decide_eq_true_2 by reflexivity.
      eexists. split; [reflexivity|]. cbn [App.langOpen App.langInput App.langActiveIdx App.setLang].
      split; [first [exact Ho | reflexivity]|]. split; [reflexivity|]. split; [reflexivity|].
      split; [lia|]. split; [reflexivity|].
      apply optionAt_Some. rewrite filteredLangs_setLang.
      cbn [App.langActiveIdx App.setLang]. lia.
  - intros Ho Hn Hi. unfold handleCountryKeydown. rewrite Ho. cbn [negb].
    destruct Hkey as [-> | ->].
    + rewrite bool_decide_eq_true_2 by reflexivity.
      eexists. split; [reflexivity|].
      cbn [App.countryOpen App.countryInput App.countryActiveIdx App.setCountry].
      split; [first [exact Ho | reflexivity]|]. split; [reflexivity|]. split; [reflexivity|].
      split; [lia|]. split; [reflexivity|].
      apply optionAt_Some. rewrite filteredCountries_setCountry.
      cbn [App.countryActiveIdx App.setCountry]. lia.
    + rewrite bool_decide_eq_false_2 by discriminate.
      rewrite bool_decide_eq_true_2 by reflexivity.
      eexists. split; [reflexivity|].
      cbn [App.countryOpen App.countryInput App.countryActiveIdx App.setCountry].
      split; [first [exact Ho | reflexivity]|]. split; [reflexivity|]. split; [reflexivity|].
      split; [lia|]. split; [reflexivity|].
      apply optionAt_Some. rewrite filteredCountries_setCountry.
      cbn [App.countryActiveIdx App.setCountry]. lia.
Qed.

End ArrowFacts.

(** ** The filtered options *)

Lemma startsWith_prefix s : ∀ q, startsWith s q = true ↔ ∃ post, s = q ++ post.
Proof.
  induction s as [|b s IH]; intros [|a q]; cbn [startsWith].
  - split; [exists []; reflexivity | reflexivity].
  - split; [discriminate | intros [post E]; discriminate E].
  - split; [eexists; reflexivity | reflexivity].
  - rewrite andb_true_iff, IH, N.eqb_eq. split.
    + intros [-> [post ->]]. exists post. reflexivity.
    + intros [post [= -> ->]]. split; [reflexivity | eauto].
Qed.

Lemma includes_infix s : ∀ q, includes s q = true ↔ ∃ pre post, s = pre ++ q ++ post.
Proof.
  induction s as [|b s IH]; intros q; cbn [includes]; rewrite orb_true_iff, startsWith_prefix.
  - split.
    + intros [[post E]|E]; [exists [], post; exact E | discriminate E].
    + intros (pre & post & E). left. destruct pre; [exists post; exact E | discriminate E].
  - rewrite IH. split.
    + intros [[post E]|(pre & post & E)]; [exists [], post; exact E|].
      exists (b :: pre), post. rewrite E. reflexivity.
    + intros (pre & post & E). destruct pre as [|x pre]; [left; exists post; exact E|].
      right. injection E as _ E. eauto.
Qed.

Lemma includes_refl s : includes s s = true.
Proof. apply includes_infix. exists [], []. rewrite app_nil_r. reflexivity. Qed.

Lemma includes_trans s q2 q1 :
  includes s q2 = true → includes q2 q1 = true → includes s q1 = true.
Proof.
  rewrite !includes_infix. intros (p2 & t2 & ->) (p1 & t1 & ->).
  exists (p2 ++ p1), (t1 ++ t2). rewrite <- !app_assoc. reflexivity.
Qed.

Lemma includes_nil_r (q : jsstring) : includes [] q = true → q = [].
Proof. destruct q; [reflexivity | discriminate]. Qed.

Section FilterFacts.
Context `{Host}.

Lemma toLowerCase_ascii s : forallb isAscii s = true → toLowerCase s = List.map asciiLower s.
Proof. intros Hs. unfold toLowerCase. rewrite Hs. reflexivity. Qed.

(** Lower-casing an ASCII query keeps its parts in place. *)
Lemma toLowerCase_infix q2 q1 :
  forallb isAscii q2 = true → includes q2 q1 = true →
  includes (toLowerCase q2) (toLowerCase q1) = true.
Proof.
  intros Ha Hi. apply includes_infix in Hi as (pre & post & ->).
  rewrite (toLowerCase_ascii _ Ha). rewrite !forallb_app in Ha.
  apply andb_true_iff in Ha as [_ Ha]. apply andb_true_iff in Ha as [Ha _].
  rewrite (toLowerCase_ascii _ Ha), !map_app. apply includes_infix. eauto.
Qed.

Lemma truthyStr_nil s : truthyStr s = false → s = [].
Proof. destruct s; [reflexivity | discriminate]. Qed.

(** Narrowing, for a list of options and a test that looks for the query in
    some texts of the option. *)
Lemma filter_narrows {A} (texts : A → list (list N)) (all : list A) Q1 Q2 e :
  includes Q2 Q1 = true →
  In e (if negb (truthyStr Q2) then all
        else List.filter (λ x, existsb (λ t, includes t Q2) (texts x)) all) →
  In e (if negb (truthyStr Q1) then all
        else List.filter (λ x, existsb (λ t, includes t Q1) (texts x)) all).
Proof.
  intros Hq He.
  assert (Hall : In e all).
  { destruct (negb (truthyStr Q2)); [exact He|]. apply filter_In in He as [He _]. exact He. }
  destruct (truthyStr Q1) eqn:E1; cbn [negb]; [|exact Hall].
  destruct (truthyStr Q2) eqn:E2; cbn [negb] in He.
  - apply filter_In in He as [_ He]. apply filter_In. split; [exact Hall|].
    apply existsb_exists in He as (t & Ht & Hi). apply existsb_exists.
    exists t. split; [exact Ht | exact (includes_trans _ _ _ Hi Hq)].
  - apply truthyStr_nil in E2. subst Q2. apply includes_nil_r in Hq. subst Q1.
    discriminate E1.
Qed.

Lemma filteredLangs_texts st :
  filteredLangs st
  = let Q := toLowerCase (App.langQuery st) in
    if negb (truthyStr Q) then App.langs st
    else List.filter
           (λ x, existsb (λ t, includes t Q) [Entry.code x; toLowerCase (Entry.name x)])
           (App.langs st).
Proof.
  unfold filteredLangs. cbn [orEmpty]. cbv zeta. destruct (negb _); [reflexivity|].
  apply filter_ext. intros x. cbn [existsb]. rewrite orb_false_r. reflexivity.
Qed.

Lemma filteredCountries_texts st :
  filteredCountries st
  = let Q := toLowerCase (App.countryQuery st) in
    if negb (truthyStr Q) then App.countries st
    else List.filter
           (λ x, existsb (λ t, includes t Q)
                   [toLowerCase (Entry.code x); toLowerCase (Entry.name x)])
           (App.countries st).
Proof.
  unfold filteredCountries. cbn [orEmpty]. cbv zeta. destruct (negb _); [reflexivity|].
  apply filter_ext. intros x. cbn [existsb]. rewrite orb_false_r. reflexivity.
Qed.

(** X18: typing more never adds options.  If the query of [st2] is ASCII
    and contains the query of [st1], every option that [st2] lists is listed
    by [st1] too, for languages and for countries; with an empty query all
    entries are listed. *)
Theorem longer_query_narrows (st1 st2 : App.t) :
  (App.langs st1 = App.langs st2 →
   forallb isAscii (App.langQuery st2) = true →
   includes (App.langQuery st2) (App.langQuery st1) = true →
   ∀ e, In e (filteredLangs st2) → In e (filteredLangs st1))
  ∧ (App.countries st1 = App.countries st2 →
     forallb isAscii (App.countryQuery st2) = true →
     includes (App.countryQuery st2) (App.countryQuery st1) = true →
     ∀ e, In e (filteredCountries st2) → In e (filteredCountries st1))
  ∧ (App.langQuery st1 = [] → filteredLangs st1 = App.langs st1)
  ∧ (App.countryQuery st1 = [] → filteredCountries st1 = App.countries st1).
Proof.
  split; [|split; [|split]].
  - intros Hl Ha Hq e. rewrite !filteredLangs_texts, Hl. cbv zeta.
    apply filter_narrows, toLowerCase_infix; assumption.
  - intros Hl Ha Hq e. rewrite !filteredCountries_texts, Hl. cbv zeta.
    apply filter_narrows, toLowerCase_infix; assumption.
  - intros Hq. unfold filteredLangs. rewrite Hq. reflexivity.
  - intros Hq. unfold filteredCountries. rewrite Hq. reflexivity.
Qed.

(** X19: an entry is found by typing its name or its code.  A country is
    listed when the query is its name or its code as they stand; a language
    is listed when the query is its name, or its code provided that the
    code is in lower case, since the code of a language is compared as it
    stands. *)
Theorem found_by_own_text (st : App.t) (e : Entry.t) :
  (In e (App.countries st) →
   App.countryQuery st = Entry.code e ∨ App.countryQuery st = Entry.name e →
   In e (filteredCountries st))
  ∧ (In e (App.langs st) →
     App.langQuery st = Entry.name e
     ∨ (App.langQuery st = Entry.code e ∧ toLowerCase (Entry.code e) = Entry.code e) →
     In e (filteredLangs st)).
Proof.
  split.
  - intros Hin Hq. unfold filteredCountries. cbn [orEmpty]. cbv zeta.
    destruct (negb _); [exact Hin|]. apply filter_In. split; [exact Hin|].
    destruct Hq as [-> | ->]; rewrite includes_refl; [reflexivity | apply orb_true_r].
  - intros Hin Hq. unfold filteredLangs. cbn [orEmpty]. cbv zeta.
    destruct (negb _); [exact Hin|]. apply filter_In. split; [exact Hin|].
    destruct Hq as [-> | [-> ->]]; rewrite includes_refl; [apply orb_true_r | reflexivity].
Qed.

End FilterFacts.

(** ** The preview, the hint and the default date *)

Lemma range_check (P : Z → bool) (lo hi : Z) :
  forallb (λ n, P (lo + Z.of_nat n)%Z) (seq 0 (Z.to_nat (hi - lo + 1))) = true →
  ∀ z, (lo <= z <= hi)%Z → P z = true.
Proof.
  intros Hall z Hz. rewrite forallb_forall in Hall.
  replace z with (lo + Z.of_nat (Z.to_nat (z - lo)))%Z by lia.
  apply Hall, in_seq. lia.
Qed.

Lemma digits_no_hyphen s : forallb isDigit s = true → ¬ In 45 s.
Proof.
  intros Hs Hin. rewrite forallb_forall in Hs. apply Hs in Hin. discriminate Hin.
Qed.

Lemma decimalZ_digits z : (0 <= z)%Z → forallb isDigit (decimalZ z) = true.
Proof.
  intros Hz. unfold decimalZ. destruct (Z.ltb_spec z 0); [lia|]. apply uintUnits_digits.
Qed.

Lemma padStart2_digits z : (0 <= z)%Z → forallb isDigit (padStart2 z) = true.
Proof.
  intros Hz. pose proof (decimalZ_digits z Hz) as Hd. unfold padStart2.
  destruct (decimalZ z) as [|c [|d r]]; [reflexivity | | exact Hd].
  cbn [forallb] in *. exact Hd.
Qed.

Lemma year_length z : (1000 <= z <= 9999)%Z → length (decimalZ z) = 4%nat.
Proof.
  intros Hz. apply Nat.eqb_eq.
  apply (range_check (λ z, (length (decimalZ z) =? 4)%nat) 1000 9999);
    [vm_compute; reflexivity | exact Hz].
Qed.

Lemma padStart2_length z : (0 <= z <= 99)%Z → length (padStart2 z) = 2%nat.
Proof.
  intros Hz. apply Nat.eqb_eq.
  apply (range_check (λ z, (length (padStart2 z) =? 2)%nat) 0 99);
    [vm_compute; reflexivity | exact Hz].
Qed.

Section PreviewFacts.
Context `{Host}.

Lemma textArg_str s : textArg (VStr s) = Some s.
Proof. unfold textArg. cbn [truthy]. destruct s; reflexivity. Qed.

(** The composed name begins with the cleaned course name, when there is
    one. *)
Lemma composeName_name_first i :
  clean (name i) ≠ [] → ∃ rest, composeName i = clean (name i) ++ rest.
Proof.
  intros Hn. rewrite composeName_refines. unfold composeName_spec.
  cbn [List.filter]. destruct (clean (name i)) as [|c n] eqn:E; [congruence|].
  cbn [truthyStr]. match goal with |- context [join _ (_ :: ?l)] => destruct l end.
  - exists []. cbn [join]. rewrite app_nil_r. reflexivity.
  - eexists. cbn [join]. reflexivity.
Qed.

Lemma clean_nonblank s : trim s ≠ [] → clean (Some s) ≠ [].
Proof.
  unfold clean. cbn [orEmpty]. pose proof (trim_head s) as Hh.
  destruct (trim s) as [|c r]; [congruence|]. intros _. cbn [collapseSpaces].
  rewrite Hh. discriminate.
Qed.

(** X20: on a form of five strings and a boolean the preview and the hint
    are defined; the hint is shown exactly when the language does not
    normalize to a code while the course name is not blank; and when it is
    shown, the preview is not empty, begins with the cleaned course name and
    holds no language: its locale token is the country code alone. *)
Theorem hint_and_preview (st : App.t) :
  typedForm st = true →
  let n := strOf (App.courseName st) in
  let l := strOf (App.langInput st) in
  let c := strOf (App.countryInput st) in
  let e := strOf (App.eventInput st) in
  let d := strOf (App.dateInput st) in
  let inc := truthy (App.includeDate st) in
  ∃ p h,
    preview st = Some p ∧ showAddLanguageHint st = Some h
    ∧ p = composeName {| name := Some n; lang := Some l; country := Some c;
                         event := Some e; includeDate := inc;
                         date := if inc then Some d else Some [] |}
    ∧ (h = true ↔ normLang (Some l) = [] ∧ trim n ≠ [])
    ∧ (h = true →
       p ≠ [] ∧ (∃ rest, p = clean (Some n) ++ rest)
       ∧ p = join (js " - ")
               (List.filter truthyStr
                  [clean (Some n); normCountry (Some c); clean (Some e);
                   if inc then yyyymmdd (Some d) else []])).
Proof.
  unfold typedForm. intros Ht. repeat (apply andb_true_iff in Ht as [Ht ?]).
  destruct (App.courseName st) as [| | | | |n| |] eqn:En; try discriminate.
  destruct (App.langInput st) as [| | | | |l| |] eqn:El; try discriminate.
  destruct (App.countryInput st) as [| | | | |c| |] eqn:Ec; try discriminate.
  destruct (App.eventInput st) as [| | | | |e| |] eqn:Ee; try discriminate.
  destruct (App.dateInput st) as [| | | | |d| |] eqn:Ed; try discriminate.
  cbn [strOf]. cbv zeta.
  set (inc := truthy (App.includeDate st)).
  set (p := composeName {| name := Some n; lang := Some l; country := Some c;
                           event := Some e; includeDate := inc;
                           date := if inc then Some d else Some [] |}).
  exists p, (negb (truthyStr (normLang (Some l))) && truthyStr (trim n)).
  assert (Hh : negb (truthyStr (normLang (Some l))) && truthyStr (trim n) = true
               ↔ normLang (Some l) = [] ∧ trim n ≠ []).
  { rewrite andb_true_iff, negb_true_iff.
    destruct (normLang (Some l)), (trim n); cbn [truthyStr]; split;
      intros [? ?]; try discriminate; try congruence; split; congruence. }
  split; [|split; [|split; [reflexivity|split; [exact Hh|]]]].
  - unfold preview. rewrite En, El, Ec, Ee, Ed, !textArg_str. fold inc.
    subst p. destruct inc; reflexivity.
  - unfold showAddLanguageHint. rewrite El, En, textArg_str.
    destruct (truthyStr (normLang (Some l))); reflexivity.
  - intros Hs. apply Hh in Hs as [Hl Hn].
    destruct (composeName_name_first
                {| name := Some n; lang := Some l; country := Some c; event := Some e;
                   includeDate := inc; date := if inc then Some d else Some [] |})
      as [rest Hrest]; [apply clean_nonblank, Hn|].
    fold p in Hrest. cbn [name] in Hrest. split; [|split; [eauto|]].
    + rewrite Hrest. pose proof (clean_nonblank n Hn).
      destruct (clean (Some n)); [congruence | discriminate].
    + subst p. rewrite composeName_refines. unfold composeName_spec.
      cbn [name lang country event includeDate date].
      rewrite (localeToken_country _ _ Hl). destruct inc; reflexivity.
Qed.

(** X21: the default date of [init].  A date that [restoreState] brought
    back is kept, with the whole state; otherwise only [dateInput] changes,
    the other five form fields and the widgets staying as they are, and for
    a four-digit year, a month from 0 to 11 and a day from 1 to 31, the
    date set has the ten characters of [YYYY-MM-DD], and its compact form
    is the eight digits [YYYYMMDD]. *)
Theorem default_date (year month day : Z) (st : App.t) :
  (1000 <= year <= 9999)%Z → (0 <= month <= 11)%Z → (1 <= day <= 31)%Z →
  (truthy (App.dateInput st) = true → initDate year month day st = st)
  ∧ (truthy (App.dateInput st) = false →
     App.dateInput (initDate year month day st) = VStr (defaultDate year month day)
     ∧ App.courseName (initDate year month day st) = App.courseName st
     ∧ App.langInput (initDate year month day st) = App.langInput st
     ∧ App.countryInput (initDate year month day st) = App.countryInput st
     ∧ App.eventInput (initDate year month day st) = App.eventInput st
     ∧ App.includeDate (initDate year month day st) = App.includeDate st
     ∧ sameWidgets (initDate year month day st) st)
  ∧ length (defaultDate year month day) = 10%nat
  ∧ yyyymmdd (Some (defaultDate year month day))
    = decimalZ year ++ padStart2 (month + 1) ++ padStart2 day
  ∧ length (yyyymmdd (Some (defaultDate year month day))) = 8%nat
  ∧ forallb isDigit (yyyymmdd (Some (defaultDate year month day))) = true.
Proof.
  intros Hy Hm Hd.
  assert (Ey : yyyymmdd (Some (defaultDate year month day))
               = decimalZ year ++ padStart2 (month + 1) ++ padStart2 day).
  { unfold defaultDate. rewrite !yyyymmdd_app.
    rewrite (yyyymmdd_fixed (decimalZ year))
      by (apply digits_no_hyphen, decimalZ_digits; lia).
    rewrite (yyyymmdd_fixed (padStart2 (month + 1)))
      by (apply digits_no_hyphen, padStart2_digits; lia).
    rewrite (yyyymmdd_fixed (padStart2 day))
      by (apply digits_no_hyphen, padStart2_digits; lia).
    reflexivity. }
  split; [|split; [|split; [|split; [exact Ey|split]]]].
  - intros Ht. unfold initDate. rewrite Ht. reflexivity.
  - intros Ht. unfold initDate. rewrite Ht. cbn. repeat split.
  - unfold defaultDate. rewrite !length_app, year_length, !padStart2_length by lia.
    reflexivity.
  - rewrite Ey, !length_app, year_length, !padStart2_length by lia. reflexivity.
  - rewrite Ey, !forallb_app, decimalZ_digits, !padStart2_digits by lia. reflexivity.
Qed.

End PreviewFacts.

(* ================================================================== *)
(** * Closed instances of the further properties *)

#[local] Existing Instance plainHost.

Lemma clean_shape_witness :
  clean (Some (js "  Intro   to ML "))
  ≠ js "Intro" ++ 32 :: 32 :: js "to ML".
Proof.
  apply (proj2 (proj2 (proj2 (clean_shape (Some (js "  Intro   to ML ")))))).
Defined.

Lemma clean_idempotent_witness :
  clean (Some (js "ML-101")) = js "ML-101".
Proof. apply (proj2 (clean_idempotent)). reflexivity. Defined.

Lemma yyyymmdd_removes_hyphens_witness :
  yyyymmdd (Some (js "2024" ++ js "-" ++ js "03" ++ js "-" ++ js "05"))
  = js "2024" ++ js "03" ++ js "05".
Proof.
  apply (proj2 (proj2 (proj2 yyyymmdd_removes_hyphens)));
    apply digits_no_hyphen; reflexivity.
Defined.

Lemma composeName_empty_iff_witness :
  composeName
    {| name := Some (js "   "); lang := Some (js "en"); country := Some (js "U1A");
       event := None; includeDate := true; date := Some (js "--") |} = [].
Proof.
  apply (proj2 (composeName_empty_iff _)).
  repeat split; try reflexivity. right. reflexivity.
Defined.

Lemma setCache_frame_witness :
  let w := worldWith {[ js "languages.v1" := jsq "{'ts':1699999999000,'data':[]}" ]} offline in
  (getCache (js "languages.v1")
     (setCache (js "countries.v1") (VArr []) w).2).1
  = (getCache (js "languages.v1") w).1.
Proof.
  intros w.
  apply (proj1 (setCache_frame (js "countries.v1") (VArr []) VNull w)
           (js "languages.v1")).
  discriminate.
Defined.

Lemma fetchers_total_witness :
  let w := worldWith {[ js "languages.v1" := jsq "{'ts':1699999999000,'data':[]}" ]}
             (answering (VArr []) 40) in
  storage (fetchCountries w).2 !! js "languages.v1"
  = storage w !! js "languages.v1".
Proof.
  intros w. destruct (proj1 (fetchers_total w)) as (v & _ & F & _).
  apply F. discriminate.
Defined.

Lemma second_fetch_hits_cache_witness :
  let rs := [countryRow (js "fra") (js "France"); VNull;
             countryRow (js "DEU") (js "Germany")] in
  let w := worldWith ∅ (answering (VArr rs) 80) in
  let w2 := atTime 1700000500000 (fetchCountries w).2 in
  ∃ data, (fetchCountries w).1 = Ok (VArr data)
          ∧ fetchCountries w2 = (Ok (VArr data), w2).
Proof.
  intros rs w w2.
  apply (second_fetch_hits_cache w w2 rs VNull eq_refl eq_refl eq_refl);
    [| reflexivity | reflexivity | vm_compute; discriminate].
  intros r [<-|[<-|[<-|[]]]]; intros Hk; try discriminate Hk; split; reflexivity.
Defined.

Lemma second_language_fetch_hits_cache_witness :
  let rs := [languageRow [(js "FRA", js "French"); (js "eng", js "English")];
             languageRow [(js "eng", js "Anglais"); (js "de", js "German")]] in
  let w := worldWith ∅ (answering (VArr rs) 80) in
  let w2 := atTime 1700000500000 (fetchLanguages w).2 in
  ∃ data, (fetchLanguages w).1 = Ok (VArr data)
          ∧ fetchLanguages w2 = (Ok (VArr data), w2).
Proof.
  intros rs w w2.
  apply (second_language_fetch_hits_cache w w2 rs VNull eq_refl eq_refl eq_refl);
    [| reflexivity | reflexivity | vm_compute; discriminate].
  intros kv [<-|[<-|[<-|[<-|[]]]]]; intros Hk; try discriminate Hk; reflexivity.
Defined.

Lemma non_array_response_witness :
  let w := worldWith ∅ (answering (VStr (js "Service unavailable")) 80) in
  (fetchCountries w).1 = Ok countriesStub
  ∧ (fetchLanguages w).1 = Ok (VArr []).
Proof.
  intros w.
  pose proof (non_array_response w (VStr (js "Service unavailable")) VNull
                ltac:(discriminate)) as [Hc Hl].
  split.
  - apply (Hc eq_refl eq_refl eq_refl).
  - apply (Hl eq_refl eq_refl eq_refl).
Defined.

Lemma ill_typed_row_falls_back_witness :
  let bad := VObj [(js "name", VObj [(js "common", VStr (js "Nowhere"))]);
                   (js "cca3", VNum 5)] in
  let w := worldWith ∅ (answering (VArr [countryRow (js "fra") (js "France"); bad]) 80) in
  (fetchCountries w).1 = Ok countriesStub.
Proof.
  intros bad w.
  apply (ill_typed_row_falls_back w
           [countryRow (js "fra") (js "France"); bad] bad VNull eq_refl eq_refl eq_refl);
    [right; left; reflexivity | reflexivity | reflexivity].
Defined.

Lemma fetched_codes_are_normal_witness :
  let rs := [languageRow [(js "FRA", js "French"); (js "eng", js "English")];
             VObj [(js "languages", VObj [(js "fra", VNum 5); (js "de", VNull)])]] in
  let w := worldWith ∅ (answering (VArr rs) 80) in
  (∃ data, (fetchLanguages w).1 = Ok (VArr data)
           ∧ Forall (λ e, ∃ code name, e = entry code name
                                       ∧ normLang (Some code) = code ∧ code ≠ []) data
           ∧ length data = 2%nat)
  ∧ (∃ name, countryEntry (countryRow (js "usA") (js "United States"))
             = Some (entry (normCountry (Some (js "usA"))) name)
             ∧ normCountry (Some (js "usA")) ≠ []).
Proof.
  intros rs w. split.
  - destruct (proj1 (fetched_codes_are_normal w rs VNull) eq_refl eq_refl eq_refl)
      as (data & E & Hd).
    + intros code name. unfold firstName.
      set (qs := acceptedPairs (allPairs rs)). vm_compute in qs. subst qs.
      cbn [List.find fst snd].
      repeat (destruct (bool_decide _)); intros [= <-]; reflexivity.
    + exists data. split; [exact E|]. split.
      * apply Forall_forall. intros e He. apply Hd, list_elem_of_In, He.
      * assert (E' : Ok (VArr data) = (fetchLanguages w).1) by (symmetry; exact E).
        vm_compute in E'. injection E' as ->. reflexivity.
  - destruct (proj2 (fetched_codes_are_normal (worldWith ∅ offline) [] VNull)
                (countryRow (js "usA") (js "United States")) 117 115 65
                eq_refl eq_refl eq_refl eq_refl eq_refl) as (name & E & _ & Hn).
    exists name. split; [exact E | exact Hn].
Defined.

Lemma save_restore_round_trip_witness :
  let w := worldWith ∅ offline in
  let w' := (saveState demoApp w).2 in
  ∃ st'', restoreState initialApp w' = (Ok st'', w')
          ∧ App.langInput st'' = VStr (js "en")
          ∧ preview st'' = preview demoApp.
Proof.
  intros w w'.
  destruct (save_restore_round_trip demoApp initialApp w w' eq_refl eq_refl)
    as (st'' & E & _ & El & _ & _ & _ & _ & _ & Ep).
  exists st''. split; [exact E|]. split; [exact El | exact Ep].
Defined.

Lemma restoreState_total_witness :
  let w := worldWith {[ js "folderNameState" := js "{}" ]} offline in
  restoreState demoApp w
  = (Ok (App.setForm (VStr []) (VStr []) (VStr []) (VStr []) (VBool false) (VStr [])
           demoApp), w).
Proof.
  intros w.
  apply (proj2 (proj2 (proj2 (restoreState_total demoApp w)))
           (js "{}") (VObj [])); reflexivity.
Defined.

Lemma lang_keydown_witness :
  ∃ st' w',
    handleLangKeydown (js "Enter") demoApp (worldWith ∅ offline) = (Ok (st', true), w')
    ∧ App.langInput st' = VStr (js "eng") ∧ App.langOpen st' = false
    ∧ storage w' !! js "folderNameState"
      = Some (jsq "{'courseName':'Intro to ML','langInput':'eng','countryInput':'usa','eventInput':'','includeDate':true,'dateInput':'2024-09-01'}")
    ∧ (-1 <= App.langActiveIdx st')%Z.
Proof.
  pose proof (proj1 (lang_keydown (js "Enter") demoApp (worldWith ∅ offline))
                eq_refl (or_introl eq_refl)
                {| Entry.code := js "eng"; Entry.name := js "English" |} eq_refl)
    as [E _].
  cbv zeta in E. rewrite bool_decide_eq_true_2 in E by reflexivity.
  eexists _, _. split; [exact E|]. repeat split; vm_compute; discriminate.
Defined.

Lemma country_keydown_witness :
  let st := App.setCountry (App.countryInput demoApp) true 0 demoApp in
  ∃ st' w',
    handleCountryKeydown (js "Tab") st (worldWith ∅ offline) = (Ok (st', false), w')
    ∧ App.countryInput st' = VStr (js "USA") ∧ App.countryOpen st' = false
    ∧ storage w' !! js "folderNameState"
      = Some (jsq "{'courseName':'Intro to ML','langInput':'en','countryInput':'USA','eventInput':'','includeDate':true,'dateInput':'2024-09-01'}").
Proof.
  intros st.
  pose proof (proj1 (country_keydown (js "Tab") st (worldWith ∅ offline))
                eq_refl (or_intror eq_refl)
                {| Entry.code := js "USA"; Entry.name := js "United States" |} eq_refl)
    as [E _].
  cbv zeta in E. rewrite bool_decide_eq_false_2 in E by discriminate.
  eexists _, _. split; [exact E|]. repeat split.
Defined.

Lemma arrow_keys_stay_in_range_witness :
  ∃ st', handleLangKeydown (js "ArrowDown") demoApp (worldWith ∅ offline)
         = (Ok (st', true), worldWith ∅ offline)
         ∧ App.langActiveIdx st' = 1%Z.
Proof.
  destruct (proj1 (arrow_keys_stay_in_range demoApp (worldWith ∅ offline)
                     (js "ArrowDown") (or_introl eq_refl))
              eq_refl ltac:(vm_compute; reflexivity)
              ltac:(vm_compute; split; [discriminate | reflexivity]))
    as (st' & E & _ & _ & _ & _ & Ei & _).
  exists st'. split; [exact E|]. rewrite Ei. reflexivity.
Defined.

Lemma longer_query_narrows_witness :
  let eng := {| Entry.code := js "eng"; Entry.name := js "English" |} in
  let fra := {| Entry.code := js "fra"; Entry.name := js "French" |} in
  filteredLangs (withLangQuery (js "Eng") demoApp) = [eng]
  ∧ filteredLangs (withLangQuery (js "E") demoApp) = [eng; fra]
  ∧ In eng (filteredLangs (withLangQuery (js "E") demoApp)).
Proof.
  intros eng fra. split; [reflexivity|]. split; [reflexivity|].
  apply (proj1 (longer_query_narrows (withLangQuery (js "E") demoApp)
                  (withLangQuery (js "Eng") demoApp)));
    [reflexivity | reflexivity | reflexivity |].
  left. reflexivity.
Defined.

Lemma found_by_own_text_witness :
  In {| Entry.code := js "USA"; Entry.name := js "United States" |}
     (filteredCountries demoApp).
Proof.
  apply (proj1 (found_by_own_text demoApp _)).
  - right. left. reflexivity.
  - left. reflexivity.
Defined.

Lemma hint_and_preview_witness :
  ∃ p, preview demoApp = Some p
       ∧ showAddLanguageHint demoApp = Some true
       ∧ p = js "Intro to ML - USA - 20240901".
Proof.
  destruct (hint_and_preview demoApp eq_refl) as (p & h & Ep & Eh & E & Hh & _).
  exists p. split; [exact Ep|]. split; [|rewrite E; reflexivity].
  rewrite Eh. f_equal. apply Hh. split; [reflexivity | discriminate].
Defined.

Lemma default_date_witness :
  yyyymmdd (Some (defaultDate 2024 8 1)) = js "20240901".
Proof.
  rewrite (proj1 (proj2 (proj2 (proj2
             (default_date 2024 8 1 demoApp
                ltac:(lia) ltac:(lia) ltac:(lia)))))).
  reflexivity.
Defined.
